(** * terraform-provider-postgresql: roles, extensions and privilege helpers

    A shallow embedding of [postgresql/helpers.go], of the role resource
    ([resourcePostgreSQLRole*], [setRole*], [revokeRoles], [grantRoles]) and of
    the extension resource ([resourcePostgreSQLExtension*], [setExt*],
    [generateExtID], [getExtNames]), with what they use of Go's [strings],
    of lib/pq and of terraform's [schema.Set].

    Go strings are byte strings ([string]); [fmt.Sprintf] is concatenation;
    a Go [error] is a value of [error] and [nil] is [None]; a function that
    talks to the database runs in the monad [M] over the transaction and the
    [schema.ResourceData] it was handed, and the server is an oracle
    ([Server]) giving the outcome of every statement and query. *)

From Stdlib Require Import String Ascii List ZArith Lia Bool DecimalString.
Import ListNotations.
Local Open Scope list_scope.
Local Open Scope string_scope.

(* ===================================================================== *)
(** ** Go's [strings] package, as far as the provider uses it *)
(* ===================================================================== *)

Module strings.

(** [strings.Replace(s, old, new, -1)] for a one-byte [old]. *)
Fixpoint Replace (s : string) (old : ascii) (new : string) : string :=
  match s with
  | EmptyString => EmptyString
  | String c r =>
      if Ascii.eqb c old then new ++ Replace r old new
      else String c (Replace r old new)
  end.

(** [strings.Split(s, sep)] for a one-byte [sep]: always at least one
    piece, one more than the number of separators. *)
Fixpoint Split (s : string) (sep : ascii) : list string :=
  match s with
  | EmptyString => [EmptyString]
  | String c r =>
      if Ascii.eqb c sep then EmptyString :: Split r sep
      else match Split r sep with
           | [] => [String c EmptyString]
           | p :: ps => String c p :: ps
           end
  end.

(** [strings.Join(elems, sep)]. *)
Fixpoint Join (elems : list string) (sep : string) : string :=
  match elems with
  | [] => EmptyString
  | [e] => e
  | e :: rest => e ++ sep ++ Join rest sep
  end.

Definition upper_byte (c : ascii) : ascii :=
  let n := nat_of_ascii c in
  if andb (Nat.leb 97 n) (Nat.leb n 122) then ascii_of_nat (n - 32) else c.

Definition lower_byte (c : ascii) : ascii :=
  let n := nat_of_ascii c in
  if andb (Nat.leb 65 n) (Nat.leb n 90) then ascii_of_nat (n + 32) else c.

Fixpoint map_bytes (f : ascii -> ascii) (s : string) : string :=
  match s with
  | EmptyString => EmptyString
  | String c r => String (f c) (map_bytes f r)
  end.

(** [strings.ToUpper]: the ASCII letters byte by byte, and the two runes
    outside ASCII whose upper case is an ASCII letter: U+0131 (dotless i,
    bytes 196 177) gives [I] and U+017F (long s, bytes 197 191) gives [S].
    The other runes outside ASCII are kept: their upper case is never an
    ASCII letter, so the comparisons with ASCII words, which are all the
    provider makes of the result, come out as in Go. *)
Fixpoint ToUpper (s : string) : string :=
  match s with
  | EmptyString => EmptyString
  | String c r =>
      match r with
      | String c1 r1 =>
          if andb (Ascii.eqb c "196") (Ascii.eqb c1 "177") then String "I" (ToUpper r1)
          else if andb (Ascii.eqb c "197") (Ascii.eqb c1 "191") then String "S" (ToUpper r1)
          else String (upper_byte c) (ToUpper r)
      | EmptyString => String (upper_byte c) EmptyString
      end
  end.

(** [strings.ToLower]: the ASCII letters byte by byte, and the two runes
    outside ASCII whose lower case is an ASCII letter: U+0130 (capital I with
    a dot above, bytes 196 176) gives [i] and U+212A (the Kelvin sign, bytes
    226 132 170) gives [k]. The other runes outside ASCII are kept, as for
    [ToUpper]. *)
Fixpoint ToLower (s : string) : string :=
  match s with
  | EmptyString => EmptyString
  | String c r =>
      match r with
      | String c1 r1 =>
          if andb (Ascii.eqb c "196") (Ascii.eqb c1 "176") then String "i" (ToLower r1)
          else
            match r1 with
            | String c2 r2 =>
                if andb (Ascii.eqb c "226") (andb (Ascii.eqb c1 "132") (Ascii.eqb c2 "170"))
                then String "k" (ToLower r2)
                else String (lower_byte c) (ToLower r)
            | EmptyString => String (lower_byte c) (ToLower r)
            end
      | EmptyString => String (lower_byte c) EmptyString
      end
  end.

(** [strings.ContainsRune(s, c)] for a one-byte [c]. *)
Fixpoint ContainsRune (s : string) (c : ascii) : bool :=
  match s with
  | EmptyString => false
  | String c' r => orb (Ascii.eqb c' c) (ContainsRune r c)
  end.

End strings.

(** The three bytes the quoting functions care about. *)
Definition squote : ascii := "039"%char.
Definition dquote : ascii := "034"%char.
Definition backslash : ascii := "092"%char.
Definition hyphen : ascii := "045"%char.

Definition str1 (c : ascii) : string := String c EmptyString.
Definition str2 (c : ascii) : string := String c (String c EmptyString).

(** [%d] of [fmt.Sprintf]. *)
Definition itoa (z : Z) : string := NilZero.string_of_int (Z.to_int z).

(** [%v] of a [[]string]: the elements in brackets, separated by blanks. *)
Definition fmt_slice (l : list string) : string :=
  "[" ++ strings.Join l " " ++ "]".

(* ===================================================================== *)
(** ** Errors *)
(* ===================================================================== *)

(** Go [error] values: the two sentinels of [database/sql], messages made by
    [errors.New] and [fmt.Errorf], [errwrap.Wrapf] around an inner error, and
    whatever the driver reports. *)
Inductive error : Type :=
| ErrNoRows
| ErrTxDone
| Errorf (msg : string)
| Wrapf (format : string) (err : error)
| DriverError (msg : string).

(** The innermost error of a chain of [errwrap.Wrapf]. *)
Fixpoint cause (e : error) : error :=
  match e with
  | Wrapf _ inner => cause inner
  | _ => e
  end.

(** [err == sql.ErrNoRows]. *)
Definition isErrNoRows (e : error) : bool :=
  match e with
  | ErrNoRows => true
  | _ => false
  end.

(* ===================================================================== *)
(** ** lib/pq *)
(* ===================================================================== *)

Module pq.

(** [pq.QuoteIdentifier] of github.com/lib/pq: the name cut at its first
    NUL byte, every double quote doubled, the whole in double quotes. *)
Fixpoint upto_nul (s : string) : string :=
  match s with
  | EmptyString => EmptyString
  | String c r => if Ascii.eqb c zero then EmptyString else String c (upto_nul r)
  end.

Definition QuoteIdentifier (name : string) : string :=
  str1 dquote ++ strings.Replace (upto_nul name) dquote (str2 dquote) ++ str1 dquote.

End pq.

(* ===================================================================== *)
(** ** helpers.go: the pure helpers *)
(* ===================================================================== *)

(** [pqQuoteLiteral]: backslashes doubled first, then single quotes. *)
Definition pqQuoteLiteral (s : string) : string :=
  let s := strings.Replace s backslash (str2 backslash) in
  let s := strings.Replace s squote (str2 squote) in
  s.

(** [validateConnLimit]: the list of errors ([warnings] is always empty). *)
Definition validateConnLimit (value : Z) (key : string) : list error :=
  if (value <? -1)%Z then [Errorf (key ++ " can not be less than -1")] else [].

Fixpoint sliceContainsStr (haystack : list string) (needle : string) : bool :=
  match haystack with
  | [] => false
  | s :: rest => if String.eqb s needle then true else sliceContainsStr rest needle
  end.

(** [allowedPrivileges]: the Go map literal, as its list of entries. *)
Definition allowedPrivileges : list (string * list string) :=
  [ ("table", ["ALL"; "SELECT"; "INSERT"; "UPDATE"; "DELETE"; "TRUNCATE"; "REFERENCES"; "TRIGGER"]);
    ("sequence", ["ALL"; "USAGE"; "SELECT"; "UPDATE"]) ].

(** [m[key]] with the comma-ok form. *)
Fixpoint map_lookup {V : Type} (m : list (string * V)) (key : string) : option V :=
  match m with
  | [] => None
  | (k, v) :: rest => if String.eqb k key then Some v else map_lookup rest key
  end.

(** The loop of [validatePrivileges] over the privileges. *)
Fixpoint checkPrivileges (objectType : string) (allowed privileges : list string)
  : option error :=
  match privileges with
  | [] => None
  | priv :: rest =>
      if negb (sliceContainsStr allowed priv)
      then Some (Errorf (priv ++ " is not an allowed privilege for object type " ++ objectType))
      else checkPrivileges objectType allowed rest
  end.

(** [validatePrivileges]: [None] is Go's [nil]. The privileges arrive as
    [[]interface{}] holding strings. *)
Definition validatePrivileges (objectType : string) (privileges : list string)
  : option error :=
  match map_lookup allowedPrivileges objectType with
  | None => Some (Errorf ("unknown object type " ++ objectType))
  | Some allowed => checkPrivileges objectType allowed privileges
  end.

(* ===================================================================== *)
(** ** Transactions, resource data and the monad of the resource functions *)
(* ===================================================================== *)

(** A Go [(T, error)] result. *)
Inductive Res (R : Type) : Type :=
| Ok (r : R)
| Err (e : error).
Arguments Ok {R} r.
Arguments Err {R} e.

(** A [*sql.Tx]: the statements sent over it so far (oldest first), how often
    it was committed and rolled back, and whether it is finished. *)
Record Tx : Type := mkTx {
  sent : list string;
  commits : nat;
  rollbacks : nat;
  done : bool
}.

Definition newTx : Tx := mkTx [] 0 0 false.

(** A [*schema.ResourceData] over an attribute bag [A]: the id, the prior
    state ([GetChange]'s old value) and the values [Get] returns. *)
Record ResourceData (A : Type) : Type := mkData {
  Id : string;
  prior : A;
  attrs : A
}.
Arguments mkData {A} _ _ _.
Arguments Id {A} _.
Arguments prior {A} _.
Arguments attrs {A} _.

Record St (A : Type) : Type := mkSt {
  tx : Tx;
  rd : ResourceData A
}.
Arguments mkSt {A} _ _.
Arguments tx {A} _.
Arguments rd {A} _.

(** A resource function: it may fail with an [error], and it changes the
    transaction and the resource data on the way. *)
Definition M (A R : Type) : Type := St A -> Res R * St A.

Definition ret {A R : Type} (r : R) : M A R := fun s => (Ok r, s).

Definition fail {A R : Type} (e : error) : M A R := fun s => (Err e, s).

Definition bind {A R R' : Type} (m : M A R) (f : R -> M A R') : M A R' :=
  fun s =>
    match m s with
    | (Ok r, s') => f r s'
    | (Err e, s') => (Err e, s')
    end.

Declare Scope go_scope.
Delimit Scope go_scope with go.
Notation "x <- m ;; k" := (bind m (fun x => k))
  (at level 61, m at next level, right associativity) : go_scope.
Notation "m ;; k" := (bind m (fun _ => k))
  (at level 61, right associativity) : go_scope.
Local Open Scope go_scope.

Definition getd {A : Type} : M A (ResourceData A) := fun s => (Ok (rd s), s).

Definition SetId {A : Type} (id : string) : M A unit :=
  fun s => (Ok tt, mkSt (tx s) (mkData id (prior (rd s)) (attrs (rd s)))).

(** [d.Set]: the bag [Get] reads is replaced by [f] of it. *)
Definition Set_ {A : Type} (f : A -> A) : M A unit :=
  fun s => (Ok tt, mkSt (tx s) (mkData (Id (rd s)) (prior (rd s)) (f (attrs (rd s))))).

(** The database server, seen from the provider: the outcome of every call.
    A statement's outcome may depend on the statements sent before it in the
    transaction. *)
Record RoleRow : Type := mkRoleRow {
  rolname : string;
  rolsuper : bool;
  rolinherit : bool;
  rolcreaterole : bool;
  rolcreatedb : bool;
  rolcanlogin : bool;
  rolreplication : bool;
  rolconnlimit : Z;
  rolvaliduntil : string;
  rolroles : list string
}.

Record Server : Type := mkServer {
  (** [client.config.NewClient(database)] *)
  newClient_result : string -> option error;
  (** [db.Begin()] *)
  begin_result : option error;
  (** [txn.Exec(sql)], after the statements already sent *)
  exec_result : list string -> string -> option error;
  (** [txn.Commit()], after the statements sent *)
  commit_result : list string -> option error;
  (** [QueryRow(query, arg).Scan(&x)] of the existence probes *)
  scan_result : string -> string -> option error;
  (** [txn.Query] on [information_schema.applicable_roles] and the
      [rows.Scan] of each row, after the statements already sent *)
  applicable_roles : list string -> string -> Res (list (Res string));
  (** the three reads of [resourcePostgreSQLRoleReadImpl] *)
  role_row : string -> Res RoleRow;
  rls_row : string -> Res bool;
  shadow_row : string -> Res string;
  (** [getDBConnection(c, database)] *)
  dbConnection_result : string -> option error;
  (** the read of [resourcePostgreSQLExtensionReadImpl]: database, extension *)
  ext_row : string -> string -> Res (string * string)
}.

(** [c.DB().Begin()] followed by [if err != nil { return err }]. *)
Definition Begin {A : Type} (db : Server) : M A unit :=
  match begin_result db with
  | Some e => fail e
  | None => fun s => (Ok tt, mkSt newTx (rd s))
  end.

(** [txn.Rollback()]: nothing happens on a finished transaction. *)
Definition Rollback (t : Tx) : Tx :=
  if done t then t else mkTx (sent t) (commits t) (S (rollbacks t)) true.

(** [defer txn.Rollback()] around the rest of the function body. *)
Definition deferRollback {A R : Type} (body : M A R) : M A R :=
  fun s => let (r, s') := body s in (r, mkSt (Rollback (tx s')) (rd s')).

(** [if _, err := txn.Exec(sql); err != nil { return wrap(err) }]. *)
Definition Exec {A : Type} (db : Server) (sql : string) (wrap : error -> error)
  : M A unit :=
  fun s =>
    let t := tx s in
    if done t then (Err (wrap ErrTxDone), s)
    else
      let s' := mkSt (mkTx (sent t ++ [sql])%list (commits t) (rollbacks t) false) (rd s) in
      match exec_result db (sent t) sql with
      | Some e => (Err (wrap e), s')
      | None => (Ok tt, s')
      end.

(** [if err := txn.Commit(); err != nil { return wrap(err) }]: the
    transaction is finished whether the commit succeeds or not. *)
Definition Commit {A : Type} (db : Server) (wrap : error -> error) : M A unit :=
  fun s =>
    let t := tx s in
    if done t then (Err (wrap ErrTxDone), s)
    else
      let s' := mkSt (mkTx (sent t) (S (commits t)) (rollbacks t) true) (rd s) in
      match commit_result db (sent t) with
      | Some e => (Err (wrap e), s')
      | None => (Ok tt, s')
      end.

(** Running a resource function on resource data [d]. *)
Definition run {A R : Type} (m : M A R) (d : ResourceData A) : Res R * St A :=
  m (mkSt newTx d).

(** The client (the [meta] argument): its configuration and what the connected
    server version supports. *)
Inductive featureName : Type :=
| featureCreateRoleWith
| featureRLS
| featureReassignOwnedCurrentUser.

Record Client : Type := mkClient {
  databaseName : string;
  config_Username : string;
  version_String : string;
  featureSupported : featureName -> bool
}.

(* ===================================================================== *)
(** ** helpers.go: the existence probes *)
(* ===================================================================== *)

(** The [switch] every probe ends with: [sql.ErrNoRows] is absence, another
    error is returned through [wrap], no error is presence. *)
Definition probe (scan : option error) (wrap : error -> error) : bool * option error :=
  match scan with
  | Some e => if isErrNoRows e then (false, None) else (false, Some (wrap e))
  | None => (true, None)
  end.

Definition dbExists (db : Server) (dbname : string) : bool * option error :=
  probe (scan_result db "SELECT datname FROM pg_database WHERE datname=$1" dbname)
        (Wrapf "could not check if database exists: {{err}}").

Definition roleExists (db : Server) (rolname : string) : bool * option error :=
  probe (scan_result db "SELECT 1 FROM pg_roles WHERE rolname=$1" rolname)
        (Wrapf "could not check if role exists: {{err}}").

Definition schemaExists (db : Server) (schemaname : string) : bool * option error :=
  probe (scan_result db "SELECT 1 FROM pg_namespace WHERE nspname=$1" schemaname)
        (Wrapf "could not check if schema exists: {{err}}").

(* ===================================================================== *)
(** ** terraform's helper/hashcode and helper/schema: sets of strings *)
(* ===================================================================== *)

Module hashcode.

(** One bit of the CRC-32 of IEEE 802.3 (reflected, polynomial EDB88320). *)
Definition crc_bit (crc : N) : N :=
  if N.testbit crc 0 then N.lxor (N.shiftr crc 1) 0xEDB88320%N else N.shiftr crc 1.

Definition crc_byte (crc : N) (c : ascii) : N :=
  Nat.iter 8 crc_bit (N.lxor crc (N_of_ascii c)).

Fixpoint crc_update (crc : N) (s : string) : N :=
  match s with
  | EmptyString => crc
  | String c r => crc_update (crc_byte crc c) r
  end.

(** [crc32.ChecksumIEEE]. *)
Definition ChecksumIEEE (s : string) : N :=
  N.lxor (crc_update 0xFFFFFFFF%N s) 0xFFFFFFFF%N.

(** [hashcode.String]: the checksum as an [int]; with an [int] of 64 bits it
    is never negative. *)
Definition String (s : string) : Z := Z.of_N (ChecksumIEEE s).

End hashcode.

Module schema.

Definition HashString (v : string) : Z := hashcode.String v.

(** The map [m] of a [schema.Set] of strings, from the hash codes (in
    decimal) to the items, as the list of its entries. *)
Definition SetMap : Type := list (string * string).

(** [hash]: the hash code, made nonnegative, through [strconv.Itoa]. *)
Definition hash (item : string) : string := itoa (Z.abs (HashString item)).

(** [add]: an item whose code is already there is dropped. *)
Definition add (m : SetMap) (item : string) : SetMap :=
  let code := hash item in
  match map_lookup m code with
  | Some _ => m
  | None => app m [(code, item)]
  end.

(** [NewSet(HashString, items)]: the items added one after the other. *)
Definition NewSet (items : list string) : SetMap := fold_left add items [].

(** [sort.Strings] on the codes. *)
Fixpoint insertCode (k : string) (keys : list string) : list string :=
  match keys with
  | [] => [k]
  | k' :: rest => if String.leb k k' then k :: keys else k' :: insertCode k rest
  end.

Definition listCode (m : SetMap) : list string :=
  fold_right insertCode [] (map fst m).

(** [List()]: the items in the order of their sorted codes. *)
Definition List (m : SetMap) : list string :=
  flat_map (fun k => match map_lookup m k with Some v => [v] | None => [] end)
           (listCode m).

End schema.

(** [pgArrayToSet]: the array as a [schema.Set] hashed by [schema.HashString],
    given as the list its [List()] returns (the form in which [roles] is
    kept): every item once, in the order of the hash codes. *)
Definition pgArrayToSet (arr : list string) : list string :=
  schema.List (schema.NewSet arr).

(* ===================================================================== *)
(** ** The role resource *)
(* ===================================================================== *)

(** The attribute keys of [postgresql_role], by the type of their value. *)
Inductive boolAttr : Type :=
| roleBypassRLSAttr
| roleCreateDBAttr
| roleCreateRoleAttr
| roleEncryptedPassAttr
| roleInheritAttr
| roleLoginAttr
| roleReplicationAttr
| roleSkipDropRoleAttr
| roleSkipReassignOwnedAttr
| roleSuperuserAttr.

Inductive stringAttr : Type :=
| roleNameAttr
| rolePasswordAttr
| roleValidUntilAttr.

Inductive intAttr : Type :=
| roleConnLimitAttr.

Scheme Equality for boolAttr.
Scheme Equality for stringAttr.

(** The attribute bag of a role: [d.Get(key)] by the key's type, and the
    [roles] set as the list its [List()] gives. *)
Record RoleAttrs : Type := mkRoleAttrs {
  bools : boolAttr -> bool;
  strs : stringAttr -> string;
  ints : intAttr -> Z;
  roles : list string
}.

Definition RoleData : Type := ResourceData RoleAttrs.

Definition setBool (k : boolAttr) (v : bool) (a : RoleAttrs) : RoleAttrs :=
  mkRoleAttrs (fun k' => if boolAttr_beq k k' then v else bools a k')
              (strs a) (ints a) (roles a).

Definition setString (k : stringAttr) (v : string) (a : RoleAttrs) : RoleAttrs :=
  mkRoleAttrs (bools a)
              (fun k' => if stringAttr_beq k k' then v else strs a k')
              (ints a) (roles a).

Definition setInt (k : intAttr) (v : Z) (a : RoleAttrs) : RoleAttrs :=
  mkRoleAttrs (bools a) (strs a) (fun _ => v) (roles a).

Definition setRoles (v : list string) (a : RoleAttrs) : RoleAttrs :=
  mkRoleAttrs (bools a) (strs a) (ints a) v.

(** [d.HasChange(key)]. *)
Definition HasChangeBool (d : RoleData) (k : boolAttr) : bool :=
  negb (Bool.eqb (bools (prior d) k) (bools (attrs d) k)).

Definition HasChangeString (d : RoleData) (k : stringAttr) : bool :=
  negb (String.eqb (strs (prior d) k) (strs (attrs d) k)).

Definition HasChangeInt (d : RoleData) (k : intAttr) : bool :=
  negb (Z.eqb (ints (prior d) k) (ints (attrs d) k)).

(** [d.GetOk(key)] of a string: the value, and whether it is not the zero
    value. *)
Definition GetOk (a : RoleAttrs) (k : stringAttr) : string * bool :=
  (strs a k, negb (String.eqb (strs a k) "")).

(** *** resourcePostgreSQLRoleCreate: the option tables *)

Definition stringOpts : list (stringAttr * string) :=
  [ (rolePasswordAttr, "PASSWORD");
    (roleValidUntilAttr, "VALID UNTIL") ].

Definition intOpts : list (intAttr * string) :=
  [ (roleConnLimitAttr, "CONNECTION LIMIT") ].

Record boolOptType : Type := mkBoolOpt {
  hclKey : boolAttr;
  sqlKeyEnable : string;
  sqlKeyDisable : string
}.

Definition boolOpts (c : Client) : list boolOptType :=
  ([ mkBoolOpt roleSuperuserAttr "CREATEDB" "NOCREATEDB";
    mkBoolOpt roleCreateRoleAttr "CREATEROLE" "NOCREATEROLE";
    mkBoolOpt roleInheritAttr "INHERIT" "NOINHERIT";
    mkBoolOpt roleLoginAttr "LOGIN" "NOLOGIN";
    mkBoolOpt roleReplicationAttr "REPLICATION" "NOREPLICATION" ]
  ++ (if featureSupported c featureRLS
      then [ mkBoolOpt roleBypassRLSAttr "BYPASSRLS" "NOBYPASSRLS" ]
      else []))%list.

(** One turn of the loop over [stringOpts]: what it appends to [createOpts]. *)
Definition createStringOpt (a : RoleAttrs) (opt : stringAttr * string) : list string :=
  let (key, sqlKey) := opt in
  let (v, ok) := GetOk a key in
  if negb ok then []
  else
    let val := v in
    if String.eqb val "" then []
    else if stringAttr_beq key rolePasswordAttr then
      if String.eqb (strings.ToUpper v) "NULL" then [ "PASSWORD NULL" ]
      else
        app (if bools a roleEncryptedPassAttr then [ "ENCRYPTED" ] else [ "UNENCRYPTED" ])
            [ sqlKey ++ " '" ++ pqQuoteLiteral val ++ "'" ]
    else if stringAttr_beq key roleValidUntilAttr then
      if orb (String.eqb v "") (String.eqb (strings.ToLower v) "infinity")
      then [ sqlKey ++ " '" ++ "infinity" ++ "'" ]
      else [ sqlKey ++ " " ++ pq.QuoteIdentifier val ]
    else [ sqlKey ++ " " ++ pq.QuoteIdentifier val ].

(** One turn of the loop over [intOpts]. *)
Definition createIntOpt (a : RoleAttrs) (opt : intAttr * string) : string :=
  let (key, sqlKey) := opt in
  sqlKey ++ " " ++ itoa (ints a key).

(** One turn of the loop over [boolOpts]. *)
Definition createBoolOpt (a : RoleAttrs) (opt : boolOptType) : list string :=
  if boolAttr_beq (hclKey opt) roleEncryptedPassAttr then []
  else
    let val := bools a (hclKey opt) in
    let valStr := if val then sqlKeyEnable opt else sqlKeyDisable opt in
    [ valStr ].

(** [createOpts] after the three loops. *)
Definition roleCreateOpts (c : Client) (a : RoleAttrs) : list string :=
  (flat_map (createStringOpt a) stringOpts
   ++ map (createIntOpt a) intOpts
   ++ flat_map (createBoolOpt a) (boolOpts c))%list.

(** The statement [resourcePostgreSQLRoleCreate] sends first. *)
Definition roleCreateSQL (c : Client) (a : RoleAttrs) : string :=
  let createOpts := roleCreateOpts c a in
  let roleName := strs a roleNameAttr in
  let createStr := strings.Join createOpts " " in
  let createStr :=
    if Nat.ltb 0 (length createOpts) then
      if featureSupported c featureCreateRoleWith
      then " WITH " ++ createStr
      else " " ++ createStr
    else createStr in
  "CREATE ROLE " ++ pq.QuoteIdentifier roleName ++ createStr.

(** *** grantRoles and revokeRoles *)

Definition grantSQL (grantingRole role : string) : string :=
  "GRANT " ++ pq.QuoteIdentifier grantingRole ++ " TO " ++ pq.QuoteIdentifier role.

Definition revokeSQL (grantedRole role : string) : string :=
  "REVOKE " ++ pq.QuoteIdentifier grantedRole ++ " FROM " ++ pq.QuoteIdentifier role.

(** The loop of [grantRoles] over [d.Get("roles")]. *)
Fixpoint grantEach (db : Server) (role : string) (granting : list string)
  : M RoleAttrs unit :=
  match granting with
  | [] => ret tt
  | grantingRole :: rest =>
      Exec db (grantSQL grantingRole role)
           (Wrapf ("could not grant role " ++ grantingRole ++ " to " ++ role ++ ": {{err}}")) ;;
      grantEach db role rest
  end.

Definition grantRoles (db : Server) : M RoleAttrs unit :=
  d <- getd ;;
  let role := strs (attrs d) roleNameAttr in
  grantEach db role (roles (attrs d)).

(** [txn.Query(query, role)] on [information_schema.applicable_roles]. *)
Definition QueryRoles (db : Server) (role : string)
  : M RoleAttrs (list (Res string)) :=
  fun s =>
    if done (tx s) then (Err (Wrapf ("could not get roles list for role " ++ role ++ ": {{err}}") ErrTxDone), s)
    else
      match applicable_roles db (sent (tx s)) role with
      | Err e => (Err (Wrapf ("could not get roles list for role " ++ role ++ ": {{err}}") e), s)
      | Ok rows => (Ok rows, s)
      end.

(** The [rows.Next()] loop: the names scanned, or the first scan error. *)
Fixpoint scanRoles (role : string) (rows : list (Res string)) : Res (list string) :=
  match rows with
  | [] => Ok []
  | Err e :: _ => Err (Wrapf ("could not scan role name for role " ++ role ++ ": {{err}}") e)
  | Ok grantedRole :: rest =>
      match scanRoles role rest with
      | Ok grantedRoles => Ok (grantedRole :: grantedRoles)
      | Err e => Err e
      end
  end.

(** The second loop of [revokeRoles], over the names read. *)
Fixpoint revokeEach (db : Server) (role : string) (grantedRoles : list string)
  : M RoleAttrs unit :=
  match grantedRoles with
  | [] => ret tt
  | grantedRole :: rest =>
      Exec db (revokeSQL grantedRole role)
           (Wrapf ("could not revoke role " ++ grantedRole ++ " from " ++ role ++ ": {{err}}")) ;;
      revokeEach db role rest
  end.

Definition revokeRoles (db : Server) : M RoleAttrs unit :=
  d <- getd ;;
  let role := strs (attrs d) roleNameAttr in
  rows <- QueryRoles db role ;;
  match scanRoles role rows with
  | Err e => fail e
  | Ok grantedRoles => revokeEach db role grantedRoles
  end.

(** *** resourcePostgreSQLRoleReadImpl *)

Definition resourcePostgreSQLRoleReadImpl (c : Client) (db : Server)
  : M RoleAttrs unit :=
  d <- getd ;;
  let roleID := Id d in
  match role_row db roleID with
  | Err e =>
      if isErrNoRows e then SetId ""
      else fail (Wrapf "Error reading ROLE: {{err}}" e)
  | Ok row =>
      Set_ (setString roleNameAttr (rolname row)) ;;
      Set_ (setInt roleConnLimitAttr (rolconnlimit row)) ;;
      Set_ (setBool roleCreateDBAttr (rolcreatedb row)) ;;
      Set_ (setBool roleCreateRoleAttr (rolcreaterole row)) ;;
      Set_ (setBool roleEncryptedPassAttr true) ;;
      Set_ (setBool roleInheritAttr (rolinherit row)) ;;
      Set_ (setBool roleLoginAttr (rolcanlogin row)) ;;
      Set_ (setBool roleReplicationAttr (rolreplication row)) ;;
      Set_ (fun a => setBool roleSkipDropRoleAttr (bools a roleSkipDropRoleAttr) a) ;;
      Set_ (fun a => setBool roleSkipReassignOwnedAttr (bools a roleSkipReassignOwnedAttr) a) ;;
      Set_ (setBool roleSuperuserAttr (rolsuper row)) ;;
      Set_ (setString roleValidUntilAttr (rolvaliduntil row)) ;;
      Set_ (setRoles (pgArrayToSet (rolroles row))) ;;
      (if featureSupported c featureRLS then
         match rls_row db roleID with
         | Err e => fail (Wrapf "Error reading RLS properties for ROLE: {{err}}" e)
         | Ok roleBypassRLS => Set_ (setBool roleBypassRLSAttr roleBypassRLS)
         end
       else ret tt) ;;
      SetId (rolname row) ;;
      if negb (rolsuper row) then ret tt
      else
        match shadow_row db roleID with
        | Err e =>
            if isErrNoRows e
            then fail (Wrapf ("PostgreSQL role (" ++ roleID ++ ") not found in shadow database: {{err}}") e)
            else fail (Wrapf "Error reading role: {{err}}" e)
        | Ok rolePassword => Set_ (setString rolePasswordAttr rolePassword)
        end
  end.

(** *** resourcePostgreSQLRoleCreate *)

Definition resourcePostgreSQLRoleCreate (c : Client) (db : Server)
  : M RoleAttrs unit :=
  Begin db ;;
  deferRollback (
    d <- getd ;;
    let roleName := strs (attrs d) roleNameAttr in
    let sql := roleCreateSQL c (attrs d) in
    Exec db sql (Wrapf ("error creating role " ++ roleName ++ ": {{err}}")) ;;
    grantRoles db ;;
    Commit db (Wrapf "could not commit transaction: {{err}}") ;;
    SetId roleName ;;
    resourcePostgreSQLRoleReadImpl c db).

(** *** resourcePostgreSQLRoleDelete *)

(** Go's [append(slice, x)]. *)
Definition append (slice : list string) (x : string) : list string :=
  app slice [x].

(** The [queries] slice built before anything is sent. *)
Definition roleDeleteQueries (c : Client) (a : RoleAttrs) : list string :=
  let roleName := strs a roleNameAttr in
  let queries : list string := [] in
  let queries :=
    if negb (bools a roleSkipReassignOwnedAttr) then
      let queries :=
        if featureSupported c featureReassignOwnedCurrentUser
        then append queries ("REASSIGN OWNED BY " ++ pq.QuoteIdentifier roleName ++ " TO CURRENT_USER")
        else append queries ("REASSIGN OWNED BY " ++ pq.QuoteIdentifier roleName ++ " TO "
                             ++ pq.QuoteIdentifier (config_Username c)) in
      append queries ("DROP OWNED BY " ++ pq.QuoteIdentifier roleName)
    else queries in
  if negb (bools a roleSkipDropRoleAttr)
  then append queries ("DROP ROLE " ++ pq.QuoteIdentifier roleName)
  else queries.

Fixpoint execEach (db : Server) (queries : list string) (wrap : error -> error)
  : M RoleAttrs unit :=
  match queries with
  | [] => ret tt
  | query :: rest => Exec db query wrap ;; execEach db rest wrap
  end.

Definition resourcePostgreSQLRoleDelete (c : Client) (db : Server)
  : M RoleAttrs unit :=
  Begin db ;;
  deferRollback (
    d <- getd ;;
    let queries := roleDeleteQueries c (attrs d) in
    (if Nat.ltb 0 (length queries) then
       execEach db queries (Wrapf "Error deleting role: {{err}}") ;;
       Commit db (Wrapf "Error committing schema: {{err}}")
     else ret tt) ;;
    SetId "").

(** *** resourcePostgreSQLRoleExists *)

Definition resourcePostgreSQLRoleExists (db : Server) (d : RoleData)
  : bool * option error :=
  probe (scan_result db "SELECT rolname FROM pg_catalog.pg_roles WHERE rolname=$1" (Id d))
        (fun err => err).

(** *** resourcePostgreSQLRoleUpdate and its setters *)

(** The rename statement of [setRoleName]. *)
Definition renameSQL (o n : string) : string :=
  "ALTER ROLE " ++ pq.QuoteIdentifier o ++ " RENAME TO " ++ pq.QuoteIdentifier n.

Definition setRoleName (db : Server) : M RoleAttrs unit :=
  d <- getd ;;
  if negb (HasChangeString d roleNameAttr) then ret tt
  else
    let o := strs (prior d) roleNameAttr in
    let n := strs (attrs d) roleNameAttr in
    if String.eqb n "" then fail (Errorf "Error setting role name to an empty string")
    else
      let sql := renameSQL o n in
      Exec db sql (Wrapf "Error updating role NAME: {{err}}") ;;
      SetId n.

(** The version in the error message is printed with [%q]: between double
    quotes (version strings hold no byte that [%q] would escape). *)
Definition setRoleBypassRLS (c : Client) (db : Server) : M RoleAttrs unit :=
  d <- getd ;;
  if negb (HasChangeBool d roleBypassRLSAttr) then ret tt
  else if negb (featureSupported c featureRLS) then
    fail (Errorf ("PostgreSQL client is talking with a server (" ++ str1 dquote
                  ++ version_String c ++ str1 dquote
                  ++ ") that does not support PostgreSQL Row-Level Security"))
  else
    let bypassRLS := bools (attrs d) roleBypassRLSAttr in
    let tok := if bypassRLS then "BYPASSRLS" else "NOBYPASSRLS" in
    let roleName := strs (attrs d) roleNameAttr in
    let sql := "ALTER ROLE " ++ pq.QuoteIdentifier roleName ++ " WITH " ++ tok in
    Exec db sql (Wrapf "Error updating role BYPASSRLS: {{err}}").

Definition setRoleConnLimit (db : Server) : M RoleAttrs unit :=
  d <- getd ;;
  if negb (HasChangeInt d roleConnLimitAttr) then ret tt
  else
    let connLimit := ints (attrs d) roleConnLimitAttr in
    let roleName := strs (attrs d) roleNameAttr in
    let sql := "ALTER ROLE " ++ pq.QuoteIdentifier roleName ++ " CONNECTION LIMIT " ++ itoa connLimit in
    Exec db sql (Wrapf "Error updating role CONNECTION LIMIT: {{err}}").

Definition setRoleCreateDB (db : Server) : M RoleAttrs unit :=
  d <- getd ;;
  if negb (HasChangeBool d roleCreateDBAttr) then ret tt
  else
    let createDB := bools (attrs d) roleCreateDBAttr in
    let tok := if createDB then "CREATEDB" else "NOCREATEDB" in
    let roleName := strs (attrs d) roleNameAttr in
    let sql := "ALTER ROLE " ++ pq.QuoteIdentifier roleName ++ " WITH " ++ tok in
    Exec db sql (Wrapf "Error updating role CREATEDB: {{err}}").

Definition setRoleCreateRole (db : Server) : M RoleAttrs unit :=
  d <- getd ;;
  if negb (HasChangeBool d roleCreateRoleAttr) then ret tt
  else
    let createRole := bools (attrs d) roleCreateRoleAttr in
    let tok := if createRole then "CREATEROLE" else "NOCREATEROLE" in
    let roleName := strs (attrs d) roleNameAttr in
    let sql := "ALTER ROLE " ++ pq.QuoteIdentifier roleName ++ " WITH " ++ tok in
    Exec db sql (Wrapf "Error updating role CREATEROLE: {{err}}").

Definition setRoleInherit (db : Server) : M RoleAttrs unit :=
  d <- getd ;;
  if negb (HasChangeBool d roleInheritAttr) then ret tt
  else
    let inherit := bools (attrs d) roleInheritAttr in
    let tok := if inherit then "INHERIT" else "NOINHERIT" in
    let roleName := strs (attrs d) roleNameAttr in
    let sql := "ALTER ROLE " ++ pq.QuoteIdentifier roleName ++ " WITH " ++ tok in
    Exec db sql (Wrapf "Error updating role INHERIT: {{err}}").

Definition setRoleLogin (db : Server) : M RoleAttrs unit :=
  d <- getd ;;
  if negb (HasChangeBool d roleLoginAttr) then ret tt
  else
    let login := bools (attrs d) roleLoginAttr in
    let tok := if login then "LOGIN" else "NOLOGIN" in
    let roleName := strs (attrs d) roleNameAttr in
    let sql := "ALTER ROLE " ++ pq.QuoteIdentifier roleName ++ " WITH " ++ tok in
    Exec db sql (Wrapf "Error updating role LOGIN: {{err}}").

Definition setRoleReplication (db : Server) : M RoleAttrs unit :=
  d <- getd ;;
  if negb (HasChangeBool d roleReplicationAttr) then ret tt
  else
    let replication := bools (attrs d) roleReplicationAttr in
    let tok := if replication then "REPLICATION" else "NOREPLICATION" in
    let roleName := strs (attrs d) roleNameAttr in
    let sql := "ALTER ROLE " ++ pq.QuoteIdentifier roleName ++ " WITH " ++ tok in
    Exec db sql (Wrapf "Error updating role REPLICATION: {{err}}").

Definition setRoleSuperuser (db : Server) : M RoleAttrs unit :=
  d <- getd ;;
  if negb (HasChangeBool d roleSuperuserAttr) then ret tt
  else
    let superuser := bools (attrs d) roleSuperuserAttr in
    let tok := if superuser then "SUPERUSER" else "NOSUPERUSER" in
    let roleName := strs (attrs d) roleNameAttr in
    let sql := "ALTER ROLE " ++ pq.QuoteIdentifier roleName ++ " WITH " ++ tok in
    Exec db sql (Wrapf "Error updating role SUPERUSER: {{err}}").

Definition setRoleValidUntil (db : Server) : M RoleAttrs unit :=
  d <- getd ;;
  if negb (HasChangeString d roleValidUntilAttr) then ret tt
  else
    let validUntil := strs (attrs d) roleValidUntilAttr in
    if String.eqb validUntil "" then ret tt
    else
      let validUntil :=
        if String.eqb (strings.ToLower validUntil) "infinity" then "infinity"
        else validUntil in
      let roleName := strs (attrs d) roleNameAttr in
      let sql := "ALTER ROLE " ++ pq.QuoteIdentifier roleName ++ " VALID UNTIL '"
                 ++ pqQuoteLiteral validUntil ++ "'" in
      Exec db sql (Wrapf "Error updating role VALID UNTIL: {{err}}").

(** The statements of an update, from the rename to the last grant. *)
Definition roleUpdateStatements (c : Client) (db : Server) : M RoleAttrs unit :=
  setRoleName db ;;
  setRoleBypassRLS c db ;;
  setRoleConnLimit db ;;
  setRoleCreateDB db ;;
  setRoleCreateRole db ;;
  setRoleInherit db ;;
  setRoleLogin db ;;
  setRoleReplication db ;;
  setRoleSuperuser db ;;
  setRoleValidUntil db ;;
  revokeRoles db ;;
  grantRoles db.

Definition resourcePostgreSQLRoleUpdate (c : Client) (db : Server)
  : M RoleAttrs unit :=
  Begin db ;;
  deferRollback (
    roleUpdateStatements c db ;;
    Commit db (Wrapf "could not commit transaction: {{err}}") ;;
    resourcePostgreSQLRoleReadImpl c db).

(* ===================================================================== *)
(** ** The extension resource *)
(* ===================================================================== *)

Inductive extAttr : Type :=
| extNameAttr
| extDatabaseAttr
| extSchemaAttr
| extVersionAttr.

Scheme Equality for extAttr.

(** The attribute bag of [postgresql_extension]: four strings. *)
Definition ExtAttrs : Type := extAttr -> string.

Definition ExtData : Type := ResourceData ExtAttrs.

Definition setExt (k : extAttr) (v : string) (a : ExtAttrs) : ExtAttrs :=
  fun k' => if extAttr_beq k k' then v else a k'.

Definition HasChangeExt (d : ExtData) (k : extAttr) : bool :=
  negb (String.eqb (prior d k) (attrs d k)).

Definition generateExtID (d : ExtData) : string :=
  attrs d extDatabaseAttr ++ "-" ++ attrs d extNameAttr.

(** [getExtNames]: the database and extension names, parsed from the id when
    the resource is being imported (its name is still empty). *)
Definition getExtNames (d : ExtData) : Res (string * string) :=
  let database := attrs d extDatabaseAttr in
  let extName := attrs d extNameAttr in
  if String.eqb extName "" then
    let parsed := strings.Split (Id d) hyphen in
    match parsed with
    | [ p0; p1 ] => Ok (p0, p1)
    | _ => Err (Errorf ("extension ID " ++ Id d
                        ++ " has not the expected format 'database-extension': "
                        ++ fmt_slice parsed))
    end
  else Ok (database, extName).

(** [startTransaction]: a client for another database when one is asked for,
    then [Begin]. *)
Definition startTransaction (c : Client) (db : Server) (database : string)
  : M ExtAttrs unit :=
  (if andb (negb (String.eqb database "")) (negb (String.eqb database (databaseName c)))
   then match newClient_result db database with
        | Some err => fail err
        | None => ret tt
        end
   else ret tt) ;;
  match begin_result db with
  | Some err => fail (Wrapf "could not start transaction: {{err}}" err)
  | None => fun s => (Ok tt, mkSt newTx (rd s))
  end.

Definition resourcePostgreSQLExtensionReadImpl (c : Client) (db : Server)
  : M ExtAttrs unit :=
  d <- getd ;;
  match getExtNames d with
  | Err err => fail err
  | Ok (database, extName) =>
      match dbConnection_result db database with
      | Some err => fail err
      | None =>
          match ext_row db database extName with
          | Err err =>
              if isErrNoRows err then SetId ""
              else fail (Wrapf "Error reading extension: {{err}}" err)
          | Ok (extSchema, extVersion) =>
              Set_ (setExt extNameAttr extName) ;;
              Set_ (setExt extDatabaseAttr database) ;;
              Set_ (setExt extSchemaAttr extSchema) ;;
              Set_ (setExt extVersionAttr extVersion) ;;
              d' <- getd ;;
              SetId (generateExtID d')
          end
      end
  end.

Definition resourcePostgreSQLExtensionExists (c : Client) (db : Server) (d : ExtData)
  : bool * option error :=
  match getExtNames d with
  | Err err => (false, Some err)
  | Ok (database, extName) =>
      let (exists_, err) := dbExists db database in
      if orb (match err with Some _ => true | None => false end) (negb exists_)
      then (false, err)
      else
        match dbConnection_result db database with
        | Some err => (false, Some err)
        | None =>
            probe (scan_result db "SELECT extname FROM pg_catalog.pg_extension WHERE extname = $1" extName)
                  (fun err => err)
        end
  end.

Definition setExtSchema (db : Server) : M ExtAttrs unit :=
  d <- getd ;;
  if negb (HasChangeExt d extSchemaAttr) then ret tt
  else
    let extName := attrs d extNameAttr in
    let schema := attrs d extSchemaAttr in
    if String.eqb schema "" then fail (Errorf "schema name cannot be set to an empty string")
    else
      let sql := "ALTER EXTENSION " ++ pq.QuoteIdentifier extName
                 ++ " SET SCHEMA " ++ pq.QuoteIdentifier schema in
      Exec db sql (Wrapf "Error updating extension SCHEMA: {{err}}").

Definition setExtVersion (db : Server) : M ExtAttrs unit :=
  d <- getd ;;
  if negb (HasChangeExt d extVersionAttr) then ret tt
  else
    let name := attrs d extNameAttr in
    let version := attrs d extVersionAttr in
    let b := "ALTER EXTENSION " in
    let b := b ++ pq.QuoteIdentifier name ++ " UPDATE" in
    let b := if negb (String.eqb version "") then b ++ " TO " ++ pq.QuoteIdentifier version else b in
    let sql := b in
    Exec db sql (Wrapf "Error updating extension version: {{err}}").

Definition resourcePostgreSQLExtensionUpdate (c : Client) (db : Server)
  : M ExtAttrs unit :=
  d <- getd ;;
  startTransaction c db (attrs d extDatabaseAttr) ;;
  deferRollback (
    setExtSchema db ;;
    setExtVersion db ;;
    resourcePostgreSQLExtensionReadImpl c db).

(* ===================================================================== *)
(** ** Reference definitions and sample data *)
(* ===================================================================== *)

(** A name between double quotes, nothing escaped. *)
Definition dq (s : string) : string := str1 dquote ++ s ++ str1 dquote.

(** Reading a quoted literal back: a doubled backslash or a doubled single
    quote stands for one. *)
Fixpoint unquoteLiteral (s : string) : string :=
  match s with
  | EmptyString => EmptyString
  | String c r =>
      match r with
      | String c' r' =>
          if andb (Ascii.eqb c c') (orb (Ascii.eqb c squote) (Ascii.eqb c backslash))
          then String c (unquoteLiteral r')
          else String c (unquoteLiteral r)
      | EmptyString => String c EmptyString
      end
  end.

(** The membership diff as the specification words it: revoke what is
    current and not desired, grant what is desired and not current. *)
Definition spec_toRevoke (current desired : list string) : list string :=
  filter (fun r => negb (sliceContainsStr desired r)) current.

Definition spec_toGrant (current desired : list string) : list string :=
  filter (fun r => negb (sliceContainsStr current r)) desired.

Definition spec_membershipStatements (role : string) (current desired : list string)
  : list string :=
  (map (fun g => revokeSQL g role) (spec_toRevoke current desired)
   ++ map (fun g => grantSQL g role) (spec_toGrant current desired))%list.

(** A role with the schema's default values. *)
Definition defaultRole (name : string) : RoleAttrs :=
  mkRoleAttrs
    (fun k => match k with
              | roleEncryptedPassAttr | roleInheritAttr => true
              | _ => false
              end)
    (fun k => match k with
              | roleNameAttr => name
              | rolePasswordAttr => ""
              | roleValidUntilAttr => "infinity"
              end)
    (fun _ => (-1)%Z)
    [].

(** A client of a recent server: every feature is supported. *)
Definition pgClient : Client :=
  mkClient "postgres" "admin" "11.2.0" (fun _ => true).

Definition rowOf (a : RoleAttrs) : RoleRow :=
  mkRoleRow (strs a roleNameAttr) (bools a roleSuperuserAttr) (bools a roleInheritAttr)
            (bools a roleCreateRoleAttr) (bools a roleCreateDBAttr) (bools a roleLoginAttr)
            (bools a roleReplicationAttr) (ints a roleConnLimitAttr)
            (strs a roleValidUntilAttr) (roles a).

(** A server on which every call succeeds: the role is a member of
    [granted], and reads give back [a]. *)
Definition okServer (granted : list string) (a : RoleAttrs) : Server :=
  mkServer (fun _ => None) None (fun _ _ => None) (fun _ => None) (fun _ _ => None)
           (fun _ _ => Ok (map Ok granted))
           (fun _ => Ok (rowOf a)) (fun _ => Ok (bools a roleBypassRLSAttr)) (fun _ => Ok "")
           (fun _ => None) (fun _ _ => Ok ("public", "1.1")).

(** The resource data of an import: only the id is known. *)
Definition importData (id : string) : ExtData :=
  mkData id (fun _ => "") (fun _ => "").

Definition extAttrsOf (database name schema version : string) : ExtAttrs :=
  fun k => match k with
           | extNameAttr => name
           | extDatabaseAttr => database
           | extSchemaAttr => schema
           | extVersionAttr => version
           end.

(** Number of occurrences of a byte. *)
Fixpoint count_byte (s : string) (c : ascii) : nat :=
  match s with
  | EmptyString => 0
  | String c' r => (if Ascii.eqb c' c then 1 else 0) + count_byte r c
  end.

(** [pqQuoteLiteral] in one pass over the bytes. *)
Fixpoint escapeBytes (s : string) : string :=
  match s with
  | EmptyString => EmptyString
  | String c r =>
      if Ascii.eqb c backslash then String backslash (String backslash (escapeBytes r))
      else if Ascii.eqb c squote then String squote (String squote (escapeBytes r))
      else String c (escapeBytes r)
  end.

(** From a state satisfying [P], [m] ends in a state satisfying [Q], whether
    it returns a value or an error. *)
Definition triple {A R : Type} (P : St A -> Prop) (m : M A R) (Q : St A -> Prop) : Prop :=
  forall s, P s -> Q (snd (m s)).

(** A statement about the role named [n]: an ALTER ROLE of it, or a
    REVOKE from it, or a GRANT to it. *)
Inductive targetsRole (n : string) : string -> Prop :=
| targets_alter (rest : string) :
    targetsRole n ("ALTER ROLE " ++ pq.QuoteIdentifier n ++ rest)
| targets_revoke (g : string) : targetsRole n (revokeSQL g n)
| targets_grant (g : string) : targetsRole n (grantSQL g n).

(** The rename of [o] to [n] was sent first, and everything after it is
    about [n]. *)
Definition renamedFirst (o n : string) (s : St RoleAttrs) : Prop :=
  exists rest, sent (tx s) = renameSQL o n :: rest /\ Forall (targetsRole n) rest.

(** The same, while the resource data still holds the configured name. *)
Definition updating (o n : string) (s : St RoleAttrs) : Prop :=
  strs (attrs (rd s)) roleNameAttr = n /\ renamedFirst o n s.

(* ===================================================================== *)
(** ** The remaining resource functions *)
(* ===================================================================== *)

(** [resourcePostgreSQLRoleRead] and [resourcePostgreSQLExtensionRead]: the
    read under the shared side of the catalog lock. *)
Definition resourcePostgreSQLRoleRead (c : Client) (db : Server) : M RoleAttrs unit :=
  resourcePostgreSQLRoleReadImpl c db.

Definition resourcePostgreSQLExtensionRead (c : Client) (db : Server) : M ExtAttrs unit :=
  resourcePostgreSQLExtensionReadImpl c db.

(** [d.GetOk(key)] of an extension attribute. *)
Definition GetOkExt (d : ExtData) (k : extAttr) : string * bool :=
  (attrs d k, negb (String.eqb (attrs d k) "")).

(** The statement [resourcePostgreSQLExtensionCreate] writes into its
    buffer. *)
Definition extensionCreateSQL (d : ExtData) : string :=
  let extName := attrs d extNameAttr in
  let b := "CREATE EXTENSION " in
  let b := b ++ pq.QuoteIdentifier extName in
  let b :=
    let (v, ok) := GetOkExt d extSchemaAttr in
    if ok then b ++ " SCHEMA " ++ pq.QuoteIdentifier v else b in
  let b :=
    let (v, ok) := GetOkExt d extVersionAttr in
    if ok then b ++ " VERSION " ++ pq.QuoteIdentifier v else b in
  b.

(** [db.Exec(sql)] on the connection pool of a database, outside any
    transaction: the outcome, by database and statement. *)
Definition PoolExec : Type := string -> string -> option error.

Definition resourcePostgreSQLExtensionCreate (c : Client) (db : Server) (exec : PoolExec)
  : M ExtAttrs unit :=
  d <- getd ;;
  let sql := extensionCreateSQL d in
  match dbConnection_result db (attrs d extDatabaseAttr) with
  | Some err => fail err
  | None =>
      match exec (attrs d extDatabaseAttr) sql with
      | Some err => fail (Wrapf "Error creating extension: {{err}}" err)
      | None =>
          SetId (generateExtID d) ;;
          resourcePostgreSQLExtensionReadImpl c db
      end
  end.

Definition resourcePostgreSQLExtensionDelete (c : Client) (db : Server) (exec : PoolExec)
  : M ExtAttrs unit :=
  d <- getd ;;
  match getExtNames d with
  | Err err => fail err
  | Ok (database, extName) =>
      match dbConnection_result db database with
      | Some err => fail err
      | None =>
          let sql := "DROP EXTENSION " ++ pq.QuoteIdentifier extName in
          match exec database sql with
          | Some err => fail (Wrapf "Error deleting extension: {{err}}" err)
          | None => ret tt
          end
      end
  end.

(* ===================================================================== *)
(** ** Transactions that are all or nothing *)
(* ===================================================================== *)

(** The server accepted each of [stmts], sent one after the other after
    [before]. *)
Fixpoint acceptedFrom (db : Server) (before stmts : list string) : bool :=
  match stmts with
  | [] => true
  | sql :: rest =>
      match exec_result db before sql with
      | None => acceptedFrom db (before ++ [sql])%list rest
      | Some _ => false
      end
  end.

Definition accepted (db : Server) (stmts : list string) : bool :=
  acceptedFrom db [] stmts.

(** From a state satisfying [P], [m] ends in a state satisfying [Qok] when
    it returns a value and [Qerr] when it returns an error. *)
Definition outcome {A R : Type} (P : St A -> Prop) (m : M A R) (Qok Qerr : St A -> Prop)
  : Prop :=
  forall s, P s ->
    match m s with
    | (Ok _, s') => Qok s'
    | (Err _, s') => Qerr s'
    end.

(** The transaction is open, and everything sent over it was accepted. *)
Definition inProgress {A : Type} (db : Server) (s : St A) : Prop :=
  done (tx s) = false /\ commits (tx s) = 0 /\ rollbacks (tx s) = 0
  /\ accepted db (sent (tx s)) = true.

(** The transaction is open and nothing was committed. *)
Definition stillOpen {A : Type} (s : St A) : Prop :=
  done (tx s) = false /\ commits (tx s) = 0 /\ rollbacks (tx s) = 0.

(** The transaction was committed, once, and everything sent over it had
    been accepted. *)
Definition committedOnce {A : Type} (db : Server) (s : St A) : Prop :=
  done (tx s) = true /\ commits (tx s) = 1 /\ rollbacks (tx s) = 0
  /\ accepted db (sent (tx s)) = true.

(** A finished transaction: committed or rolled back, one or the other, and
    committed only if the server accepted every statement. *)
Definition allOrNothing (db : Server) (t : Tx) : Prop :=
  done t = true
  /\ commits t + rollbacks t = 1
  /\ (commits t = 1 -> accepted db (sent t) = true).

(** The same three states, with the statements sent so far and the
    resource data. *)
Definition openWith {A : Type} (db : Server) (d : ResourceData A) (l : list string)
           (s : St A) : Prop :=
  inProgress db s /\ sent (tx s) = l /\ rd s = d.

Definition failedWith {A : Type} (l : list string) (s : St A) : Prop :=
  stillOpen s /\ sent (tx s) = l.

Definition committedWith {A : Type} (db : Server) (l : list string) (s : St A) : Prop :=
  committedOnce db s /\ sent (tx s) = l.

(** The three kinds of statement of a role update. *)
Definition isAlterRole (stmt : string) : Prop :=
  exists rest, stmt = "ALTER ROLE " ++ rest.

Definition isRevoke (stmt : string) : Prop :=
  exists grantedRole role, stmt = revokeSQL grantedRole role.

Definition isGrant (stmt : string) : Prop :=
  exists grantingRole role, stmt = grantSQL grantingRole role.

(** ALTER ROLE statements only; then REVOKE statements after them; then
    GRANT statements after those. *)
Definition altersOnly (l : list string) : Prop :=
  Forall isAlterRole l.

Definition altersThenRevokes (l : list string) : Prop :=
  exists alters revokes,
    l = (alters ++ revokes)%list /\ Forall isAlterRole alters /\ Forall isRevoke revokes.

Definition altersRevokesGrants (l : list string) : Prop :=
  exists alters revokes grants,
    l = (alters ++ revokes ++ grants)%list
    /\ Forall isAlterRole alters /\ Forall isRevoke revokes /\ Forall isGrant grants.

(** The update goes on under the id [n], its transaction open and not
    committed. *)
Definition renamedTo (n : string) (s : St RoleAttrs) : Prop :=
  Id (rd s) = n /\ commits (tx s) = 0 /\ done (tx s) = false.

(** The update stopped under the id [n] without a commit, or it reached its
    commit. *)
Definition renamedOrCommitted (n : string) (s : St RoleAttrs) : Prop :=
  (Id (rd s) = n /\ commits (tx s) = 0) \/ commits (tx s) = 1.

(** The attributes of a role the update compares: nothing changed. *)
Definition unchangedAttributes (d : RoleData) : Prop :=
  (forall k, bools (prior d) k = bools (attrs d) k)
  /\ (forall k, strs (prior d) k = strs (attrs d) k)
  /\ (forall k, ints (prior d) k = ints (attrs d) k).

(** A server that accepts every statement but one, which it refuses. *)
Definition refusing (bad : string) (granted : list string) (a : RoleAttrs) : Server :=
  mkServer (fun _ => None) None
           (fun _ sql => if String.eqb sql bad then Some (DriverError "permission denied") else None)
           (fun _ => None) (fun _ _ => None)
           (fun _ _ => Ok (map Ok granted))
           (fun _ => Ok (rowOf a)) (fun _ => Ok (bools a roleBypassRLSAttr)) (fun _ => Ok "")
           (fun _ => None) (fun _ _ => Ok ("public", "1.1")).

(** A server that cannot be reached: [Begin] fails, and so would every
    other call. *)
Definition unreachable : Server :=
  let e := DriverError "connection refused" in
  mkServer (fun _ => Some e) (Some e) (fun _ _ => Some e) (fun _ => Some e)
           (fun _ _ => Some e) (fun _ _ => Err e)
           (fun _ => Err e) (fun _ => Err e) (fun _ => Err e)
           (fun _ => Some e) (fun _ _ => Err e).

(* ===================================================================== *)
(** ** The statements of a role update, one after the other *)
(* ===================================================================== *)

(** What the setters that follow the rename send when nothing stops them:
    one ALTER ROLE for each attribute that changed. *)
Definition alterWith (d : RoleData) (k : boolAttr) (enable disable : string) : list string :=
  if HasChangeBool d k
  then [ "ALTER ROLE " ++ pq.QuoteIdentifier (strs (attrs d) roleNameAttr) ++ " WITH "
         ++ (if bools (attrs d) k then enable else disable) ]
  else [].

Definition alterConnLimit (d : RoleData) : list string :=
  if HasChangeInt d roleConnLimitAttr
  then [ "ALTER ROLE " ++ pq.QuoteIdentifier (strs (attrs d) roleNameAttr)
         ++ " CONNECTION LIMIT " ++ itoa (ints (attrs d) roleConnLimitAttr) ]
  else [].

Definition alterValidUntil (d : RoleData) : list string :=
  if andb (HasChangeString d roleValidUntilAttr)
          (negb (String.eqb (strs (attrs d) roleValidUntilAttr) ""))
  then [ "ALTER ROLE " ++ pq.QuoteIdentifier (strs (attrs d) roleNameAttr)
         ++ " VALID UNTIL '"
         ++ pqQuoteLiteral
              (if String.eqb (strings.ToLower (strs (attrs d) roleValidUntilAttr)) "infinity"
               then "infinity" else strs (attrs d) roleValidUntilAttr)
         ++ "'" ]
  else [].

Definition updateAlters (d : RoleData) : list string :=
  (alterWith d roleBypassRLSAttr "BYPASSRLS" "NOBYPASSRLS"
   ++ alterConnLimit d
   ++ alterWith d roleCreateDBAttr "CREATEDB" "NOCREATEDB"
   ++ alterWith d roleCreateRoleAttr "CREATEROLE" "NOCREATEROLE"
   ++ alterWith d roleInheritAttr "INHERIT" "NOINHERIT"
   ++ alterWith d roleLoginAttr "LOGIN" "NOLOGIN"
   ++ alterWith d roleReplicationAttr "REPLICATION" "NOREPLICATION"
   ++ alterWith d roleSuperuserAttr "SUPERUSER" "NOSUPERUSER"
   ++ alterValidUntil d)%list.

(** The roles [revokeRoles] reads from the catalog after the statements
    [before]; none when the query or a scan fails. *)
Definition membersRead (db : Server) (before : list string) (role : string) : list string :=
  match applicable_roles db before role with
  | Ok rows =>
      match scanRoles role rows with
      | Ok grantedRoles => grantedRoles
      | Err _ => []
      end
  | Err _ => []
  end.

(** The update has sent exactly [l] over its open transaction, and holds the
    resource data [d]. *)
Definition reached (d : RoleData) (l : list string) (s : St RoleAttrs) : Prop :=
  done (tx s) = false /\ sent (tx s) = l /\ rd s = d.

(** The update stopped for the reason [why], having sent the first
    statements of [l]. *)
Definition stoppedIn (why : Prop) (l : list string) (s : St RoleAttrs) : Prop :=
  (exists rest, l = (sent (tx s) ++ rest)%list) /\ why.

(** What can stop the statements of an update after the rename to a name
    that is not empty: a statement the server refuses, a change of
    [bypass_row_level_security] on a server without row-level security, or a
    read of the current memberships that fails. *)
Definition updateStopped (c : Client) (db : Server) (d : RoleData) (before : list string)
  : Prop :=
  (exists prev sql e, exec_result db prev sql = Some e)
  \/ (HasChangeBool d roleBypassRLSAttr = true /\ featureSupported c featureRLS = false)
  \/ ~ (exists current,
          applicable_roles db before (strs (attrs d) roleNameAttr) = Ok (map Ok current)).

(** The statement that was refused is the last one sent. *)
Definition stoppedAtRefusal {A : Type} (db : Server) (s : St A) : Prop :=
  stillOpen s
  /\ accepted db (removelast (sent (tx s))) = true
  /\ accepted db (sent (tx s)) = false.

(* ===================================================================== *)
(** ** Privilege validation *)
(* ===================================================================== *)

Lemma sliceContainsStr_In (haystack : list string) (needle : string) :
  sliceContainsStr haystack needle = true <-> In needle haystack.
Proof.
  induction haystack as [|s rest IH]; simpl.
  - split; [discriminate | tauto].
  - destruct (String.eqb s needle) eqn:E.
    + apply String.eqb_eq in E. tauto.
    + apply String.eqb_neq in E. rewrite IH. split; [tauto | intros [H|H]; [contradiction | exact H]].
Qed.

Lemma checkPrivileges_nil_iff (objectType : string) (allowed privileges : list string) :
  checkPrivileges objectType allowed privileges = None
  <-> Forall (fun p => In p allowed) privileges.
Proof.
  induction privileges as [|p rest IH]; simpl.
  - split; [constructor | reflexivity].
  - destruct (sliceContainsStr allowed p) eqn:E; simpl.
    + apply sliceContainsStr_In in E. rewrite IH. split.
      * intro H. constructor; assumption.
      * intro H. inversion H; assumption.
    + split; [discriminate|].
      intro H. inversion H as [|? ? Hp _]; subst.
      apply sliceContainsStr_In in Hp. congruence.
Qed.

Lemma checkPrivileges_error (objectType : string) (allowed privileges : list string) :
  checkPrivileges objectType allowed privileges <> None ->
  exists p, In p privileges /\ ~ In p allowed /\
    checkPrivileges objectType allowed privileges
    = Some (Errorf (p ++ " is not an allowed privilege for object type " ++ objectType)).
Proof.
  induction privileges as [|p rest IH]; simpl.
  - congruence.
  - destruct (sliceContainsStr allowed p) eqn:E; simpl.
    + intro H. destruct (IH H) as (q & Hq & Hn & Heq).
      exists q. auto.
    + intros _. exists p. repeat split; auto.
      intro Hin. apply sliceContainsStr_In in Hin. congruence.
Qed.

Lemma allowedPrivileges_lookup (objectType : string) :
  (objectType = "table" /\
   map_lookup allowedPrivileges objectType
   = Some ["ALL"; "SELECT"; "INSERT"; "UPDATE"; "DELETE"; "TRUNCATE"; "REFERENCES"; "TRIGGER"])
  \/ (objectType = "sequence" /\
      map_lookup allowedPrivileges objectType = Some ["ALL"; "USAGE"; "SELECT"; "UPDATE"])
  \/ (objectType <> "table" /\ objectType <> "sequence" /\
      map_lookup allowedPrivileges objectType = None).
Proof.
  unfold allowedPrivileges, map_lookup.
  destruct (String.eqb "table" objectType) eqn:Et.
  - apply String.eqb_eq in Et. left. split; [congruence | reflexivity].
  - destruct (String.eqb "sequence" objectType) eqn:Es.
    + apply String.eqb_eq in Es. right; left. split; [congruence | reflexivity].
    + apply String.eqb_neq in Et, Es. right; right. repeat split; congruence.
Qed.

Example validatePrivileges_table_ok :
  validatePrivileges "table" ["SELECT"; "TRUNCATE"] = None.
Proof. reflexivity. Qed.

Example validatePrivileges_sequence_truncate :
  validatePrivileges "sequence" ["TRUNCATE"]
  = Some (Errorf "TRUNCATE is not an allowed privilege for object type sequence").
Proof. reflexivity. Qed.

Example validatePrivileges_view :
  validatePrivileges "view" ["SELECT"] = Some (Errorf "unknown object type view").
Proof. reflexivity. Qed.

(** C6. [validatePrivileges] returns [nil] exactly when the object type is
    "table" or "sequence" and every privilege is in that type's allow-list;
    any other object type gives the "unknown object type" error, and a
    privilege outside the list gives the "is not an allowed privilege" error
    naming it. The function is pure: no statement is built or sent. *)
Theorem validatePrivileges_allow_list (objectType : string) (privileges : list string) :
  (validatePrivileges objectType privileges = None <->
     (objectType = "table" /\
      Forall (fun p => In p ["ALL"; "SELECT"; "INSERT"; "UPDATE"; "DELETE";
                             "TRUNCATE"; "REFERENCES"; "TRIGGER"]) privileges)
     \/ (objectType = "sequence" /\
         Forall (fun p => In p ["ALL"; "USAGE"; "SELECT"; "UPDATE"]) privileges))
  /\ ((objectType <> "table" /\ objectType <> "sequence") ->
      validatePrivileges objectType privileges
      = Some (Errorf ("unknown object type " ++ objectType)))
  /\ ((objectType = "table" \/ objectType = "sequence") ->
      validatePrivileges objectType privileges <> None ->
      exists p, In p privileges /\
        validatePrivileges objectType privileges
        = Some (Errorf (p ++ " is not an allowed privilege for object type " ++ objectType))).
Proof.
  unfold validatePrivileges.
  destruct (allowedPrivileges_lookup objectType)
    as [(Ht & L) | [(Hs & L) | (Hnt & Hns & L)]]; rewrite L.
  - repeat split.
    + intro H. left. split; [exact Ht|]. apply checkPrivileges_nil_iff in H. exact H.
    + intros [(_ & H) | (Hs & _)].
      * apply checkPrivileges_nil_iff. exact H.
      * subst. discriminate.
    + intros (Hn & _). contradiction.
    + intros _ H. destruct (checkPrivileges_error _ _ _ H) as (p & Hp & _ & Heq).
      exists p. auto.
  - repeat split.
    + intro H. right. split; [exact Hs|]. apply checkPrivileges_nil_iff in H. exact H.
    + intros [(Ht & _) | (_ & H)].
      * subst. discriminate.
      * apply checkPrivileges_nil_iff. exact H.
    + intros (_ & Hn). contradiction.
    + intros _ H. destruct (checkPrivileges_error _ _ _ H) as (p & Hp & _ & Heq).
      exists p. auto.
  - repeat split.
    + discriminate.
    + intros [(Ht & _) | (Hs & _)]; contradiction.
    + intros [Ht | Hs]; contradiction.
Qed.

(* ===================================================================== *)
(** ** The extension identity *)
(* ===================================================================== *)

Lemma Split_length (s : string) (sep : ascii) :
  length (strings.Split s sep) = S (count_byte s sep).
Proof.
  induction s as [|c r IH]; simpl; [reflexivity|].
  destruct (Ascii.eqb c sep); simpl.
  - now rewrite IH.
  - destruct (strings.Split r sep) eqn:E; simpl in *; [discriminate | exact IH].
Qed.

Lemma Split_no_sep (s : string) (sep : ascii) :
  strings.ContainsRune s sep = false -> strings.Split s sep = [s].
Proof.
  induction s as [|c r IH]; simpl; [reflexivity|].
  intro H. apply orb_false_iff in H. destruct H as [Hc Hr].
  rewrite Hc, (IH Hr). reflexivity.
Qed.

Lemma Split_at_sep (s r : string) (sep : ascii) :
  strings.ContainsRune s sep = false ->
  strings.Split (s ++ String sep r) sep = s :: strings.Split r sep.
Proof.
  induction s as [|c s' IH]; simpl.
  - intros _. now rewrite Ascii.eqb_refl.
  - intro H. apply orb_false_iff in H. destruct H as [Hc Hs].
    rewrite Hc, (IH Hs). reflexivity.
Qed.

Lemma count_byte_app (s r : string) (c : ascii) :
  count_byte (s ++ r) c = count_byte s c + count_byte r c.
Proof.
  induction s as [|c' s' IH]; simpl; [reflexivity|].
  rewrite IH. lia.
Qed.

Lemma Contains_count (s : string) (c : ascii) :
  strings.ContainsRune s c = true -> 1 <= count_byte s c.
Proof.
  induction s as [|c' s' IH]; simpl; [discriminate|].
  destruct (Ascii.eqb c' c); simpl; [lia|]. exact IH.
Qed.

(** The id [generateExtID] makes for a database and an extension name. *)
Lemma generateExtID_eq (database name schema version id : string) (old : ExtAttrs) :
  generateExtID (mkData id old (extAttrsOf database name schema version))
  = database ++ String hyphen name.
Proof. reflexivity. Qed.

Example getExtNames_import_ok :
  getExtNames (importData "mydb-pg_trgm") = Ok ("mydb", "pg_trgm").
Proof. reflexivity. Qed.

Example getExtNames_import_hyphen :
  getExtNames (importData
                 (generateExtID (mkData "" (fun _ => "") (extAttrsOf "my-db" "pg_trgm" "public" ""))))
  = Err (Errorf "extension ID my-db-pg_trgm has not the expected format 'database-extension': [my db pg_trgm]").
Proof. reflexivity. Qed.

(** C10. The id written by [generateExtID] is read back by [getExtNames] at
    import exactly when neither name holds a hyphen: without a hyphen the
    pair (database, extension) is recovered; with a hyphen in either name the
    id splits into more than two pieces and is refused with the format
    error. *)
Theorem extID_roundtrip_hyphen_free :
  (forall database name schema version id old,
      strings.ContainsRune database hyphen = false ->
      strings.ContainsRune name hyphen = false ->
      getExtNames
        (importData (generateExtID (mkData id old (extAttrsOf database name schema version))))
      = Ok (database, name))
  /\ (forall database name schema version id old,
         orb (strings.ContainsRune database hyphen) (strings.ContainsRune name hyphen) = true ->
         let generated := generateExtID (mkData id old (extAttrsOf database name schema version)) in
         getExtNames (importData generated)
         = Err (Errorf ("extension ID " ++ generated
                        ++ " has not the expected format 'database-extension': "
                        ++ fmt_slice (strings.Split generated hyphen))))
  /\ (exists database name,
         strings.ContainsRune database hyphen = true /\
         exists e,
           getExtNames
             (importData (generateExtID (mkData "" (fun _ => "") (extAttrsOf database name "public" ""))))
           = Err e).
Proof.
  split; [|split].
  - intros database name schema version id old Hd Hn.
    rewrite generateExtID_eq. unfold getExtNames, importData. simpl.
    rewrite (Split_at_sep _ _ _ Hd), (Split_no_sep _ _ Hn). reflexivity.
  - intros database name schema version id old H generated.
    assert (Hlen : 3 <= length (strings.Split generated hyphen)).
    { rewrite Split_length. unfold generated. rewrite generateExtID_eq.
      rewrite count_byte_app.
      change (count_byte (String hyphen name) hyphen) with (S (count_byte name hyphen)).
      apply orb_true_iff in H. destruct H as [H|H]; apply Contains_count in H; lia. }
    unfold getExtNames, importData. simpl.
    destruct (strings.Split generated hyphen) as [|p0 [|p1 [|p2 rest]]]; simpl in Hlen; try lia.
    reflexivity.
  - exists "my-db", "pg_trgm". split; [reflexivity|].
    eexists. reflexivity.
Qed.

(** The round trip at a concrete pair of names. *)
Lemma extID_roundtrip_witness :
  getExtNames
    (importData (generateExtID (mkData "" (fun _ => "") (extAttrsOf "mydb" "pg_trgm" "public" "1.1"))))
  = Ok ("mydb", "pg_trgm").
Proof.
  apply (proj1 extID_roundtrip_hyphen_free "mydb" "pg_trgm" "public" "1.1" "" (fun _ => ""));
    reflexivity.
Defined.

(* ===================================================================== *)
(** ** Quoting of literals *)
(* ===================================================================== *)

Lemma pqQuoteLiteral_escapeBytes (s : string) : pqQuoteLiteral s = escapeBytes s.
Proof.
  unfold pqQuoteLiteral.
  induction s as [|c r IH]; simpl; [reflexivity|].
  destruct (Ascii.eqb c backslash) eqn:Eb.
  - simpl. now rewrite IH.
  - simpl. destruct (Ascii.eqb c squote) eqn:Es.
    + simpl. now rewrite IH.
    + now rewrite IH.
Qed.

Lemma unquoteLiteral_escapeBytes (s : string) : unquoteLiteral (escapeBytes s) = s.
Proof.
  induction s as [|c r IH]; [reflexivity|].
  cbn [escapeBytes].
  destruct (Ascii.eqb c backslash) eqn:Eb.
  - apply Ascii.eqb_eq in Eb. subst c.
    cbn [unquoteLiteral]. rewrite Ascii.eqb_refl. cbn. now rewrite IH.
  - destruct (Ascii.eqb c squote) eqn:Es.
    + apply Ascii.eqb_eq in Es. subst c.
      cbn [unquoteLiteral]. rewrite Ascii.eqb_refl. cbn. now rewrite IH.
    + cbn [unquoteLiteral]. rewrite Es, Eb, IH.
      destruct (escapeBytes r) eqn:E.
      * destruct r as [|c' r']; [reflexivity|].
        cbn [escapeBytes] in E.
        destruct (Ascii.eqb c' backslash); [discriminate|].
        destruct (Ascii.eqb c' squote); discriminate.
      * cbn [orb]. now rewrite andb_false_r.
Qed.

(** X1. Every single quote and every backslash is doubled by [pqQuoteLiteral],
    the other bytes are kept, and reading the doubled bytes back gives the
    value that was quoted. *)
Theorem pqQuoteLiteral_roundtrip (s : string) :
  unquoteLiteral (pqQuoteLiteral s) = s
  /\ count_byte (pqQuoteLiteral s) squote = 2 * count_byte s squote
  /\ count_byte (pqQuoteLiteral s) backslash = 2 * count_byte s backslash.
Proof.
  rewrite pqQuoteLiteral_escapeBytes. split; [apply unquoteLiteral_escapeBytes|].
  induction s as [|c r [IHq IHb]]; [split; reflexivity|].
  cbn [escapeBytes].
  destruct (Ascii.eqb c backslash) eqn:Eb.
  - apply Ascii.eqb_eq in Eb. subst c.
    cbn [count_byte]. rewrite IHq, IHb, Ascii.eqb_refl.
    change (Ascii.eqb backslash squote) with false. split; lia.
  - destruct (Ascii.eqb c squote) eqn:Es.
    + apply Ascii.eqb_eq in Es. subst c.
      cbn [count_byte]. rewrite IHq, IHb, Ascii.eqb_refl.
      change (Ascii.eqb squote backslash) with false. split; lia.
    + cbn [count_byte]. rewrite IHq, IHb, Eb, Es. split; lia.
Qed.

Example pqQuoteLiteral_quote_and_backslash :
  pqQuoteLiteral "a'b\c" = "a''b\\c" /\ unquoteLiteral "a''b\\c" = "a'b\c".
Proof. split; reflexivity. Qed.

(* ===================================================================== *)
(** ** The CREATE ROLE statement *)
(* ===================================================================== *)

(** X3. The CREATE ROLE statement does not depend on [create_database]. *)
Lemma roleCreateSQL_ignores_create_database (c : Client) (a : RoleAttrs) (b : bool) :
  roleCreateSQL c (setBool roleCreateDBAttr b a) = roleCreateSQL c a.
Proof.
  unfold roleCreateSQL, roleCreateOpts, boolOpts.
  destruct (featureSupported c featureRLS); reflexivity.
Qed.

(** A [valid_until] other than "infinity" goes through
    [pq.QuoteIdentifier] in the CREATE ROLE statement. *)
(** The comparisons of the two loops go through Go's case mapping, which
    knows the letters outside ASCII: [valid_until] spelled with U+0130 for
    its first letter is still [infinity]. *)
Example ToLower_ToUpper_cases :
  strings.ToLower "Infinity" = "infinity"
  /\ strings.ToLower (String "196" (String "176" "NFINITY")) = "infinity"
  /\ strings.ToLower (String "226" (String "132" (String "170" "B"))) = "kb"
  /\ strings.ToUpper "Null" = "NULL"
  /\ strings.ToUpper (String "196" (String "177" "d")) = "ID"
  /\ createStringOpt
       (setString roleValidUntilAttr (String "196" (String "176" "NFINITY")) (defaultRole "r"))
       (roleValidUntilAttr, "VALID UNTIL")
     = [ "VALID UNTIL 'infinity'" ].
Proof. repeat split; vm_compute; reflexivity. Qed.

Lemma createStringOpt_valid_until (a : RoleAttrs) :
  strs a roleValidUntilAttr <> "" ->
  strings.ToLower (strs a roleValidUntilAttr) <> "infinity" ->
  createStringOpt a (roleValidUntilAttr, "VALID UNTIL")
  = [ "VALID UNTIL " ++ pq.QuoteIdentifier (strs a roleValidUntilAttr) ].
Proof.
  intros Hne Hinf. unfold createStringOpt, GetOk.
  apply String.eqb_neq in Hne, Hinf. rewrite Hne, Hinf. reflexivity.
Qed.

(** A password other than NULL goes through [pqQuoteLiteral]. *)
Lemma createStringOpt_password (a : RoleAttrs) :
  strs a rolePasswordAttr <> "" ->
  strings.ToUpper (strs a rolePasswordAttr) <> "NULL" ->
  createStringOpt a (rolePasswordAttr, "PASSWORD")
  = [ if bools a roleEncryptedPassAttr then "ENCRYPTED" else "UNENCRYPTED";
      "PASSWORD '" ++ pqQuoteLiteral (strs a rolePasswordAttr) ++ "'" ].
Proof.
  intros Hne Hnull. unfold createStringOpt, GetOk.
  apply String.eqb_neq in Hne, Hnull. rewrite Hne, Hnull.
  destruct (bools a roleEncryptedPassAttr); reflexivity.
Qed.

(** C3. A role with [superuser = true] and [create_database = false]: the
    CREATE ROLE statement carries CREATEDB and no SUPERUSER keyword; with
    [superuser = false] and [create_database = true] it carries NOCREATEDB.
    The update path ([setRoleSuperuser]) does send SUPERUSER. *)
Theorem roleCreate_superuser_renders_CREATEDB :
  let su := setBool roleSuperuserAttr true (defaultRole "r") in
  let cdb := setBool roleCreateDBAttr true (defaultRole "r") in
  sent (tx (snd (run (resourcePostgreSQLRoleCreate pgClient (okServer [] su)) (mkData "" su su))))
  = [ "CREATE ROLE " ++ dq "r"
      ++ " WITH VALID UNTIL 'infinity' CONNECTION LIMIT -1 CREATEDB NOCREATEROLE INHERIT NOLOGIN NOREPLICATION NOBYPASSRLS" ]
  /\ sent (tx (snd (run (resourcePostgreSQLRoleCreate pgClient (okServer [] cdb)) (mkData "" cdb cdb))))
     = [ "CREATE ROLE " ++ dq "r"
         ++ " WITH VALID UNTIL 'infinity' CONNECTION LIMIT -1 NOCREATEDB NOCREATEROLE INHERIT NOLOGIN NOREPLICATION NOBYPASSRLS" ]
  /\ sent (tx (snd (run (resourcePostgreSQLRoleUpdate pgClient (okServer [] su))
                        (mkData "r" (defaultRole "r") su))))
     = [ "ALTER ROLE " ++ dq "r" ++ " WITH SUPERUSER" ].
Proof. repeat split; vm_compute; reflexivity. Qed.

(** C4. A role created with the password [a'b\c] and
    [valid_until = 2030-01-01]: the password is rendered as a literal with
    the quote and the backslash doubled, but the timestamp is rendered
    between double quotes, as an identifier. The update path
    ([setRoleValidUntil]) renders the same timestamp as a literal. *)
Theorem roleCreate_valid_until_quoted_as_identifier :
  let a := setString roleValidUntilAttr "2030-01-01"
             (setString rolePasswordAttr "a'b\c" (defaultRole "r")) in
  sent (tx (snd (run (resourcePostgreSQLRoleCreate pgClient (okServer [] a)) (mkData "" a a))))
  = [ "CREATE ROLE " ++ dq "r"
      ++ " WITH ENCRYPTED PASSWORD 'a''b\\c' VALID UNTIL " ++ dq "2030-01-01"
      ++ " CONNECTION LIMIT -1 NOCREATEDB NOCREATEROLE INHERIT NOLOGIN NOREPLICATION NOBYPASSRLS" ]
  /\ sent (tx (snd (run (resourcePostgreSQLRoleUpdate pgClient (okServer [] a))
                        (mkData "r" (setString rolePasswordAttr "a'b\c" (defaultRole "r")) a))))
     = [ "ALTER ROLE " ++ dq "r" ++ " VALID UNTIL '2030-01-01'" ].
Proof. repeat split; vm_compute; reflexivity. Qed.

(* ===================================================================== *)
(** ** Existence probes *)
(* ===================================================================== *)

(** What a probe answers, by the outcome of its catalog query. *)
Lemma probe_cases (scan : option error) (wrap : error -> error) :
  (scan = Some ErrNoRows -> probe scan wrap = (false, None))
  /\ (forall e, scan = Some e -> e <> ErrNoRows -> probe scan wrap = (false, Some (wrap e)))
  /\ (scan = None -> probe scan wrap = (true, None))
  /\ (probe scan wrap = (false, None) -> scan = Some ErrNoRows)
  /\ (forall e', probe scan wrap = (false, Some e') ->
      exists e, scan = Some e /\ e <> ErrNoRows /\ e' = wrap e).
Proof.
  unfold probe. repeat split.
  - intros ->. reflexivity.
  - intros e -> Hne. destruct e; try reflexivity. contradiction.
  - intros ->. reflexivity.
  - destruct scan as [e|]; [|discriminate].
    destruct e; simpl; try discriminate. reflexivity.
  - intros e' H. destruct scan as [e|]; [|discriminate].
    destruct e; simpl in H; try discriminate;
      injection H as <-; eexists; repeat split; discriminate.
Qed.

(** A probe that reports an error reports it with [false], and for a query
    that failed with something else than no rows. *)
Lemma probe_failed (scan : option error) (wrap : error -> error) (b : bool) (e' : error) :
  probe scan wrap = (b, Some e') ->
  b = false /\ exists e, scan = Some e /\ e <> ErrNoRows /\ e' = wrap e.
Proof.
  unfold probe. intros H. destruct scan as [e|]; [|discriminate].
  destruct e; simpl in H; try discriminate;
    injection H as <- <-; (split; [reflexivity|]);
    eexists; repeat split; discriminate.
Qed.

Example dbExists_no_rows :
  dbExists (mkServer (fun _ => None) None (fun _ _ => None) (fun _ => None)
                     (fun _ _ => Some ErrNoRows) (fun _ _ => Ok []) (fun _ => Err ErrNoRows)
                     (fun _ => Err ErrNoRows) (fun _ => Err ErrNoRows) (fun _ => None)
                     (fun _ _ => Err ErrNoRows))
           "nodb"
  = (false, None).
Proof. reflexivity. Qed.

Example dbExists_query_error :
  dbExists (mkServer (fun _ => None) None (fun _ _ => None) (fun _ => None)
                     (fun _ _ => Some (DriverError "connection reset")) (fun _ _ => Ok [])
                     (fun _ => Err ErrNoRows) (fun _ => Err ErrNoRows) (fun _ => Err ErrNoRows)
                     (fun _ => None) (fun _ _ => Err ErrNoRows))
           "mydb"
  = (false, Some (Wrapf "could not check if database exists: {{err}}"
                        (DriverError "connection reset"))).
Proof. reflexivity. Qed.

(** C9. Each existence probe (database, role, schema, the role resource and
    the extension resource) answers [(false, nil)] when its catalog query
    returns no rows, [(false, err)] with the query's error inside when the
    query fails otherwise, and [(true, nil)] when the query finds a row; it
    answers [(false, nil)] only for no rows and an error only for a failure.
    The extension probe goes through four steps, and each of them is pinned:
    an id that cannot be parsed, a failed query on [pg_database] and a
    failed connection to the database each give [(false, err)], a database
    that is not there gives [(false, nil)], and only then the query on
    [pg_extension] decides. *)
Theorem exists_probes_no_rows_is_absent (c : Client) (db : Server) :
  let dbQ := scan_result db "SELECT datname FROM pg_database WHERE datname=$1" in
  let roleQ := scan_result db "SELECT 1 FROM pg_roles WHERE rolname=$1" in
  let schemaQ := scan_result db "SELECT 1 FROM pg_namespace WHERE nspname=$1" in
  let roleResQ := scan_result db "SELECT rolname FROM pg_catalog.pg_roles WHERE rolname=$1" in
  let extQ := scan_result db "SELECT extname FROM pg_catalog.pg_extension WHERE extname = $1" in
  let dbWrap := Wrapf "could not check if database exists: {{err}}" in
  let roleWrap := Wrapf "could not check if role exists: {{err}}" in
  let schemaWrap := Wrapf "could not check if schema exists: {{err}}" in
  (* no rows: absent, no error *)
  (forall x, dbQ x = Some ErrNoRows -> dbExists db x = (false, None))
  /\ (forall x, roleQ x = Some ErrNoRows -> roleExists db x = (false, None))
  /\ (forall x, schemaQ x = Some ErrNoRows -> schemaExists db x = (false, None))
  /\ (forall d, roleResQ (Id d) = Some ErrNoRows ->
                resourcePostgreSQLRoleExists db d = (false, None))
  /\ (forall d database extName,
         getExtNames d = Ok (database, extName) ->
         dbQ database = Some ErrNoRows
         \/ (dbQ database = None /\ dbConnection_result db database = None
             /\ extQ extName = Some ErrNoRows) ->
         resourcePostgreSQLExtensionExists c db d = (false, None))
  (* another error: the error, and not found *)
  /\ (forall x e, dbQ x = Some e -> e <> ErrNoRows ->
         dbExists db x = (false, Some (dbWrap e)))
  /\ (forall x e, roleQ x = Some e -> e <> ErrNoRows ->
         roleExists db x = (false, Some (roleWrap e)))
  /\ (forall x e, schemaQ x = Some e -> e <> ErrNoRows ->
         schemaExists db x = (false, Some (schemaWrap e)))
  /\ (forall d e, roleResQ (Id d) = Some e -> e <> ErrNoRows ->
         resourcePostgreSQLRoleExists db d = (false, Some e))
  /\ (forall d database extName e,
         getExtNames d = Ok (database, extName) ->
         dbQ database = None -> dbConnection_result db database = None ->
         extQ extName = Some e -> e <> ErrNoRows ->
         resourcePostgreSQLExtensionExists c db d = (false, Some e))
  (* the earlier steps of the extension probe: their errors, and not found *)
  /\ (forall d e, getExtNames d = Err e ->
         resourcePostgreSQLExtensionExists c db d = (false, Some e))
  /\ (forall d database extName e,
         getExtNames d = Ok (database, extName) ->
         dbQ database = Some e -> e <> ErrNoRows ->
         resourcePostgreSQLExtensionExists c db d = (false, Some (dbWrap e)))
  /\ (forall d database extName e,
         getExtNames d = Ok (database, extName) ->
         dbQ database = None -> dbConnection_result db database = Some e ->
         resourcePostgreSQLExtensionExists c db d = (false, Some e))
  (* a row: present, no error *)
  /\ (forall x, dbQ x = None -> dbExists db x = (true, None))
  /\ (forall x, roleQ x = None -> roleExists db x = (true, None))
  /\ (forall x, schemaQ x = None -> schemaExists db x = (true, None))
  /\ (forall d, roleResQ (Id d) = None -> resourcePostgreSQLRoleExists db d = (true, None))
  /\ (forall d database extName,
         getExtNames d = Ok (database, extName) ->
         dbQ database = None -> dbConnection_result db database = None ->
         extQ extName = None ->
         resourcePostgreSQLExtensionExists c db d = (true, None))
  (* absence is reported only for no rows *)
  /\ (forall x, dbExists db x = (false, None) -> dbQ x = Some ErrNoRows)
  /\ (forall x, roleExists db x = (false, None) -> roleQ x = Some ErrNoRows)
  /\ (forall x, schemaExists db x = (false, None) -> schemaQ x = Some ErrNoRows)
  /\ (forall d, resourcePostgreSQLRoleExists db d = (false, None) ->
                roleResQ (Id d) = Some ErrNoRows)
  /\ (forall d, resourcePostgreSQLExtensionExists c db d = (false, None) ->
         exists database extName,
           getExtNames d = Ok (database, extName)
           /\ (dbQ database = Some ErrNoRows
               \/ (dbQ database = None /\ dbConnection_result db database = None
                   /\ extQ extName = Some ErrNoRows)))
  (* an error is reported only for a failure, and never with presence *)
  /\ (forall x b e', dbExists db x = (b, Some e') ->
         b = false /\ exists e, dbQ x = Some e /\ e <> ErrNoRows /\ e' = dbWrap e)
  /\ (forall x b e', roleExists db x = (b, Some e') ->
         b = false /\ exists e, roleQ x = Some e /\ e <> ErrNoRows /\ e' = roleWrap e)
  /\ (forall x b e', schemaExists db x = (b, Some e') ->
         b = false /\ exists e, schemaQ x = Some e /\ e <> ErrNoRows /\ e' = schemaWrap e)
  /\ (forall d b e', resourcePostgreSQLRoleExists db d = (b, Some e') ->
         b = false /\ roleResQ (Id d) = Some e' /\ e' <> ErrNoRows)
  /\ (forall d b e', resourcePostgreSQLExtensionExists c db d = (b, Some e') ->
         b = false
         /\ (getExtNames d = Err e'
             \/ exists database extName,
                  getExtNames d = Ok (database, extName)
                  /\ ((exists e, dbQ database = Some e /\ e <> ErrNoRows /\ e' = dbWrap e)
                      \/ (dbQ database = None
                          /\ dbConnection_result db database = Some e')
                      \/ (dbQ database = None
                          /\ dbConnection_result db database = None
                          /\ extQ extName = Some e' /\ e' <> ErrNoRows)))).
Proof.
  cbv zeta.
  repeat match goal with |- _ /\ _ => split end.
  - intros x H. unfold dbExists. rewrite H. reflexivity.
  - intros x H. unfold roleExists. rewrite H. reflexivity.
  - intros x H. unfold schemaExists. rewrite H. reflexivity.
  - intros d H. unfold resourcePostgreSQLRoleExists. rewrite H. reflexivity.
  - intros d database extName Hn H.
    unfold resourcePostgreSQLExtensionExists, dbExists. rewrite Hn.
    destruct H as [H | (H1 & H2 & H3)].
    + rewrite H. reflexivity.
    + rewrite H1. simpl. rewrite H2, H3. reflexivity.
  - intros x e H Hne. unfold dbExists. rewrite H.
    now apply (probe_cases (Some e)).
  - intros x e H Hne. unfold roleExists. rewrite H.
    now apply (probe_cases (Some e)).
  - intros x e H Hne. unfold schemaExists. rewrite H.
    now apply (probe_cases (Some e)).
  - intros d e H Hne. unfold resourcePostgreSQLRoleExists. rewrite H.
    now apply (probe_cases (Some e) (fun err => err)).
  - intros d database extName e Hn H1 H2 H3 Hne.
    unfold resourcePostgreSQLExtensionExists, dbExists. rewrite Hn, H1. simpl.
    rewrite H2, H3.
    now apply (probe_cases (Some e) (fun err => err)).
  - intros d e Hn. unfold resourcePostgreSQLExtensionExists. rewrite Hn. reflexivity.
  - intros d database extName e Hn H Hne.
    unfold resourcePostgreSQLExtensionExists, dbExists. rewrite Hn, H.
    destruct e; try reflexivity. contradiction.
  - intros d database extName e Hn H1 H2.
    unfold resourcePostgreSQLExtensionExists, dbExists. rewrite Hn, H1. simpl.
    rewrite H2. reflexivity.
  - intros x H. unfold dbExists. rewrite H. reflexivity.
  - intros x H. unfold roleExists. rewrite H. reflexivity.
  - intros x H. unfold schemaExists. rewrite H. reflexivity.
  - intros d H. unfold resourcePostgreSQLRoleExists. rewrite H. reflexivity.
  - intros d database extName Hn H1 H2 H3.
    unfold resourcePostgreSQLExtensionExists, dbExists. rewrite Hn, H1. simpl.
    rewrite H2, H3. reflexivity.
  - intros x H. now apply probe_cases in H.
  - intros x H. now apply probe_cases in H.
  - intros x H. now apply probe_cases in H.
  - intros d H. now apply probe_cases in H.
  - intros d H. unfold resourcePostgreSQLExtensionExists in H.
    destruct (getExtNames d) as [[database extName]|e] eqn:Hn; [|discriminate].
    exists database, extName. split; [reflexivity|].
    destruct (dbExists db database) as [ex err] eqn:Hdb.
    destruct err as [e|]; simpl in H.
    + discriminate.
    + destruct ex; simpl in H.
      * destruct (dbConnection_result db database) eqn:Hc; [discriminate|].
        right. split; [|split; [reflexivity|now apply probe_cases in H]].
        unfold dbExists in Hdb.
        destruct (scan_result db _ database) as [e|]; [|reflexivity].
        destruct e; discriminate.
      * left. now apply probe_cases in Hdb.
  - intros x b e' H. apply probe_failed in H. exact H.
  - intros x b e' H. apply probe_failed in H. exact H.
  - intros x b e' H. apply probe_failed in H. exact H.
  - intros d b e' H. apply probe_failed in H.
    destruct H as (-> & e & H1 & H2 & ->). auto.
  - intros d b e' H. unfold resourcePostgreSQLExtensionExists in H.
    destruct (getExtNames d) as [[database extName]|e] eqn:Hn.
    + destruct (dbExists db database) as [ex err] eqn:Hdb.
      destruct err as [e|]; simpl in H.
      * injection H as <- <-. split; [reflexivity|].
        right. exists database, extName. split; [reflexivity|].
        left. now apply probe_failed in Hdb.
      * destruct ex; simpl in H; [|discriminate].
        assert (Hq : scan_result db "SELECT datname FROM pg_database WHERE datname=$1"
                                 database = None).
        { unfold dbExists in Hdb.
          destruct (scan_result db _ database) as [e|]; [|reflexivity].
          destruct e; discriminate. }
        destruct (dbConnection_result db database) as [e|] eqn:Hc.
        -- injection H as <- <-. split; [reflexivity|].
           right. exists database, extName. split; [reflexivity|].
           right. left. auto.
        -- apply probe_failed in H. destruct H as (-> & e & H1 & H2 & ->).
           split; [reflexivity|].
           right. exists database, extName. split; [reflexivity|].
           right. right. auto.
    + injection H as <- <-. split; [reflexivity|]. left. reflexivity.
Qed.

(* ===================================================================== *)
(** ** Reasoning about resource functions *)
(* ===================================================================== *)

Section Triples.
Context {A : Type}.

Lemma triple_ret {R : Type} (P : St A -> Prop) (r : R) : triple P (ret r) P.
Proof. intros s H. exact H. Qed.

Lemma triple_bind {R R' : Type} (P Q T : St A -> Prop) (m : M A R) (f : R -> M A R') :
  triple P m Q ->
  (forall r, triple Q (f r) T) ->
  (forall s, Q s -> T s) ->
  triple P (bind m f) T.
Proof.
  intros Hm Hf Himp s Hs. unfold bind.
  specialize (Hm s Hs). destruct (m s) as [[r|e] s']; simpl in *.
  - apply Hf. exact Hm.
  - apply Himp. exact Hm.
Qed.

(** The same state predicate before and after. *)
Lemma keeps_bind {R R' : Type} (P : St A -> Prop) (m : M A R) (f : R -> M A R') :
  triple P m P -> (forall r, triple P (f r) P) -> triple P (bind m f) P.
Proof. intros Hm Hf. apply (triple_bind P P P); auto. Qed.

(** [Exec] sends at most its own statement, and only on an open
    transaction; it never commits. *)
Lemma Exec_state (db : Server) (sql : string) (wrap : error -> error) (s : St A) :
  rd (snd (Exec db sql wrap s)) = rd s
  /\ commits (tx (snd (Exec db sql wrap s))) = commits (tx s)
  /\ rollbacks (tx (snd (Exec db sql wrap s))) = rollbacks (tx s)
  /\ done (tx (snd (Exec db sql wrap s))) = done (tx s)
  /\ (sent (tx (snd (Exec db sql wrap s))) = sent (tx s)
      \/ sent (tx (snd (Exec db sql wrap s))) = (sent (tx s) ++ [sql])%list).
Proof.
  unfold Exec. destruct (done (tx s)) eqn:Hd; simpl.
  - rewrite Hd. repeat split; auto.
  - destruct (exec_result db (sent (tx s)) sql); simpl; rewrite ?Hd; repeat split; auto.
Qed.

(** On an open transaction and a server that accepts the statement. *)
Lemma Exec_ok (db : Server) (sql : string) (wrap : error -> error) (s : St A) :
  done (tx s) = false ->
  exec_result db (sent (tx s)) sql = None ->
  Exec db sql wrap s
  = (Ok tt, mkSt (mkTx (sent (tx s) ++ [sql])%list (commits (tx s)) (rollbacks (tx s)) false)
                 (rd s)).
Proof.
  intros Hd He. unfold Exec. rewrite Hd, He. reflexivity.
Qed.

Lemma Rollback_sent (t : Tx) : sent (Rollback t) = sent t.
Proof. unfold Rollback. destruct (done t); reflexivity. Qed.

Lemma Rollback_commits (t : Tx) : commits (Rollback t) = commits t.
Proof. unfold Rollback. destruct (done t); reflexivity. Qed.

Lemma Rollback_done (t : Tx) : done (Rollback t) = true.
Proof. unfold Rollback. destruct (done t) eqn:E; [exact E | reflexivity]. Qed.

(** [defer txn.Rollback()] changes neither the statements sent nor the
    commits, nor the resource data, nor the result. *)
Lemma deferRollback_state {R : Type} (body : M A R) (s : St A) :
  fst (deferRollback body s) = fst (body s)
  /\ rd (snd (deferRollback body s)) = rd (snd (body s))
  /\ sent (tx (snd (deferRollback body s))) = sent (tx (snd (body s)))
  /\ commits (tx (snd (deferRollback body s))) = commits (tx (snd (body s)))
  /\ done (tx (snd (deferRollback body s))) = true.
Proof.
  unfold deferRollback. destruct (body s) as [r s']; simpl.
  rewrite Rollback_sent, Rollback_commits, Rollback_done. auto.
Qed.

End Triples.

(* ===================================================================== *)
(** ** Deleting a role *)
(* ===================================================================== *)

(** A resource function that opens a transaction and defers its rollback. *)
Lemma run_Begin_defer {A R : Type} (db : Server) (body : M A R) (d : ResourceData A) :
  run (Begin db ;; deferRollback body) d
  = match begin_result db with
    | Some e => (Err e, mkSt newTx d)
    | None => deferRollback body (mkSt newTx d)
    end.
Proof.
  unfold run, bind, Begin. destruct (begin_result db); reflexivity.
Qed.

(** The three ways [Exec] can end. *)
Lemma Exec_cases {A : Type} (db : Server) (sql : string) (wrap : error -> error) (s : St A) :
  let s' := mkSt (mkTx (sent (tx s) ++ [sql])%list (commits (tx s)) (rollbacks (tx s)) false)
                 (rd s) in
  (exists e, Exec db sql wrap s = (Err e, s))
  \/ (exists e, Exec db sql wrap s = (Err e, s'))
  \/ Exec db sql wrap s = (Ok tt, s').
Proof.
  unfold Exec. destruct (done (tx s)).
  - left. eexists. reflexivity.
  - destruct (exec_result db (sent (tx s)) sql).
    + right; left. eexists. reflexivity.
    + right; right. reflexivity.
Qed.

Lemma Commit_state {A : Type} (db : Server) (wrap : error -> error) (s : St A) :
  rd (snd (Commit db wrap s)) = rd s
  /\ sent (tx (snd (Commit db wrap s))) = sent (tx s).
Proof.
  unfold Commit. destruct (done (tx s)); simpl; [auto|].
  destruct (commit_result db (sent (tx s))); simpl; auto.
Qed.

(** The loop over [queries] sends them in order and stops at the first
    failure: what was sent is what was sent before and a prefix of
    [queries]. *)
Lemma execEach_prefix (db : Server) (wrap : error -> error) (queries : list string) :
  forall s,
    exists k,
      sent (tx (snd (execEach db queries wrap s))) = (sent (tx s) ++ firstn k queries)%list
      /\ commits (tx (snd (execEach db queries wrap s))) = commits (tx s)
      /\ rd (snd (execEach db queries wrap s)) = rd s.
Proof.
  induction queries as [|q rest IH]; intro s.
  - exists 0. simpl. rewrite app_nil_r. auto.
  - cbn [execEach]. unfold bind.
    destruct (Exec_cases db q wrap s) as [(e & H) | [(e & H) | H]]; rewrite H.
    + exists 0. simpl. rewrite app_nil_r. auto.
    + exists 1. simpl. auto.
    + destruct (IH (mkSt (mkTx (sent (tx s) ++ [q])%list (commits (tx s)) (rollbacks (tx s)) false)
                         (rd s))) as (k & Hs & Hc & Hd).
      exists (S k). rewrite Hs, Hc, Hd. simpl. rewrite <- app_assoc. auto.
Qed.

(** When the server accepts every statement, all of [queries] are sent. *)
Lemma execEach_ok (db : Server) (wrap : error -> error) (queries : list string) :
  (forall before sql, exec_result db before sql = None) ->
  forall s,
    done (tx s) = false ->
    execEach db queries wrap s
    = (Ok tt, mkSt (mkTx (sent (tx s) ++ queries)%list (commits (tx s)) (rollbacks (tx s)) false)
                   (rd s)).
Proof.
  intro Hok. induction queries as [|q rest IH]; intros s Hd.
  - simpl. unfold ret. rewrite app_nil_r. destruct s as [[se co ro dn] r]. simpl in *.
    now subst dn.
  - cbn [execEach]. unfold bind. rewrite (Exec_ok db q wrap s Hd (Hok _ _)).
    rewrite IH by reflexivity. simpl. now rewrite <- app_assoc.
Qed.

(** The [queries] of a delete, spelled out. *)
Lemma roleDeleteQueries_eq (c : Client) (a : RoleAttrs) :
  let role := pq.QuoteIdentifier (strs a roleNameAttr) in
  roleDeleteQueries c a
  = app (if bools a roleSkipReassignOwnedAttr then []
         else [ "REASSIGN OWNED BY " ++ role ++ " TO "
                ++ (if featureSupported c featureReassignOwnedCurrentUser
                    then "CURRENT_USER"
                    else pq.QuoteIdentifier (config_Username c));
                "DROP OWNED BY " ++ role ])
        (if bools a roleSkipDropRoleAttr then [] else [ "DROP ROLE " ++ role ]).
Proof.
  unfold roleDeleteQueries, append.
  destruct (bools a roleSkipReassignOwnedAttr), (bools a roleSkipDropRoleAttr),
    (featureSupported c featureReassignOwnedCurrentUser); reflexivity.
Qed.

(** What a delete sends is a prefix of its [queries]; all of them when the
    transaction opens and every statement is accepted. *)
Lemma roleDelete_sent (c : Client) (db : Server) (d : RoleData) :
  let final := snd (run (resourcePostgreSQLRoleDelete c db) d) in
  (exists k, sent (tx final) = firstn k (roleDeleteQueries c (attrs d)))
  /\ (begin_result db = None ->
      (forall before sql, exec_result db before sql = None) ->
      sent (tx final) = roleDeleteQueries c (attrs d)).
Proof.
  cbv zeta. unfold resourcePostgreSQLRoleDelete. rewrite run_Begin_defer.
  destruct (begin_result db) as [e|] eqn:Hb.
  - split; [exists 0; reflexivity | discriminate].
  - match goal with |- context [deferRollback ?b ?s] =>
      destruct (deferRollback_state b s) as (_ & _ & Hs & _); rewrite Hs; clear Hs end.
    unfold bind, getd. cbn [rd attrs].
    destruct (Nat.ltb 0 (length (roleDeleteQueries c (attrs d)))) eqn:Hlen.
    + split.
      * destruct (execEach_prefix db (Wrapf "Error deleting role: {{err}}")
                    (roleDeleteQueries c (attrs d)) (mkSt newTx d)) as (k & Hk & _ & _).
        exists k.
        destruct (execEach db (roleDeleteQueries c (attrs d)) _ (mkSt newTx d))
          as [[r|e] s1]; cbn [snd] in *.
        -- destruct (Commit_state db (Wrapf "Error committing schema: {{err}}") s1) as (_ & Hc).
           destruct (Commit db _ s1) as [[r'|e'] s2]; cbn [snd] in *; simpl;
             rewrite Hc, Hk; reflexivity.
        -- rewrite Hk. reflexivity.
      * intros _ Hok. rewrite (execEach_ok db _ _ Hok) by reflexivity.
        unfold Commit. cbn. destruct (commit_result db _); reflexivity.
    + apply Nat.ltb_ge in Hlen.
      destruct (roleDeleteQueries c (attrs d)); [|simpl in Hlen; lia].
      split; [exists 0; reflexivity | reflexivity].
Qed.

Example roleDelete_all_three :
  sent (tx (snd (run (resourcePostgreSQLRoleDelete pgClient (okServer [] (defaultRole "r")))
                     (mkData "r" (defaultRole "r") (defaultRole "r")))))
  = [ "REASSIGN OWNED BY " ++ dq "r" ++ " TO CURRENT_USER";
      "DROP OWNED BY " ++ dq "r";
      "DROP ROLE " ++ dq "r" ].
Proof. reflexivity. Qed.

(** C7. A role delete sends, in this order, the reassign-ownership
    statement, the drop-owned statement and the drop-role statement; the
    first two are left out when [skip_reassign_owned] is set and the third
    when [skip_drop_role] is set. The statements are sent one after the other
    until one fails: what goes over the transaction is always a prefix of
    that list, and the whole list when every statement is accepted. *)
Theorem roleDelete_statement_order (c : Client) (db : Server) (d : RoleData) :
  let a := attrs d in
  let role := pq.QuoteIdentifier (strs a roleNameAttr) in
  let reassign :=
    "REASSIGN OWNED BY " ++ role ++ " TO "
    ++ (if featureSupported c featureReassignOwnedCurrentUser
        then "CURRENT_USER"
        else pq.QuoteIdentifier (config_Username c)) in
  let expected :=
    app (if bools a roleSkipReassignOwnedAttr then [] else [ reassign; "DROP OWNED BY " ++ role ])
        (if bools a roleSkipDropRoleAttr then [] else [ "DROP ROLE " ++ role ]) in
  let final := snd (run (resourcePostgreSQLRoleDelete c db) d) in
  roleDeleteQueries c a = expected
  /\ (exists k, sent (tx final) = firstn k expected)
  /\ (begin_result db = None ->
      (forall before sql, exec_result db before sql = None) ->
      sent (tx final) = expected).
Proof.
  cbv zeta. rewrite <- (roleDeleteQueries_eq c (attrs d)).
  split; [reflexivity|]. apply roleDelete_sent.
Qed.

(** C8. A role delete with [skip_drop_role] and [skip_reassign_owned] both
    set sends no statement and commits nothing. The function opens its
    transaction before it looks at the flags: when [Begin] succeeds the id
    is cleared and no error returned; when [Begin] fails its error is
    returned and the id is kept. *)
Theorem roleDelete_skip_flags (c : Client) (db : Server) (d : RoleData) :
  bools (attrs d) roleSkipDropRoleAttr = true ->
  bools (attrs d) roleSkipReassignOwnedAttr = true ->
  let out := run (resourcePostgreSQLRoleDelete c db) d in
  sent (tx (snd out)) = []
  /\ commits (tx (snd out)) = 0
  /\ (begin_result db = None -> fst out = Ok tt /\ Id (rd (snd out)) = "")
  /\ (forall e, begin_result db = Some e ->
        fst out = Err e /\ Id (rd (snd out)) = Id d).
Proof.
  intros Hdrop Hreassign. cbv zeta.
  unfold resourcePostgreSQLRoleDelete. rewrite run_Begin_defer.
  destruct (begin_result db) as [e|].
  - split; [reflexivity|]. split; [reflexivity|]. split; [discriminate|].
    intros e' [= <-]. split; reflexivity.
  - unfold deferRollback, bind, getd. cbn [rd attrs].
    unfold roleDeleteQueries. rewrite Hdrop, Hreassign. cbn.
    repeat split; try reflexivity; discriminate.
Qed.

(** The skipped delete of a concrete role on a server that accepts
    everything. *)
Lemma roleDelete_skip_flags_witness :
  let d := setBool roleSkipDropRoleAttr true
             (setBool roleSkipReassignOwnedAttr true (defaultRole "r")) in
  let out := run (resourcePostgreSQLRoleDelete pgClient (okServer [] d)) (mkData "r" d d) in
  sent (tx (snd out)) = []
  /\ commits (tx (snd out)) = 0
  /\ (begin_result (okServer [] d) = None -> fst out = Ok tt /\ Id (rd (snd out)) = "")
  /\ (forall e, begin_result (okServer [] d) = Some e ->
        fst out = Err e /\ Id (rd (snd out)) = "r").
Proof.
  cbv zeta.
  apply (roleDelete_skip_flags pgClient); reflexivity.
Defined.

(** C8, as the specification words it, fails: the skipped delete of role
    [r] on a server that cannot be reached returns the error of [Begin] and
    keeps the id. *)
Lemma roleDelete_skip_flags_begin_fails :
  let d := setBool roleSkipDropRoleAttr true
             (setBool roleSkipReassignOwnedAttr true (defaultRole "r")) in
  let out := run (resourcePostgreSQLRoleDelete pgClient unreachable) (mkData "r" d d) in
  bools d roleSkipDropRoleAttr = true
  /\ bools d roleSkipReassignOwnedAttr = true
  /\ fst out = Err (DriverError "connection refused")
  /\ Id (rd (snd out)) = "r".
Proof. repeat split; vm_compute; reflexivity. Qed.

(* ===================================================================== *)
(** ** Updating an extension *)
(* ===================================================================== *)

(** Reading an extension back leaves the transaction alone. *)
Lemma ExtensionReadImpl_tx (c : Client) (db : Server) (s : St ExtAttrs) :
  tx (snd (resourcePostgreSQLExtensionReadImpl c db s)) = tx s.
Proof.
  unfold resourcePostgreSQLExtensionReadImpl, bind, getd.
  destruct (getExtNames (rd s)) as [[database extName]|e]; [|reflexivity].
  destruct (dbConnection_result db database); [reflexivity|].
  destruct (ext_row db database extName) as [[extSchema extVersion]|e].
  - reflexivity.
  - destruct (isErrNoRows e); reflexivity.
Qed.

Lemma setExtSchema_commits (db : Server) (s : St ExtAttrs) :
  commits (tx (snd (setExtSchema db s))) = commits (tx s).
Proof.
  unfold setExtSchema, bind, getd.
  destruct (negb (HasChangeExt (rd s) extSchemaAttr)); [reflexivity|].
  destruct (String.eqb (attrs (rd s) extSchemaAttr) ""); [reflexivity|].
  apply Exec_state.
Qed.

Lemma setExtVersion_commits (db : Server) (s : St ExtAttrs) :
  commits (tx (snd (setExtVersion db s))) = commits (tx s).
Proof.
  unfold setExtVersion, bind, getd.
  destruct (negb (HasChangeExt (rd s) extVersionAttr)); [reflexivity|].
  apply Exec_state.
Qed.

(** [startTransaction] fails with the state as it was, or opens a fresh
    transaction. *)
Lemma startTransaction_cases (c : Client) (db : Server) (database : string) (s : St ExtAttrs) :
  (exists e, startTransaction c db database s = (Err e, s))
  \/ startTransaction c db database s = (Ok tt, mkSt newTx (rd s)).
Proof.
  unfold startTransaction, bind.
  destruct (negb (database =? "") && negb (database =? databaseName c))%bool.
  - destruct (newClient_result db database); unfold fail, ret.
    + left. eexists. reflexivity.
    + destruct (begin_result db); [left; eexists; reflexivity | right; reflexivity].
  - unfold fail, ret.
    destruct (begin_result db); [left; eexists; reflexivity | right; reflexivity].
Qed.

(** X2. No path through [resourcePostgreSQLExtensionUpdate] commits. *)
Lemma extensionUpdate_never_commits (c : Client) (db : Server) (d : ExtData) :
  commits (tx (snd (run (resourcePostgreSQLExtensionUpdate c db) d))) = 0.
Proof.
  change (run (resourcePostgreSQLExtensionUpdate c db) d)
    with (match startTransaction c db (attrs d extDatabaseAttr) (mkSt newTx d) with
          | (Ok _, s') =>
              deferRollback
                (setExtSchema db ;; setExtVersion db ;; resourcePostgreSQLExtensionReadImpl c db) s'
          | (Err e, s') => (Err e, s')
          end).
  destruct (startTransaction_cases c db (attrs d extDatabaseAttr) (mkSt newTx d))
    as [(e & H) | H]; rewrite H; [reflexivity|].
  match goal with |- context [deferRollback ?b ?s] =>
    destruct (deferRollback_state b s) as (_ & _ & _ & Hc & _); rewrite Hc; clear Hc end.
  cbn [rd]. unfold bind.
  destruct (setExtSchema db (mkSt newTx d)) as [[r1|e1] s2] eqn:E2;
    pose proof (setExtSchema_commits db (mkSt newTx d)) as H2;
    rewrite E2 in H2; simpl in H2; cbn [snd]; [|exact H2].
  destruct (setExtVersion db s2) as [[r2|e2] s3] eqn:E3;
    pose proof (setExtVersion_commits db s2) as H3;
    rewrite E3 in H3; simpl in H3; cbn [snd]; [|congruence].
  rewrite ExtensionReadImpl_tx. congruence.
Qed.

(** C2. An extension whose version goes from 1.0 to 1.1, on a server that
    accepts everything: the ALTER EXTENSION statement is sent and the update
    returns no error, but the transaction is never committed; the deferred
    rollback undoes it. A role update on the same server commits once. *)
Theorem extensionUpdate_not_committed :
  let old := extAttrsOf "mydb" "pg_trgm" "public" "1.0" in
  let new := extAttrsOf "mydb" "pg_trgm" "public" "1.1" in
  let out := run (resourcePostgreSQLExtensionUpdate pgClient (okServer [] (defaultRole "r")))
                 (mkData "mydb-pg_trgm" old new) in
  let role := run (resourcePostgreSQLRoleUpdate pgClient (okServer [] (defaultRole "r")))
                  (mkData "r" (defaultRole "r") (setBool roleLoginAttr true (defaultRole "r"))) in
  fst out = Ok tt
  /\ sent (tx (snd out)) = [ "ALTER EXTENSION " ++ dq "pg_trgm" ++ " UPDATE TO " ++ dq "1.1" ]
  /\ commits (tx (snd out)) = 0
  /\ rollbacks (tx (snd out)) = 1
  /\ commits (tx (snd role)) = 1
  /\ rollbacks (tx (snd role)) = 0.
Proof. repeat split; vm_compute; reflexivity. Qed.

(* ===================================================================== *)
(** ** Role membership in an update *)
(* ===================================================================== *)

Lemma scanRoles_ok (role : string) (names : list string) :
  scanRoles role (map Ok names) = Ok names.
Proof.
  induction names as [|g rest IH]; simpl; [reflexivity|]. now rewrite IH.
Qed.

Lemma revokeEach_ok (db : Server) (role : string) (grantedRoles : list string) :
  (forall before sql, exec_result db before sql = None) ->
  forall s,
    done (tx s) = false ->
    revokeEach db role grantedRoles s
    = (Ok tt, mkSt (mkTx (sent (tx s) ++ map (fun g => revokeSQL g role) grantedRoles)%list
                         (commits (tx s)) (rollbacks (tx s)) false)
                   (rd s)).
Proof.
  intro Hok. induction grantedRoles as [|g rest IH]; intros s Hd.
  - simpl. unfold ret. rewrite app_nil_r. destruct s as [[se co ro dn] r]. simpl in *.
    now subst dn.
  - cbn [revokeEach]. unfold bind. rewrite (Exec_ok db _ _ s Hd (Hok _ _)).
    rewrite IH by reflexivity. simpl. now rewrite <- app_assoc.
Qed.

Lemma grantEach_ok (db : Server) (role : string) (granting : list string) :
  (forall before sql, exec_result db before sql = None) ->
  forall s,
    done (tx s) = false ->
    grantEach db role granting s
    = (Ok tt, mkSt (mkTx (sent (tx s) ++ map (fun g => grantSQL g role) granting)%list
                         (commits (tx s)) (rollbacks (tx s)) false)
                   (rd s)).
Proof.
  intro Hok. induction granting as [|g rest IH]; intros s Hd.
  - simpl. unfold ret. rewrite app_nil_r. destruct s as [[se co ro dn] r]. simpl in *.
    now subst dn.
  - cbn [grantEach]. unfold bind. rewrite (Exec_ok db _ _ s Hd (Hok _ _)).
    rewrite IH by reflexivity. simpl. now rewrite <- app_assoc.
Qed.

(** C1, as the code has it. The last two steps of a role update,
    [revokeRoles] then [grantRoles]: with [current] the roles the catalog
    reports for the role and [desired] the configured set, and a server that
    accepts every statement, they send one REVOKE for every role of
    [current], then one GRANT for every role of [desired], whether or not a
    role is in both. *)
Theorem membership_revoke_all_grant_all
    (db : Server) (s : St RoleAttrs) (current : list string) :
  let role := strs (attrs (rd s)) roleNameAttr in
  let desired := roles (attrs (rd s)) in
  done (tx s) = false ->
  applicable_roles db (sent (tx s)) role = Ok (map Ok current) ->
  (forall before sql, exec_result db before sql = None) ->
  (revokeRoles db ;; grantRoles db) s
  = (Ok tt,
     mkSt (mkTx (sent (tx s)
                 ++ map (fun g => revokeSQL g role) current
                 ++ map (fun g => grantSQL g role) desired)%list
                (commits (tx s)) (rollbacks (tx s)) false)
          (rd s)).
Proof.
  intros role desired Hd Hq Hok.
  unfold revokeRoles, grantRoles, QueryRoles, bind, getd. cbn [fst snd].
  fold role. rewrite Hd, Hq, scanRoles_ok.
  rewrite (revokeEach_ok db role current Hok s Hd). cbn [rd tx sent commits rollbacks].
  rewrite (grantEach_ok db role _ Hok) by reflexivity.
  cbn [rd tx sent commits rollbacks]. fold desired.
  now rewrite <- app_assoc.
Qed.

(** A role that is a member of [a] and stays one. *)
Lemma membership_revoke_all_grant_all_witness :
  let a := setRoles ["a"] (defaultRole "r") in
  (revokeRoles (okServer ["a"] a) ;; grantRoles (okServer ["a"] a))
    (mkSt newTx (mkData "r" a a))
  = (Ok tt,
     mkSt (mkTx [ revokeSQL "a" "r"; grantSQL "a" "r" ] 0 0 false) (mkData "r" a a)).
Proof.
  cbv zeta.
  apply (membership_revoke_all_grant_all
           (okServer ["a"] (setRoles ["a"] (defaultRole "r")))
           (mkSt newTx (mkData "r" (setRoles ["a"] (defaultRole "r"))
                               (setRoles ["a"] (defaultRole "r"))))
           ["a"]);
    reflexivity.
Defined.

(** C1, as the specification words it, fails: a role update that keeps the
    role a member of [a] revokes [a] and grants it again, where the diff of
    the two sets is empty. *)
Lemma membership_diff_counterexample :
  let a := setRoles ["a"] (defaultRole "r") in
  sent (tx (snd (run (resourcePostgreSQLRoleUpdate pgClient (okServer ["a"] a))
                     (mkData "r" a a))))
  = [ "REVOKE " ++ dq "a" ++ " FROM " ++ dq "r"; "GRANT " ++ dq "a" ++ " TO " ++ dq "r" ]
  /\ spec_membershipStatements "r" ["a"] ["a"] = [].
Proof. split; vm_compute; reflexivity. Qed.

(* ===================================================================== *)
(** ** The order of statements in a role update *)
(* ===================================================================== *)

Lemma Exec_updating (o n : string) (db : Server) (sql : string) (wrap : error -> error) :
  targetsRole n sql ->
  triple (updating o n) (Exec db sql wrap) (updating o n).
Proof.
  intros Ht s (Hn & rest & Hs & Hf).
  destruct (Exec_state db sql wrap s) as (Hrd & _ & _ & _ & Hsent).
  split; [now rewrite Hrd|]. unfold renamedFirst.
  destruct Hsent as [H|H]; rewrite H, Hs.
  - exists rest. auto.
  - exists (rest ++ [sql])%list. split; [reflexivity|].
    apply Forall_app. auto.
Qed.

(** A setter either does nothing, or fails before sending, or sends one
    ALTER ROLE of the configured name. *)
Ltac setter_updating :=
  let s := fresh "s" in
  let HI := fresh "HI" in
  intros s HI; unfold bind, getd; cbn [fst snd];
  repeat match goal with
         | |- context [if ?b then _ else _] => destruct b
         end;
  try exact HI;
  (apply Exec_updating; [destruct HI as [<- _]; constructor | exact HI]).

Lemma setRoleBypassRLS_updating (o n : string) (c : Client) (db : Server) :
  triple (updating o n) (setRoleBypassRLS c db) (updating o n).
Proof. unfold setRoleBypassRLS. setter_updating. Qed.

Lemma setRoleConnLimit_updating (o n : string) (db : Server) :
  triple (updating o n) (setRoleConnLimit db) (updating o n).
Proof. unfold setRoleConnLimit. setter_updating. Qed.

Lemma setRoleCreateDB_updating (o n : string) (db : Server) :
  triple (updating o n) (setRoleCreateDB db) (updating o n).
Proof. unfold setRoleCreateDB. setter_updating. Qed.

Lemma setRoleCreateRole_updating (o n : string) (db : Server) :
  triple (updating o n) (setRoleCreateRole db) (updating o n).
Proof. unfold setRoleCreateRole. setter_updating. Qed.

Lemma setRoleInherit_updating (o n : string) (db : Server) :
  triple (updating o n) (setRoleInherit db) (updating o n).
Proof. unfold setRoleInherit. setter_updating. Qed.

Lemma setRoleLogin_updating (o n : string) (db : Server) :
  triple (updating o n) (setRoleLogin db) (updating o n).
Proof. unfold setRoleLogin. setter_updating. Qed.

Lemma setRoleReplication_updating (o n : string) (db : Server) :
  triple (updating o n) (setRoleReplication db) (updating o n).
Proof. unfold setRoleReplication. setter_updating. Qed.

Lemma setRoleSuperuser_updating (o n : string) (db : Server) :
  triple (updating o n) (setRoleSuperuser db) (updating o n).
Proof. unfold setRoleSuperuser. setter_updating. Qed.

Lemma setRoleValidUntil_updating (o n : string) (db : Server) :
  triple (updating o n) (setRoleValidUntil db) (updating o n).
Proof. unfold setRoleValidUntil. setter_updating. Qed.

Lemma revokeEach_updating (o n : string) (db : Server) (grantedRoles : list string) :
  triple (updating o n) (revokeEach db n grantedRoles) (updating o n).
Proof.
  induction grantedRoles as [|g rest IH]; cbn [revokeEach].
  - apply triple_ret.
  - apply keeps_bind; [|intros _; exact IH].
    apply Exec_updating. constructor.
Qed.

Lemma grantEach_updating (o n : string) (db : Server) (granting : list string) :
  triple (updating o n) (grantEach db n granting) (updating o n).
Proof.
  induction granting as [|g rest IH]; cbn [grantEach].
  - apply triple_ret.
  - apply keeps_bind; [|intros _; exact IH].
    apply Exec_updating. constructor.
Qed.

Lemma revokeRoles_updating (o n : string) (db : Server) :
  triple (updating o n) (revokeRoles db) (updating o n).
Proof.
  intros s HI. pose proof HI as [Hn _].
  unfold revokeRoles, QueryRoles, bind, getd. cbn [fst snd]. rewrite Hn.
  destruct (done (tx s)); [exact HI|].
  destruct (applicable_roles db (sent (tx s)) n) as [rows|e]; [|exact HI].
  destruct (scanRoles n rows) as [grantedRoles|e]; [|exact HI].
  apply revokeEach_updating. exact HI.
Qed.

Lemma grantRoles_updating (o n : string) (db : Server) :
  triple (updating o n) (grantRoles db) (updating o n).
Proof.
  intros s HI. pose proof HI as [Hn _].
  unfold grantRoles, bind, getd. cbn [fst snd]. rewrite Hn.
  apply grantEach_updating. exact HI.
Qed.

Lemma Commit_updating (o n : string) (db : Server) (wrap : error -> error) :
  triple (updating o n) (Commit db wrap) (updating o n).
Proof.
  intros s (Hn & rest & Hs & Hf).
  destruct (Commit_state db wrap s) as (Hrd & Hsent).
  split; [now rewrite Hrd|]. exists rest. rewrite Hsent. auto.
Qed.

(** Reading the role back leaves the transaction alone. *)
Lemma RoleReadImpl_tx (c : Client) (db : Server) (s : St RoleAttrs) :
  tx (snd (resourcePostgreSQLRoleReadImpl c db s)) = tx s.
Proof.
  unfold resourcePostgreSQLRoleReadImpl, bind, getd. cbn [fst snd].
  destruct (role_row db (Id (rd s))) as [row|e].
  - cbn. destruct (featureSupported c featureRLS).
    + destruct (rls_row db (Id (rd s))) as [b|e]; cbn; [|reflexivity].
      destruct (rolsuper row); cbn; [|reflexivity].
      destruct (shadow_row db (Id (rd s))) as [p|e]; cbn; [reflexivity|].
      destruct (isErrNoRows e); reflexivity.
    + cbn. destruct (rolsuper row); cbn; [|reflexivity].
      destruct (shadow_row db (Id (rd s))) as [p|e]; cbn; [reflexivity|].
      destruct (isErrNoRows e); reflexivity.
  - destruct (isErrNoRows e); reflexivity.
Qed.

(** The rename goes out first on the fresh transaction. *)
Lemma setRoleName_first (db : Server) (d : RoleData) :
  strs (prior d) roleNameAttr <> strs (attrs d) roleNameAttr ->
  strs (attrs d) roleNameAttr <> "" ->
  updating (strs (prior d) roleNameAttr) (strs (attrs d) roleNameAttr)
           (snd (setRoleName db (mkSt newTx d))).
Proof.
  intros Hchange Hne.
  unfold setRoleName, bind, getd, HasChangeString. cbn [fst snd rd].
  apply String.eqb_neq in Hchange, Hne. rewrite Hchange, Hne. cbn [negb].
  unfold Exec. cbn [tx done newTx sent commits rollbacks rd].
  destruct (exec_result db [] _); cbn; (split; [reflexivity|]);
    exists []; split; constructor.
Qed.

(** A role update that changes the name (to a non-empty one), once its
    transaction is open: the rename statement is the first statement sent,
    and every statement sent after it names the new role. *)
Lemma roleUpdate_starts_with_rename (c : Client) (db : Server) (d : RoleData) :
  let o := strs (prior d) roleNameAttr in
  let n := strs (attrs d) roleNameAttr in
  o <> n ->
  n <> "" ->
  begin_result db = None ->
  exists rest,
    sent (tx (snd (run (resourcePostgreSQLRoleUpdate c db) d))) = renameSQL o n :: rest
    /\ Forall (targetsRole n) rest.
Proof.
  intros o n Hchange Hne Hbegin.
  unfold resourcePostgreSQLRoleUpdate. rewrite run_Begin_defer, Hbegin.
  match goal with |- context [deferRollback ?b ?s] =>
    destruct (deferRollback_state b s) as (_ & _ & Hs & _); rewrite Hs; clear Hs end.
  change (renamedFirst o n
            (snd ((roleUpdateStatements c db ;;
                   Commit db (Wrapf "could not commit transaction: {{err}}") ;;
                   resourcePostgreSQLRoleReadImpl c db) (mkSt newTx d)))).
  apply (triple_bind (fun s => s = mkSt newTx d) (updating o n) (renamedFirst o n));
    [| | intros s H; apply H | reflexivity].
  - unfold roleUpdateStatements.
    apply (triple_bind _ (updating o n) (updating o n)); [| |auto].
    + intros s ->. apply setRoleName_first; assumption.
    + intros _.
      apply keeps_bind; [apply setRoleBypassRLS_updating | intros _].
      apply keeps_bind; [apply setRoleConnLimit_updating | intros _].
      apply keeps_bind; [apply setRoleCreateDB_updating | intros _].
      apply keeps_bind; [apply setRoleCreateRole_updating | intros _].
      apply keeps_bind; [apply setRoleInherit_updating | intros _].
      apply keeps_bind; [apply setRoleLogin_updating | intros _].
      apply keeps_bind; [apply setRoleReplication_updating | intros _].
      apply keeps_bind; [apply setRoleSuperuser_updating | intros _].
      apply keeps_bind; [apply setRoleValidUntil_updating | intros _].
      apply keeps_bind; [apply revokeRoles_updating | intros _].
      apply grantRoles_updating.
  - intros _.
    apply (triple_bind _ (updating o n) (renamedFirst o n));
      [apply Commit_updating | | intros s H; apply H].
    intros _ s H. unfold renamedFirst. rewrite RoleReadImpl_tx. apply H.
Qed.

Example roleUpdate_rename_and_connection_limit :
  let d := mkData "old" (defaultRole "old")
                  (setRoles ["a"] (setInt roleConnLimitAttr 5 (defaultRole "new"))) in
  sent (tx (snd (run (resourcePostgreSQLRoleUpdate pgClient (okServer ["b"] (attrs d))) d)))
  = [ "ALTER ROLE " ++ dq "old" ++ " RENAME TO " ++ dq "new";
      "ALTER ROLE " ++ dq "new" ++ " CONNECTION LIMIT 5";
      "REVOKE " ++ dq "b" ++ " FROM " ++ dq "new";
      "GRANT " ++ dq "a" ++ " TO " ++ dq "new" ].
Proof. vm_compute. reflexivity. Qed.

(* ===================================================================== *)
(** ** All or nothing: what a role's create, update and delete commit *)
(* ===================================================================== *)

Lemma acceptedFrom_snoc (db : Server) (stmts : list string) (sql : string) :
  forall before,
    acceptedFrom db before (stmts ++ [sql])
    = andb (acceptedFrom db before stmts)
           (match exec_result db (before ++ stmts) sql with
            | None => true
            | Some _ => false
            end).
Proof.
  induction stmts as [|q rest IH]; intros prev; simpl.
  - rewrite app_nil_r. destruct (exec_result db prev sql); reflexivity.
  - destruct (exec_result db prev q); [reflexivity|].
    rewrite IH, <- app_assoc. reflexivity.
Qed.

Lemma outcome_ret {A R : Type} (P E : St A -> Prop) (r : R) : outcome P (ret r) P E.
Proof. intros s H. exact H. Qed.

Lemma outcome_bind {A R R' : Type} (P Q T E : St A -> Prop) (m : M A R) (f : R -> M A R') :
  outcome P m Q E -> (forall r, outcome Q (f r) T E) -> outcome P (bind m f) T E.
Proof.
  intros Hm Hf s Hs. unfold bind. specialize (Hm s Hs).
  destruct (m s) as [[r|e] s']; [apply Hf; exact Hm | exact Hm].
Qed.

Lemma outcome_weaken {A R : Type} (P Q Q' E E' : St A -> Prop) (m : M A R) :
  outcome P m Q E -> (forall s, Q s -> Q' s) -> (forall s, E s -> E' s) ->
  outcome P m Q' E'.
Proof.
  intros H HQ HE s Hs. specialize (H s Hs).
  destruct (m s) as [[r|e] s']; auto.
Qed.

Lemma inProgress_stillOpen {A : Type} (db : Server) (s : St A) :
  inProgress db s -> stillOpen s.
Proof. intros (Hd & Hc & Hr & _). repeat split; assumption. Qed.

Lemma inProgress_fresh {A : Type} (db : Server) (d : ResourceData A) :
  inProgress db (mkSt newTx d).
Proof. repeat split. Qed.

(** A statement sent on an open transaction: accepted, and the transaction
    goes on; refused, and it is still open with nothing committed. *)
Lemma Exec_outcome {A : Type} (db : Server) (sql : string) (wrap : error -> error) :
  outcome (@inProgress A db) (Exec db sql wrap) (inProgress db) stillOpen.
Proof.
  intros s (Hd & Hc & Hr & Ha). unfold Exec. rewrite Hd.
  destruct (exec_result db (sent (tx s)) sql) eqn:E.
  - repeat split; assumption.
  - repeat split; try assumption. cbn [tx sent].
    unfold accepted in *. rewrite acceptedFrom_snoc, Ha. cbn [app]. now rewrite E.
Qed.

(** [Commit] finishes an open transaction, whether the server confirms
    it or not. *)
Lemma Commit_outcome {A : Type} (db : Server) (wrap : error -> error) :
  outcome (@inProgress A db) (Commit db wrap) (committedOnce db) (committedOnce db).
Proof.
  intros s (Hd & Hc & Hr & Ha). unfold Commit. rewrite Hd.
  destruct (commit_result db (sent (tx s))); cbn; rewrite Hc;
    repeat split; assumption.
Qed.

Ltac setter_outcome :=
  let s := fresh "s" in
  let HI := fresh "HI" in
  intros s HI; unfold bind, getd; cbn [fst snd];
  repeat match goal with
         | |- context [if ?b then _ else _] => destruct b
         end;
  first [ apply (Exec_outcome _ _ _ _ HI)
        | exact HI
        | exact (inProgress_stillOpen _ _ HI) ].

Lemma setRoleName_outcome (db : Server) :
  outcome (inProgress db) (setRoleName db) (inProgress db) stillOpen.
Proof.
  intros s HI. unfold setRoleName, bind, getd. cbn [fst snd].
  destruct (negb (HasChangeString (rd s) roleNameAttr)); [exact HI|].
  destruct (String.eqb (strs (attrs (rd s)) roleNameAttr) "");
    [exact (inProgress_stillOpen _ _ HI)|].
  pose proof (Exec_outcome db (renameSQL (strs (prior (rd s)) roleNameAttr)
                                         (strs (attrs (rd s)) roleNameAttr))
                           (Wrapf "Error updating role NAME: {{err}}") s HI) as H.
  destruct (Exec db _ _ s) as [[r|e] s']; exact H.
Qed.

Lemma setRoleBypassRLS_outcome (c : Client) (db : Server) :
  outcome (inProgress db) (setRoleBypassRLS c db) (inProgress db) stillOpen.
Proof. unfold setRoleBypassRLS. setter_outcome. Qed.

Lemma setRoleConnLimit_outcome (db : Server) :
  outcome (inProgress db) (setRoleConnLimit db) (inProgress db) stillOpen.
Proof. unfold setRoleConnLimit. setter_outcome. Qed.

Lemma setRoleCreateDB_outcome (db : Server) :
  outcome (inProgress db) (setRoleCreateDB db) (inProgress db) stillOpen.
Proof. unfold setRoleCreateDB. setter_outcome. Qed.

Lemma setRoleCreateRole_outcome (db : Server) :
  outcome (inProgress db) (setRoleCreateRole db) (inProgress db) stillOpen.
Proof. unfold setRoleCreateRole. setter_outcome. Qed.

Lemma setRoleInherit_outcome (db : Server) :
  outcome (inProgress db) (setRoleInherit db) (inProgress db) stillOpen.
Proof. unfold setRoleInherit. setter_outcome. Qed.

Lemma setRoleLogin_outcome (db : Server) :
  outcome (inProgress db) (setRoleLogin db) (inProgress db) stillOpen.
Proof. unfold setRoleLogin. setter_outcome. Qed.

Lemma setRoleReplication_outcome (db : Server) :
  outcome (inProgress db) (setRoleReplication db) (inProgress db) stillOpen.
Proof. unfold setRoleReplication. setter_outcome. Qed.

Lemma setRoleSuperuser_outcome (db : Server) :
  outcome (inProgress db) (setRoleSuperuser db) (inProgress db) stillOpen.
Proof. unfold setRoleSuperuser. setter_outcome. Qed.

Lemma setRoleValidUntil_outcome (db : Server) :
  outcome (inProgress db) (setRoleValidUntil db) (inProgress db) stillOpen.
Proof. unfold setRoleValidUntil. setter_outcome. Qed.

Lemma revokeEach_outcome (db : Server) (role : string) (grantedRoles : list string) :
  outcome (inProgress db) (revokeEach db role grantedRoles) (inProgress db) stillOpen.
Proof.
  induction grantedRoles as [|g rest IH]; cbn [revokeEach].
  - apply outcome_ret.
  - apply (outcome_bind _ (inProgress db)); [apply Exec_outcome | intros _; exact IH].
Qed.

Lemma grantEach_outcome (db : Server) (role : string) (granting : list string) :
  outcome (inProgress db) (grantEach db role granting) (inProgress db) stillOpen.
Proof.
  induction granting as [|g rest IH]; cbn [grantEach].
  - apply outcome_ret.
  - apply (outcome_bind _ (inProgress db)); [apply Exec_outcome | intros _; exact IH].
Qed.

Lemma revokeRoles_outcome (db : Server) :
  outcome (inProgress db) (revokeRoles db) (inProgress db) stillOpen.
Proof.
  intros s HI. unfold revokeRoles, QueryRoles, bind, getd. cbn [fst snd].
  destruct (done (tx s)); [exact (inProgress_stillOpen _ _ HI)|].
  destruct (applicable_roles db (sent (tx s)) _) as [rows|e];
    [|exact (inProgress_stillOpen _ _ HI)].
  destruct (scanRoles _ rows) as [grantedRoles|e];
    [|exact (inProgress_stillOpen _ _ HI)].
  apply revokeEach_outcome. exact HI.
Qed.

Lemma grantRoles_outcome (db : Server) :
  outcome (inProgress db) (grantRoles db) (inProgress db) stillOpen.
Proof.
  intros s HI. unfold grantRoles, bind, getd. cbn [fst snd].
  apply grantEach_outcome. exact HI.
Qed.

Lemma roleUpdateStatements_outcome (c : Client) (db : Server) :
  outcome (inProgress db) (roleUpdateStatements c db) (inProgress db) stillOpen.
Proof.
  unfold roleUpdateStatements.
  apply (outcome_bind _ (inProgress db)); [apply setRoleName_outcome | intros _].
  apply (outcome_bind _ (inProgress db)); [apply setRoleBypassRLS_outcome | intros _].
  apply (outcome_bind _ (inProgress db)); [apply setRoleConnLimit_outcome | intros _].
  apply (outcome_bind _ (inProgress db)); [apply setRoleCreateDB_outcome | intros _].
  apply (outcome_bind _ (inProgress db)); [apply setRoleCreateRole_outcome | intros _].
  apply (outcome_bind _ (inProgress db)); [apply setRoleInherit_outcome | intros _].
  apply (outcome_bind _ (inProgress db)); [apply setRoleLogin_outcome | intros _].
  apply (outcome_bind _ (inProgress db)); [apply setRoleReplication_outcome | intros _].
  apply (outcome_bind _ (inProgress db)); [apply setRoleSuperuser_outcome | intros _].
  apply (outcome_bind _ (inProgress db)); [apply setRoleValidUntil_outcome | intros _].
  apply (outcome_bind _ (inProgress db)); [apply revokeRoles_outcome | intros _].
  apply grantRoles_outcome.
Qed.

(** Reading the role back neither sends nor commits anything. *)
Lemma RoleReadImpl_outcome (c : Client) (db : Server) :
  outcome (committedOnce db) (resourcePostgreSQLRoleReadImpl c db)
          (committedOnce db) (committedOnce db).
Proof.
  intros s H. pose proof (RoleReadImpl_tx c db s) as Ht.
  destruct (resourcePostgreSQLRoleReadImpl c db s) as [[r|e] s'];
    cbn [snd] in Ht; unfold committedOnce; rewrite Ht; exact H.
Qed.

(** The deferred rollback after a body that ends with the transaction
    still open or committed once. *)
Lemma Rollback_allOrNothing (db : Server) (t : Tx) :
  (done t = false /\ commits t = 0 /\ rollbacks t = 0)
  \/ (done t = true /\ commits t = 1 /\ rollbacks t = 0 /\ accepted db (sent t) = true) ->
  allOrNothing db (Rollback t).
Proof.
  unfold allOrNothing, Rollback.
  intros [(Hd & Hc & Hr) | (Hd & Hc & Hr & Ha)]; rewrite Hd; cbn.
  - rewrite Hc, Hr. repeat split. discriminate.
  - rewrite Hc, Hr. repeat split; auto.
Qed.

Lemma deferRollback_allOrNothing {A R : Type} (db : Server) (body : M A R)
      (Qok : St A -> Prop) (s : St A) :
  outcome (inProgress db) body Qok (fun s' => stillOpen s' \/ committedOnce db s') ->
  (forall s', Qok s' -> stillOpen s' \/ committedOnce db s') ->
  inProgress db s ->
  allOrNothing db (tx (snd (deferRollback body s)))
  /\ (forall r, fst (deferRollback body s) = Ok r -> Qok (snd (body s))).
Proof.
  intros Hb Hq Hs. specialize (Hb s Hs). unfold deferRollback.
  destruct (body s) as [[r|e] s']; cbn [fst snd tx].
  - split; [|intros _ _; exact Hb].
    apply Rollback_allOrNothing. destruct (Hq _ Hb) as [H|H]; [left | right]; exact H.
  - split; [|discriminate].
    apply Rollback_allOrNothing. destruct Hb as [H|H]; [left | right]; exact H.
Qed.

(** X4. A role update whose transaction was opened finishes it exactly
    once, by a commit or by the deferred rollback; it commits only when the
    server accepted every statement it sent, and it returns no error only if
    it committed. *)
Theorem roleUpdate_all_or_nothing (c : Client) (db : Server) (d : RoleData) :
  begin_result db = None ->
  let out := run (resourcePostgreSQLRoleUpdate c db) d in
  allOrNothing db (tx (snd out))
  /\ (fst out = Ok tt -> commits (tx (snd out)) = 1 /\ rollbacks (tx (snd out)) = 0).
Proof.
  intros Hbegin. cbv zeta.
  unfold resourcePostgreSQLRoleUpdate. rewrite run_Begin_defer, Hbegin.
  match goal with |- context [deferRollback ?b ?s] =>
    destruct (deferRollback_allOrNothing db b (committedOnce db) s) as [Ha Hok];
    [ | right; assumption | apply inProgress_fresh | ];
    [ | split; [exact Ha|] ]
  end.
  - apply (outcome_bind _ (inProgress db)).
    + eapply outcome_weaken; [apply roleUpdateStatements_outcome | auto | left; assumption].
    + intros _. apply (outcome_bind _ (committedOnce db)).
      * eapply outcome_weaken; [apply Commit_outcome | auto | right; assumption].
      * intros _. eapply outcome_weaken;
          [apply RoleReadImpl_outcome | auto | right; assumption].
  - intro H. specialize (Hok tt H).
    match goal with |- context [deferRollback ?b ?s] =>
      destruct (deferRollback_state b s) as (_ & _ & _ & Hc & _);
      pose proof (Rollback_done (tx (snd (b s)))) as Hd
    end.
    destruct Hok as (Hdone & Hcom & Hroll & _).
    rewrite Hc. split; [exact Hcom|].
    unfold deferRollback.
    match goal with |- context [let (_, _) := ?b ?s in _] =>
      destruct (b s) as [r0 s0] end.
    cbn [snd tx] in *. unfold Rollback. rewrite Hdone. exact Hroll.
Qed.

Example roleUpdate_refused_statement :
  let a := setInt roleConnLimitAttr 5 (defaultRole "r") in
  let out := run (resourcePostgreSQLRoleUpdate pgClient
                    (refusing ("ALTER ROLE " ++ dq "r" ++ " CONNECTION LIMIT 5") [] a))
                 (mkData "r" (defaultRole "r") a) in
  fst out = Err (Wrapf "Error updating role CONNECTION LIMIT: {{err}}"
                       (DriverError "permission denied"))
  /\ commits (tx (snd out)) = 0
  /\ rollbacks (tx (snd out)) = 1.
Proof. repeat split; vm_compute; reflexivity. Qed.

(** The update of a connection limit that the server refuses. *)
Lemma roleUpdate_all_or_nothing_witness :
  let a := setInt roleConnLimitAttr 5 (defaultRole "r") in
  let db := refusing ("ALTER ROLE " ++ dq "r" ++ " CONNECTION LIMIT 5") [] a in
  let out := run (resourcePostgreSQLRoleUpdate pgClient db) (mkData "r" (defaultRole "r") a) in
  allOrNothing db (tx (snd out))
  /\ (fst out = Ok tt -> commits (tx (snd out)) = 1 /\ rollbacks (tx (snd out)) = 0).
Proof.
  cbv zeta.
  apply (roleUpdate_all_or_nothing pgClient); reflexivity.
Defined.

Lemma Exec_sent {A : Type} (db : Server) (d : ResourceData A) (l : list string)
      (sql : string) (wrap : error -> error) :
  outcome (openWith db d l) (Exec db sql wrap)
          (openWith db d (l ++ [sql])%list) (failedWith (l ++ [sql])%list).
Proof.
  intros s (HI & Hs & Hd).
  pose proof (Exec_outcome db sql wrap s HI) as H.
  destruct HI as (Hdone & _). subst l.
  unfold Exec in *. rewrite Hdone in *.
  destruct (exec_result db (sent (tx s)) sql); cbn [tx sent rd] in *.
  - split; [exact H | reflexivity].
  - split; [exact H | split; [reflexivity | exact Hd]].
Qed.

Lemma Commit_sent {A : Type} (db : Server) (d : ResourceData A) (l : list string)
      (wrap : error -> error) :
  outcome (openWith db d l) (Commit db wrap) (committedWith db l) (committedWith db l).
Proof.
  intros s (HI & Hs & Hd).
  pose proof (Commit_outcome db wrap s HI) as H.
  destruct (Commit_state db wrap s) as (_ & Hsent).
  destruct (Commit db wrap s) as [[r|e] s']; cbn [snd] in *;
    (split; [exact H | congruence]).
Qed.

(** The loops: every statement of the list when all are accepted, a prefix
    of it when one is refused. *)
Lemma grantEach_sent (db : Server) (d : RoleData) (role : string) (granting : list string) :
  forall l,
    outcome (openWith db d l) (grantEach db role granting)
            (openWith db d (l ++ map (fun g => grantSQL g role) granting)%list)
            (fun s => exists k,
                 failedWith (l ++ firstn k (map (fun g => grantSQL g role) granting))%list s).
Proof.
  induction granting as [|g rest IH]; intro l; cbn [grantEach map].
  - rewrite app_nil_r. apply outcome_ret.
  - eapply outcome_bind.
    + eapply outcome_weaken; [apply Exec_sent | intros s H; exact H |].
      intros s H. exists 1. exact H.
    + intros _. eapply outcome_weaken; [apply IH | |].
      * intros s H. rewrite <- app_assoc in H. exact H.
      * intros s (k & H). exists (S k). rewrite <- app_assoc in H. exact H.
Qed.

Lemma execEach_sent (db : Server) (d : RoleData) (wrap : error -> error)
      (queries : list string) :
  forall l,
    outcome (openWith db d l) (execEach db queries wrap)
            (openWith db d (l ++ queries)%list)
            (fun s => exists k, failedWith (l ++ firstn k queries)%list s).
Proof.
  induction queries as [|q rest IH]; intro l; cbn [execEach].
  - rewrite app_nil_r. apply outcome_ret.
  - eapply outcome_bind.
    + eapply outcome_weaken; [apply Exec_sent | intros s H; exact H |].
      intros s H. exists 1. exact H.
    + intros _. eapply outcome_weaken; [apply IH | |].
      * intros s H. rewrite <- app_assoc in H. exact H.
      * intros s (k & H). exists (S k). rewrite <- app_assoc in H. exact H.
Qed.

(** The deferred rollback after a body that leaves the transaction open
    with part of [full] sent, or committed with all of it. *)
Lemma Rollback_full (db : Server) (full : list string) (part : list string -> Prop) (t : Tx) :
  ((done t = false /\ commits t = 0 /\ rollbacks t = 0) /\ part (sent t))
  \/ ((done t = true /\ commits t = 1 /\ rollbacks t = 0 /\ accepted db (sent t) = true)
      /\ sent t = full) ->
  allOrNothing db (Rollback t)
  /\ (commits (Rollback t) = 1 -> sent (Rollback t) = full)
  /\ (part (sent (Rollback t)) \/ sent (Rollback t) = full).
Proof.
  intros H. split.
  - apply Rollback_allOrNothing. destruct H as [[H _]|[H _]]; [left | right]; exact H.
  - rewrite Rollback_sent, Rollback_commits.
    destruct H as [[(_ & Hc & _) Hp]|[_ Hf]].
    + split; [rewrite Hc; discriminate | left; exact Hp].
    + split; [intros _; exact Hf | right; exact Hf].
Qed.

Lemma openWith_fresh {A : Type} (db : Server) (d : ResourceData A) :
  openWith db d [] (mkSt newTx d).
Proof. repeat split. Qed.

Lemma grantRoles_sent (db : Server) (d : RoleData) (l : list string) :
  let grants := map (fun g => grantSQL g (strs (attrs d) roleNameAttr)) (roles (attrs d)) in
  outcome (openWith db d l) (grantRoles db)
          (openWith db d (l ++ grants)%list)
          (fun s => exists k, failedWith (l ++ firstn k grants)%list s).
Proof.
  intros grants s HP. pose proof HP as (_ & _ & Hrd).
  unfold grantRoles, bind, getd. cbn [fst snd]. rewrite Hrd.
  apply grantEach_sent. exact HP.
Qed.

Lemma SetId_ReadImpl_committed (c : Client) (db : Server) (id : string) (l : list string) :
  outcome (committedWith db l) (SetId id ;; resourcePostgreSQLRoleReadImpl c db)
          (committedWith db l) (committedWith db l).
Proof.
  intros s H. unfold bind, SetId.
  pose proof (RoleReadImpl_tx c db
                (mkSt (tx s) (mkData id (prior (rd s)) (attrs (rd s))))) as Ht.
  destruct (resourcePostgreSQLRoleReadImpl c db _) as [[r|e] s'];
    cbn [snd tx] in Ht; unfold committedWith, committedOnce; rewrite Ht; exact H.
Qed.

(** The steps of a create after [d] was read. *)
Lemma roleCreate_steps (c : Client) (db : Server) (d : RoleData) :
  let create := roleCreateSQL c (attrs d) in
  let roleName := strs (attrs d) roleNameAttr in
  let grants := map (fun g => grantSQL g roleName) (roles (attrs d)) in
  outcome (openWith db d [])
          (Exec db create (Wrapf ("error creating role " ++ roleName ++ ": {{err}}")) ;;
           grantRoles db ;;
           Commit db (Wrapf "could not commit transaction: {{err}}") ;;
           SetId roleName ;;
           resourcePostgreSQLRoleReadImpl c db)
          (committedWith db (create :: grants))
          (fun s => (exists k, failedWith (create :: firstn k grants) s)
                    \/ committedWith db (create :: grants) s).
Proof.
  intros create roleName grants.
  eapply outcome_bind.
  - eapply outcome_weaken; [apply (Exec_sent db d [] create) | intros s H; exact H |].
    intros s H. left. exists 0. exact H.
  - intros _. eapply outcome_bind.
    + eapply outcome_weaken; [apply (grantRoles_sent db d [create]) | intros s H; exact H |].
      intros s (k & H). left. exists k. exact H.
    + intros _. eapply outcome_bind.
      * eapply outcome_weaken;
          [apply (Commit_sent db d (create :: grants)) | intros s H; exact H |].
        intros s H. right. exact H.
      * intros _. eapply outcome_weaken;
          [apply SetId_ReadImpl_committed | intros s H; exact H |].
        intros s H. right. exact H.
Qed.

Lemma roleCreate_run (c : Client) (db : Server) (d : RoleData) :
  run (resourcePostgreSQLRoleCreate c db) d
  = match begin_result db with
    | Some e => (Err e, mkSt newTx d)
    | None =>
        deferRollback
          (Exec db (roleCreateSQL c (attrs d))
                (Wrapf ("error creating role " ++ strs (attrs d) roleNameAttr ++ ": {{err}}")) ;;
           grantRoles db ;;
           Commit db (Wrapf "could not commit transaction: {{err}}") ;;
           SetId (strs (attrs d) roleNameAttr) ;;
           resourcePostgreSQLRoleReadImpl c db)
          (mkSt newTx d)
    end.
Proof.
  unfold resourcePostgreSQLRoleCreate. rewrite run_Begin_defer.
  destruct (begin_result db); reflexivity.
Qed.

(** The statements of a create: the CREATE ROLE, then a first part of the
    grants, and all of them when it committed. *)
Lemma roleCreate_sent (c : Client) (db : Server) (d : RoleData) :
  begin_result db = None ->
  let out := run (resourcePostgreSQLRoleCreate c db) d in
  let create := roleCreateSQL c (attrs d) in
  let grants := map (fun g => grantSQL g (strs (attrs d) roleNameAttr)) (roles (attrs d)) in
  allOrNothing db (tx (snd out))
  /\ (exists k, sent (tx (snd out)) = create :: firstn k grants)
  /\ (commits (tx (snd out)) = 1 -> sent (tx (snd out)) = create :: grants)
  /\ (fst out = Ok tt -> commits (tx (snd out)) = 1).
Proof.
  intros Hbegin. cbv zeta.
  rewrite roleCreate_run, Hbegin.
  pose proof (roleCreate_steps c db d (mkSt newTx d) (openWith_fresh db d)) as H.
  cbv zeta in H.
  match goal with |- context [deferRollback ?b ?s] =>
    unfold deferRollback; destruct (b s) as [[r|e] s'] end; cbn [fst snd tx].
  - destruct H as ((Hd & Hc & Hr & Ha) & Hs).
    match type of Hs with _ = ?full =>
      destruct (Rollback_full db full
                  (fun l => exists k, l = roleCreateSQL c (attrs d)
                                        :: firstn k (map (fun g => grantSQL g (strs (attrs d) roleNameAttr))
                                                         (roles (attrs d))))
                  (tx s')) as (H1 & H2 & H3)
    end.
    { right. repeat split; assumption. }
    split; [exact H1|]. split; [|split; [exact H2|]].
    + destruct H3 as [H3|H3]; [exact H3|].
      eexists. rewrite firstn_all. exact H3.
    + intros _. rewrite Rollback_commits. exact Hc.
  - match goal with |- context [?c0 :: map ?f ?l] =>
      destruct (Rollback_full db (c0 :: map f l)
                  (fun l' => exists k, l' = c0 :: firstn k (map f l))
                  (tx s')) as (H1 & H2 & H3)
    end.
    { destruct H as [(k & Ho & Hs)|((Hd & Hc & Hr & Ha) & Hs)].
      - left. split; [exact Ho | exists k; exact Hs].
      - right. repeat split; assumption. }
    split; [exact H1|]. split; [|split; [exact H2|discriminate]].
    destruct H3 as [H3|H3]; [exact H3|].
    eexists. rewrite firstn_all. exact H3.
Qed.

(** Accepted statements stay accepted without the last of them. *)
Lemma accepted_removelast (db : Server) (l : list string) :
  accepted db l = true -> accepted db (removelast l) = true.
Proof.
  destruct l as [|x l0] using rev_ind; [auto|].
  rewrite removelast_last. unfold accepted. rewrite acceptedFrom_snoc.
  intros H. apply andb_true_iff in H. apply H.
Qed.

(** A statement sent on an open transaction on which everything was
    accepted so far: refused, it is the last one sent. *)
Lemma Exec_refused {A : Type} (db : Server) (sql : string) (wrap : error -> error) :
  outcome (@inProgress A db) (Exec db sql wrap) (inProgress db) (stoppedAtRefusal db).
Proof.
  intros s HI. pose proof (Exec_outcome db sql wrap s HI) as H.
  destruct HI as (Hd & Hc & Hr & Ha).
  unfold Exec in *. rewrite Hd in *.
  destruct (exec_result db (sent (tx s)) sql) eqn:E; [|exact H].
  split; [exact H|]. cbn [tx sent]. rewrite removelast_last. split; [exact Ha|].
  unfold accepted in *. rewrite acceptedFrom_snoc, Ha. cbn [app]. now rewrite E.
Qed.

Lemma grantEach_refused (db : Server) (role : string) (granting : list string) :
  outcome (inProgress db) (grantEach db role granting) (inProgress db) (stoppedAtRefusal db).
Proof.
  induction granting as [|g rest IH]; cbn [grantEach].
  - apply outcome_ret.
  - apply (outcome_bind _ (inProgress db)); [apply Exec_refused | intros _; exact IH].
Qed.

Lemma grantRoles_refused (db : Server) :
  outcome (inProgress db) (grantRoles db) (inProgress db) (stoppedAtRefusal db).
Proof.
  intros s HI. unfold grantRoles, bind, getd. cbn [fst snd].
  apply grantEach_refused. exact HI.
Qed.

(** A create ends committed, or stopped at a statement the server refused. *)
Lemma roleCreate_refusal (c : Client) (db : Server) (sql roleName : string)
      (wrap wrap' : error -> error) :
  outcome (inProgress db)
          (Exec db sql wrap ;;
           grantRoles db ;;
           Commit db wrap' ;;
           SetId roleName ;;
           resourcePostgreSQLRoleReadImpl c db)
          (committedOnce db)
          (fun s => stoppedAtRefusal db s \/ committedOnce db s).
Proof.
  apply (outcome_bind _ (inProgress db)).
  { eapply outcome_weaken; [apply Exec_refused | auto | left; assumption]. }
  intros _. apply (outcome_bind _ (inProgress db)).
  { eapply outcome_weaken; [apply grantRoles_refused | auto | left; assumption]. }
  intros _. apply (outcome_bind _ (committedOnce db)).
  { eapply outcome_weaken; [apply Commit_outcome | auto | right; assumption]. }
  intros _ s H. unfold bind, SetId.
  pose proof (RoleReadImpl_tx c db
                (mkSt (tx s) (mkData roleName (prior (rd s)) (attrs (rd s))))) as Ht.
  destruct (resourcePostgreSQLRoleReadImpl c db _) as [[r|e] s'];
    cbn [snd tx] in Ht; [|right]; unfold committedOnce; rewrite Ht; exact H.
Qed.

(** X5. A role create whose transaction was opened sends the CREATE ROLE
    statement first and then the GRANT statements of the configured roles,
    in order, and stops at the first statement the server refuses: every
    statement sent before the last one was accepted, and when nothing was
    committed the last one sent was refused. It finishes the transaction
    exactly once, commits only when all the statements were sent and
    accepted, and returns no error only if it committed. *)
Theorem roleCreate_all_or_nothing (c : Client) (db : Server) (d : RoleData) :
  begin_result db = None ->
  let out := run (resourcePostgreSQLRoleCreate c db) d in
  let create := roleCreateSQL c (attrs d) in
  let grants :=
    map (fun g => "GRANT " ++ pq.QuoteIdentifier g ++ " TO "
                  ++ pq.QuoteIdentifier (strs (attrs d) roleNameAttr))
        (roles (attrs d)) in
  allOrNothing db (tx (snd out))
  /\ (exists k, sent (tx (snd out)) = create :: firstn k grants)
  /\ (commits (tx (snd out)) = 1 -> sent (tx (snd out)) = create :: grants)
  /\ (fst out = Ok tt -> commits (tx (snd out)) = 1)
  /\ accepted db (removelast (sent (tx (snd out)))) = true
  /\ (commits (tx (snd out)) <> 1 -> accepted db (sent (tx (snd out))) = false).
Proof.
  intros Hbegin. cbv zeta.
  destruct (roleCreate_sent c db d Hbegin) as (H1 & H2 & H3 & H4).
  do 4 (split; [assumption|]). clear H1 H2 H3 H4.
  rewrite roleCreate_run, Hbegin.
  match goal with |- context [deferRollback (Exec db ?q ?w ;; _ ;; Commit db ?w' ;; SetId ?n ;; _) ?s] =>
    pose proof (roleCreate_refusal c db q n w w' s (inProgress_fresh db d)) as H;
    unfold deferRollback;
    destruct ((Exec db q w ;; grantRoles db ;; Commit db w' ;; SetId n ;;
               resourcePostgreSQLRoleReadImpl c db) s) as [[r|e] s']
  end; cbn [fst snd tx]; rewrite Rollback_sent, Rollback_commits.
  - destruct H as (_ & Hc & _ & Ha).
    split; [apply accepted_removelast; exact Ha | rewrite Hc; intros Hn; now contradiction Hn].
  - destruct H as [((_ & Hc & _) & Hl & Hr) | (_ & Hc & _ & Ha)].
    + split; [exact Hl | intros _; exact Hr].
    + split; [apply accepted_removelast; exact Ha | rewrite Hc; intros Hn; now contradiction Hn].
Qed.

Example roleCreate_refused_grant :
  let a := setRoles ["c"; "b"; "a"] (defaultRole "r") in
  let out := run (resourcePostgreSQLRoleCreate pgClient
                    (refusing ("GRANT " ++ dq "b" ++ " TO " ++ dq "r") [] a))
                 (mkData "" a a) in
  pgArrayToSet ["a"; "b"; "c"] = ["c"; "b"; "a"]
  /\ sent (tx (snd out))
     = [ roleCreateSQL pgClient a;
         "GRANT " ++ dq "c" ++ " TO " ++ dq "r";
         "GRANT " ++ dq "b" ++ " TO " ++ dq "r" ]
  /\ commits (tx (snd out)) = 0
  /\ rollbacks (tx (snd out)) = 1
  /\ Id (rd (snd out)) = "".
Proof. repeat split; vm_compute; reflexivity. Qed.

(** The create of a role with three memberships (in the order of their hash
    codes), the second of which the server refuses: the third is not
    sent. *)
Lemma roleCreate_all_or_nothing_witness :
  let a := setRoles ["c"; "b"; "a"] (defaultRole "r") in
  let db := refusing ("GRANT " ++ dq "b" ++ " TO " ++ dq "r") [] a in
  let out := run (resourcePostgreSQLRoleCreate pgClient db) (mkData "" a a) in
  let create := roleCreateSQL pgClient a in
  let grants := [ "GRANT " ++ dq "c" ++ " TO " ++ dq "r";
                  "GRANT " ++ dq "b" ++ " TO " ++ dq "r";
                  "GRANT " ++ dq "a" ++ " TO " ++ dq "r" ] in
  allOrNothing db (tx (snd out))
  /\ (exists k, sent (tx (snd out)) = create :: firstn k grants)
  /\ (commits (tx (snd out)) = 1 -> sent (tx (snd out)) = create :: grants)
  /\ (fst out = Ok tt -> commits (tx (snd out)) = 1)
  /\ accepted db (removelast (sent (tx (snd out)))) = true
  /\ (commits (tx (snd out)) <> 1 -> accepted db (sent (tx (snd out))) = false).
Proof.
  cbv zeta.
  apply (roleCreate_all_or_nothing pgClient); reflexivity.
Defined.

Lemma roleDelete_run (c : Client) (db : Server) (d : RoleData) :
  run (resourcePostgreSQLRoleDelete c db) d
  = match begin_result db with
    | Some e => (Err e, mkSt newTx d)
    | None =>
        deferRollback
          ((if Nat.ltb 0 (length (roleDeleteQueries c (attrs d))) then
              execEach db (roleDeleteQueries c (attrs d)) (Wrapf "Error deleting role: {{err}}") ;;
              Commit db (Wrapf "Error committing schema: {{err}}")
            else ret tt) ;;
           SetId "")
          (mkSt newTx d)
    end.
Proof.
  unfold resourcePostgreSQLRoleDelete. rewrite run_Begin_defer.
  destruct (begin_result db); reflexivity.
Qed.

(** The steps of a delete after [d] was read. *)
Lemma roleDelete_steps (c : Client) (db : Server) (d : RoleData) :
  let queries := roleDeleteQueries c (attrs d) in
  outcome (openWith db d [])
          ((if Nat.ltb 0 (length queries) then
              execEach db queries (Wrapf "Error deleting role: {{err}}") ;;
              Commit db (Wrapf "Error committing schema: {{err}}")
            else ret tt) ;;
           SetId "")
          (fun s => Id (rd s) = ""
                    /\ (committedWith db queries s \/ (failedWith [] s /\ queries = [])))
          (fun s => (exists k, failedWith (firstn k queries) s)
                    \/ committedWith db queries s).
Proof.
  intros queries.
  destruct (Nat.ltb 0 (length queries)) eqn:Hlen.
  - eapply outcome_bind with (Q := committedWith db queries).
    + eapply outcome_bind.
      * eapply outcome_weaken; [apply (execEach_sent db d _ queries []) | intros s H; exact H |].
        intros s H. left. exact H.
      * intros _. eapply outcome_weaken;
          [apply (Commit_sent db d queries) | intros s H; exact H |].
        intros s H. right. exact H.
    + intros _ s H. cbn. split; [reflexivity | left; exact H].
  - apply Nat.ltb_ge in Hlen.
    assert (Hq : queries = []) by (destruct queries; [reflexivity | simpl in Hlen; lia]).
    intros s (HI & Hs & _). cbn. split; [reflexivity|].
    right. split; [|exact Hq].
    split; [exact (inProgress_stillOpen _ _ HI) | exact Hs].
Qed.

(** X6. A role delete whose transaction was opened finishes it exactly
    once; it commits only when every statement of its queries was sent and
    accepted, and it returns no error (with the id cleared) only when all of
    them were sent. *)
Theorem roleDelete_all_or_nothing (c : Client) (db : Server) (d : RoleData) :
  begin_result db = None ->
  let out := run (resourcePostgreSQLRoleDelete c db) d in
  let queries := roleDeleteQueries c (attrs d) in
  allOrNothing db (tx (snd out))
  /\ (commits (tx (snd out)) = 1 -> sent (tx (snd out)) = queries)
  /\ (fst out = Ok tt -> Id (rd (snd out)) = "" /\ sent (tx (snd out)) = queries).
Proof.
  intros Hbegin. cbv zeta.
  rewrite roleDelete_run, Hbegin.
  pose proof (roleDelete_steps c db d (mkSt newTx d) (openWith_fresh db d)) as H.
  cbv zeta in H.
  match goal with |- context [deferRollback ?b ?s] =>
    unfold deferRollback; destruct (b s) as [[r|e] s'] end; cbn [fst snd tx rd].
  - destruct H as (Hid & H).
    destruct (Rollback_full db (roleDeleteQueries c (attrs d))
                (fun l => l = [] /\ roleDeleteQueries c (attrs d) = []) (tx s'))
      as (H1 & H2 & H3).
    { destruct H as [((Hd & Hc & Hr & Ha) & Hs)|((Ho & Hs) & Hq)].
      - right. repeat split; assumption.
      - left. repeat split; try apply Ho; assumption. }
    split; [exact H1|]. split; [exact H2|].
    intros _. split; [exact Hid|].
    destruct H3 as [(H3 & Hq)|H3]; congruence.
  - destruct (Rollback_full db (roleDeleteQueries c (attrs d))
                (fun l => exists k, l = firstn k (roleDeleteQueries c (attrs d))) (tx s'))
      as (H1 & H2 & _).
    { destruct H as [(k & Ho & Hs)|((Hd & Hc & Hr & Ha) & Hs)].
      - left. split; [exact Ho | exists k; exact Hs].
      - right. repeat split; assumption. }
    split; [exact H1|]. split; [exact H2 | discriminate].
Qed.

Example roleDelete_refused_drop :
  let a := defaultRole "r" in
  let out := run (resourcePostgreSQLRoleDelete pgClient (refusing ("DROP OWNED BY " ++ dq "r") [] a))
                 (mkData "r" a a) in
  fst out = Err (Wrapf "Error deleting role: {{err}}" (DriverError "permission denied"))
  /\ sent (tx (snd out))
     = [ "REASSIGN OWNED BY " ++ dq "r" ++ " TO CURRENT_USER"; "DROP OWNED BY " ++ dq "r" ]
  /\ commits (tx (snd out)) = 0
  /\ rollbacks (tx (snd out)) = 1
  /\ Id (rd (snd out)) = "r".
Proof. repeat split; vm_compute; reflexivity. Qed.

(** The delete of a role whose DROP OWNED the server refuses. *)
Lemma roleDelete_all_or_nothing_witness :
  let a := defaultRole "r" in
  let db := refusing ("DROP OWNED BY " ++ dq "r") [] a in
  let out := run (resourcePostgreSQLRoleDelete pgClient db) (mkData "r" a a) in
  let queries := roleDeleteQueries pgClient a in
  allOrNothing db (tx (snd out))
  /\ (commits (tx (snd out)) = 1 -> sent (tx (snd out)) = queries)
  /\ (fst out = Ok tt -> Id (rd (snd out)) = "" /\ sent (tx (snd out)) = queries).
Proof.
  cbv zeta.
  apply (roleDelete_all_or_nothing pgClient); reflexivity.
Defined.

(* ===================================================================== *)
(** ** Updates that change nothing, and updates that cannot be made *)
(* ===================================================================== *)

Lemma bind_ok {A R R' : Type} (m : M A R) (f : R -> M A R') (s s' : St A) (r : R) :
  m s = (Ok r, s') -> bind m f s = f r s'.
Proof. intro H. unfold bind. now rewrite H. Qed.

Ltac setter_unchanged :=
  let Hb := fresh "Hb" in
  let Hs := fresh "Hs" in
  let Hi := fresh "Hi" in
  intros (Hb & Hs & Hi);
  unfold bind, getd, HasChangeBool, HasChangeString, HasChangeInt; cbn [fst snd];
  rewrite ?Hb, ?Hs, ?Hi, ?Bool.eqb_reflx, ?String.eqb_refl, ?Z.eqb_refl;
  reflexivity.

(** With no attribute changed, the setters send nothing. *)
Lemma roleUpdateStatements_unchanged (c : Client) (db : Server) (s : St RoleAttrs) :
  unchangedAttributes (rd s) ->
  roleUpdateStatements c db s = (revokeRoles db ;; grantRoles db) s.
Proof.
  intros H.
  assert (H1 : setRoleName db s = (Ok tt, s)) by (revert H; unfold setRoleName; setter_unchanged).
  assert (H2 : setRoleBypassRLS c db s = (Ok tt, s))
    by (revert H; unfold setRoleBypassRLS; setter_unchanged).
  assert (H3 : setRoleConnLimit db s = (Ok tt, s))
    by (revert H; unfold setRoleConnLimit; setter_unchanged).
  assert (H4 : setRoleCreateDB db s = (Ok tt, s))
    by (revert H; unfold setRoleCreateDB; setter_unchanged).
  assert (H5 : setRoleCreateRole db s = (Ok tt, s))
    by (revert H; unfold setRoleCreateRole; setter_unchanged).
  assert (H6 : setRoleInherit db s = (Ok tt, s))
    by (revert H; unfold setRoleInherit; setter_unchanged).
  assert (H7 : setRoleLogin db s = (Ok tt, s))
    by (revert H; unfold setRoleLogin; setter_unchanged).
  assert (H8 : setRoleReplication db s = (Ok tt, s))
    by (revert H; unfold setRoleReplication; setter_unchanged).
  assert (H9 : setRoleSuperuser db s = (Ok tt, s))
    by (revert H; unfold setRoleSuperuser; setter_unchanged).
  assert (H10 : setRoleValidUntil db s = (Ok tt, s))
    by (revert H; unfold setRoleValidUntil; setter_unchanged).
  unfold roleUpdateStatements.
  rewrite (bind_ok _ _ _ _ _ H1), (bind_ok _ _ _ _ _ H2), (bind_ok _ _ _ _ _ H3),
    (bind_ok _ _ _ _ _ H4), (bind_ok _ _ _ _ _ H5), (bind_ok _ _ _ _ _ H6),
    (bind_ok _ _ _ _ _ H7), (bind_ok _ _ _ _ _ H8), (bind_ok _ _ _ _ _ H9),
    (bind_ok _ _ _ _ _ H10).
  reflexivity.
Qed.

(** [Commit] on an open transaction finishes it, whatever the server
    answers. *)
Lemma Commit_open {A : Type} (db : Server) (wrap : error -> error) (s : St A) :
  done (tx s) = false ->
  exists r,
    Commit db wrap s
    = (r, mkSt (mkTx (sent (tx s)) (S (commits (tx s))) (rollbacks (tx s)) true) (rd s)).
Proof.
  intro Hd. unfold Commit. rewrite Hd.
  destruct (commit_result db (sent (tx s))); eexists; reflexivity.
Qed.

(** The two membership steps on a server that accepts every statement. *)
Lemma membership_steps_ok (db : Server) (s : St RoleAttrs) (current : list string) :
  done (tx s) = false ->
  applicable_roles db (sent (tx s)) (strs (attrs (rd s)) roleNameAttr) = Ok (map Ok current) ->
  (forall before sql, exec_result db before sql = None) ->
  (revokeRoles db ;; grantRoles db) s
  = (Ok tt,
     mkSt (mkTx (sent (tx s)
                 ++ map (fun g => revokeSQL g (strs (attrs (rd s)) roleNameAttr)) current
                 ++ map (fun g => grantSQL g (strs (attrs (rd s)) roleNameAttr))
                        (roles (attrs (rd s))))%list
                (commits (tx s)) (rollbacks (tx s)) false)
          (rd s)).
Proof.
  intros Hd Hq Hok.
  unfold revokeRoles, grantRoles, QueryRoles, bind, getd. cbn [fst snd].
  rewrite Hd, Hq, scanRoles_ok.
  rewrite (revokeEach_ok db _ current Hok s Hd). cbn [rd tx sent commits rollbacks].
  rewrite (grantEach_ok db _ _ Hok) by reflexivity.
  cbn [rd tx sent commits rollbacks].
  now rewrite <- app_assoc.
Qed.

(** X7. A role update in which no attribute differs from the prior state,
    on a server that accepts every statement: no ALTER ROLE is sent; the
    statements are the REVOKE of every role the catalog reports followed by
    the GRANT of every configured role, and the transaction is committed. *)
Theorem roleUpdate_unchanged_attributes
    (c : Client) (db : Server) (d : RoleData) (current : list string) :
  unchangedAttributes d ->
  begin_result db = None ->
  (forall before sql, exec_result db before sql = None) ->
  applicable_roles db [] (strs (attrs d) roleNameAttr) = Ok (map Ok current) ->
  let out := run (resourcePostgreSQLRoleUpdate c db) d in
  sent (tx (snd out))
  = (map (fun g => revokeSQL g (strs (attrs d) roleNameAttr)) current
     ++ map (fun g => grantSQL g (strs (attrs d) roleNameAttr)) (roles (attrs d)))%list
  /\ commits (tx (snd out)) = 1
  /\ rollbacks (tx (snd out)) = 0.
Proof.
  intros Hun Hbegin Hok Hq. cbv zeta.
  assert (Hfin : tx (snd (run (resourcePostgreSQLRoleUpdate c db) d))
                 = mkTx (map (fun g => revokeSQL g (strs (attrs d) roleNameAttr)) current
                         ++ map (fun g => grantSQL g (strs (attrs d) roleNameAttr))
                                (roles (attrs d)))%list 1 0 true).
  { unfold resourcePostgreSQLRoleUpdate. rewrite run_Begin_defer, Hbegin.
    unfold deferRollback.
    assert (Hroles : roleUpdateStatements c db (mkSt newTx d)
                     = (Ok tt,
                        mkSt (mkTx (map (fun g => revokeSQL g (strs (attrs d) roleNameAttr)) current
                                    ++ map (fun g => grantSQL g (strs (attrs d) roleNameAttr))
                                           (roles (attrs d)))%list 0 0 false) d)).
    { rewrite roleUpdateStatements_unchanged by exact Hun.
      rewrite (membership_steps_ok db (mkSt newTx d) current);
        [reflexivity | reflexivity | exact Hq | exact Hok]. }
    rewrite (bind_ok _ _ _ _ _ Hroles).
    unfold bind at 1.
    match goal with |- context [Commit db ?w ?s0] =>
      destruct (Commit_open db w s0 eq_refl) as [r Hc]; rewrite Hc; clear Hc
    end.
    destruct r as [u|e]; [|reflexivity].
    match goal with |- context [resourcePostgreSQLRoleReadImpl c db ?s0] =>
      pose proof (RoleReadImpl_tx c db s0) as Ht;
      destruct (resourcePostgreSQLRoleReadImpl c db s0) as [r s']
    end.
    cbn [snd tx] in *. rewrite Ht. reflexivity. }
  rewrite Hfin. repeat split.
Qed.

(** An update of a role that is a member of [b] and is configured with
    [a], nothing else differing. *)
Lemma roleUpdate_unchanged_attributes_witness :
  let a := setRoles ["a"] (defaultRole "r") in
  let out := run (resourcePostgreSQLRoleUpdate pgClient (okServer ["b"] a)) (mkData "r" a a) in
  sent (tx (snd out)) = [ revokeSQL "b" "r"; grantSQL "a" "r" ]
  /\ commits (tx (snd out)) = 1
  /\ rollbacks (tx (snd out)) = 0.
Proof.
  cbv zeta.
  apply (roleUpdate_unchanged_attributes pgClient
           (okServer ["b"] (setRoles ["a"] (defaultRole "r")))
           (mkData "r" (setRoles ["a"] (defaultRole "r")) (setRoles ["a"] (defaultRole "r")))
           ["b"]);
    try reflexivity.
  repeat split; reflexivity.
Defined.

(** X8. A role update that renames the role to the empty string fails
    with the error of [setRoleName] before anything is sent; the transaction
    is rolled back and the resource data is left as it was. *)
Theorem roleUpdate_empty_name (c : Client) (db : Server) (d : RoleData) :
  begin_result db = None ->
  strs (prior d) roleNameAttr <> "" ->
  strs (attrs d) roleNameAttr = "" ->
  run (resourcePostgreSQLRoleUpdate c db) d
  = (Err (Errorf "Error setting role name to an empty string"),
     mkSt (mkTx [] 0 1 true) d).
Proof.
  intros Hbegin Ho Hn.
  unfold resourcePostgreSQLRoleUpdate. rewrite run_Begin_defer, Hbegin.
  unfold deferRollback, roleUpdateStatements, setRoleName, HasChangeString.
  unfold bind at 1. unfold bind at 1. unfold bind at 1. unfold getd at 1.
  cbn [fst snd rd]. rewrite Hn.
  apply String.eqb_neq in Ho. rewrite Ho. reflexivity.
Qed.

Lemma roleUpdate_empty_name_witness :
  run (resourcePostgreSQLRoleUpdate pgClient (okServer [] (defaultRole "r")))
      (mkData "r" (defaultRole "r") (defaultRole ""))
  = (Err (Errorf "Error setting role name to an empty string"),
     mkSt (mkTx [] 0 1 true) (mkData "r" (defaultRole "r") (defaultRole ""))).
Proof.
  apply (roleUpdate_empty_name pgClient (okServer [] (defaultRole "r"))
           (mkData "r" (defaultRole "r") (defaultRole "")));
    [reflexivity | discriminate | reflexivity].
Defined.

(** X9. A role update that changes [bypass_row_level_security] (and not the
    name) against a server without row-level security fails with the error
    of [setRoleBypassRLS] before anything is sent; the transaction is rolled
    back. *)
Theorem roleUpdate_bypassrls_unsupported (c : Client) (db : Server) (d : RoleData) :
  begin_result db = None ->
  strs (prior d) roleNameAttr = strs (attrs d) roleNameAttr ->
  bools (prior d) roleBypassRLSAttr <> bools (attrs d) roleBypassRLSAttr ->
  featureSupported c featureRLS = false ->
  run (resourcePostgreSQLRoleUpdate c db) d
  = (Err (Errorf ("PostgreSQL client is talking with a server (" ++ str1 dquote
                  ++ version_String c ++ str1 dquote
                  ++ ") that does not support PostgreSQL Row-Level Security")),
     mkSt (mkTx [] 0 1 true) d).
Proof.
  intros Hbegin Hname Hrls Hfeat.
  unfold resourcePostgreSQLRoleUpdate. rewrite run_Begin_defer, Hbegin.
  unfold deferRollback, roleUpdateStatements.
  assert (H1 : setRoleName db (mkSt newTx d) = (Ok tt, mkSt newTx d)).
  { unfold setRoleName, bind, getd, HasChangeString. cbn [fst snd rd].
    rewrite Hname, String.eqb_refl. reflexivity. }
  unfold bind at 1. rewrite (bind_ok _ _ _ _ _ H1).
  unfold bind at 1. unfold setRoleBypassRLS, bind, getd, HasChangeBool. cbn [fst snd rd].
  rewrite Hfeat.
  destruct (bools (prior d) roleBypassRLSAttr), (bools (attrs d) roleBypassRLSAttr);
    try reflexivity; contradiction.
Qed.

Lemma roleUpdate_bypassrls_unsupported_witness :
  let c := mkClient "postgres" "admin" "9.4.0" (fun _ => false) in
  let d := mkData "r" (defaultRole "r") (setBool roleBypassRLSAttr true (defaultRole "r")) in
  run (resourcePostgreSQLRoleUpdate c (okServer [] (defaultRole "r"))) d
  = (Err (Errorf ("PostgreSQL client is talking with a server (" ++ str1 dquote
                  ++ "9.4.0" ++ str1 dquote
                  ++ ") that does not support PostgreSQL Row-Level Security")),
     mkSt (mkTx [] 0 1 true) d).
Proof.
  cbv zeta.
  apply (roleUpdate_bypassrls_unsupported
           (mkClient "postgres" "admin" "9.4.0" (fun _ => false))
           (okServer [] (defaultRole "r"))
           (mkData "r" (defaultRole "r") (setBool roleBypassRLSAttr true (defaultRole "r"))));
    [reflexivity | reflexivity | discriminate | reflexivity].
Defined.

(* ===================================================================== *)
(** ** The keywords of CREATE ROLE *)
(* ===================================================================== *)

(** The options built from the password, the expiry and the connection
    limit are none of the attribute keywords. *)
Lemma valueOpts_not_keyword (a : RoleAttrs) (k : string) :
  In k [ "CREATEROLE"; "NOCREATEROLE"; "INHERIT"; "NOINHERIT"; "LOGIN"; "NOLOGIN";
         "REPLICATION"; "NOREPLICATION"; "BYPASSRLS"; "NOBYPASSRLS" ] ->
  ~ In k (flat_map (createStringOpt a) stringOpts ++ map (createIntOpt a) intOpts)%list.
Proof.
  intros Hk Hin.
  unfold stringOpts, intOpts, createStringOpt, createIntOpt, GetOk in Hin.
  cbn [flat_map map app stringAttr_beq] in Hin.
  repeat match type of Hin with
         | context [if ?b then _ else _] => destruct b
         end;
    cbn [app In] in Hin, Hk;
    repeat (destruct Hk as [<-|Hk]; [|]); try contradiction;
    repeat (destruct Hin as [Hin|Hin]; [try discriminate Hin|]); try contradiction.
Qed.

Lemma In_createOpts_keyword (c : Client) (a : RoleAttrs) (k : string) :
  In k [ "CREATEROLE"; "NOCREATEROLE"; "INHERIT"; "NOINHERIT"; "LOGIN"; "NOLOGIN";
         "REPLICATION"; "NOREPLICATION"; "BYPASSRLS"; "NOBYPASSRLS" ] ->
  In k (roleCreateOpts c a) <-> In k (flat_map (createBoolOpt a) (boolOpts c)).
Proof.
  intro Hk. unfold roleCreateOpts. rewrite app_assoc, in_app_iff.
  pose proof (valueOpts_not_keyword a k Hk). tauto.
Qed.

Ltac keyword_iff :=
  match goal with
  | |- In ?k (roleCreateOpts ?c ?a) <-> _ =>
      rewrite (In_createOpts_keyword c a k) by (cbn [In]; tauto);
      unfold boolOpts, createBoolOpt;
      destruct (featureSupported c featureRLS);
      cbn [app flat_map boolAttr_beq hclKey sqlKeyEnable sqlKeyDisable In];
      destruct (bools a roleSuperuserAttr), (bools a roleCreateRoleAttr),
        (bools a roleInheritAttr), (bools a roleLoginAttr),
        (bools a roleReplicationAttr), (bools a roleBypassRLSAttr);
      (split;
       [ let H := fresh "H" in
         intro H;
         repeat (destruct H as [H|H]; [try discriminate H|]);
         try contradiction; auto
       | let H := fresh "H" in
         intro H;
         first [ lazymatch type of H with
                 | _ /\ _ =>
                     let H1 := fresh "H" in
                     let H2 := fresh "H" in
                     destruct H as [H1 H2]; first [discriminate H1 | discriminate H2]
                 | _ => discriminate H
                 end
               | solve [ clear H; repeat (first [left; reflexivity | right]) ] ] ])
  end.

(** X10. In the CREATE ROLE statement each of [create_role], [inherit],
    [login] and [replication] is rendered by its own keyword, the enabling
    one exactly when the attribute is true and the disabling one exactly
    when it is false; BYPASSRLS and NOBYPASSRLS appear, by
    [bypass_row_level_security], only when the server supports row-level
    security. *)
Theorem roleCreateOpts_keywords (c : Client) (a : RoleAttrs) :
  let opts := roleCreateOpts c a in
  (In "CREATEROLE" opts <-> bools a roleCreateRoleAttr = true)
  /\ (In "NOCREATEROLE" opts <-> bools a roleCreateRoleAttr = false)
  /\ (In "INHERIT" opts <-> bools a roleInheritAttr = true)
  /\ (In "NOINHERIT" opts <-> bools a roleInheritAttr = false)
  /\ (In "LOGIN" opts <-> bools a roleLoginAttr = true)
  /\ (In "NOLOGIN" opts <-> bools a roleLoginAttr = false)
  /\ (In "REPLICATION" opts <-> bools a roleReplicationAttr = true)
  /\ (In "NOREPLICATION" opts <-> bools a roleReplicationAttr = false)
  /\ (In "BYPASSRLS" opts
      <-> featureSupported c featureRLS = true /\ bools a roleBypassRLSAttr = true)
  /\ (In "NOBYPASSRLS" opts
      <-> featureSupported c featureRLS = true /\ bools a roleBypassRLSAttr = false).
Proof.
  cbv zeta. repeat match goal with |- _ /\ _ => split end; keyword_iff.
Qed.

(* ===================================================================== *)
(** ** Reading a role back *)
(* ===================================================================== *)

(** The provider's acceptance tests give the hash codes of three role
    names (the attribute [roles.1456111905] holds [tf_tests_myrole2]); they
    are the codes computed here. *)
Example HashString_of_the_tests :
  schema.HashString "tf_tests_myrole2" = 1456111905%Z
  /\ schema.HashString "tf_tests_role_simple" = 3803627293%Z
  /\ schema.HashString "tf_tests_group_role" = 2634717634%Z.
Proof. repeat split; vm_compute; reflexivity. Qed.

(** The list of a set is in the order of the hash codes, not of the array,
    and holds each name once. *)
Example pgArrayToSet_order :
  pgArrayToSet ["a"; "b"; "a"] = ["b"; "a"]
  /\ pgArrayToSet ["tf_tests_role_simple"; "tf_tests_myrole2"]
     = ["tf_tests_myrole2"; "tf_tests_role_simple"].
Proof. split; vm_compute; reflexivity. Qed.






(** X12. When the catalog has no row for the role, the read returns no
    error and clears the id, leaving the attributes as they were; when the
    query fails otherwise, the read returns that error and changes nothing.
    Neither touches the transaction. *)
Theorem roleReadImpl_missing_or_failed (c : Client) (db : Server) (s : St RoleAttrs) :
  (role_row db (Id (rd s)) = Err ErrNoRows ->
   resourcePostgreSQLRoleReadImpl c db s
   = (Ok tt, mkSt (tx s) (mkData "" (prior (rd s)) (attrs (rd s)))))
  /\ (forall e, role_row db (Id (rd s)) = Err e -> e <> ErrNoRows ->
      resourcePostgreSQLRoleReadImpl c db s
      = (Err (Wrapf "Error reading ROLE: {{err}}" e), s)).
Proof.
  unfold resourcePostgreSQLRoleReadImpl, bind, getd. cbn [fst snd]. split.
  - intros ->. reflexivity.
  - intros e -> Hne. destruct e; try reflexivity. contradiction.
Qed.

(* ===================================================================== *)
(** ** Extensions: import, create, update, delete *)
(* ===================================================================== *)

Lemma getExtNames_import (database name : string) :
  strings.ContainsRune database hyphen = false ->
  strings.ContainsRune name hyphen = false ->
  getExtNames (importData (database ++ String hyphen name)) = Ok (database, name).
Proof.
  intros Hd Hn. unfold getExtNames, importData. simpl.
  rewrite (Split_at_sep _ _ _ Hd), (Split_no_sep _ _ Hn). reflexivity.
Qed.

(** X13. Importing an extension by the id [database-name], neither part
    holding a hyphen: the read finds the extension under these two names,
    fills the four attributes (schema and version from the catalog) and
    leaves the id as it was given. *)
Theorem extension_import_read
    (c : Client) (db : Server) (database name schema version : string) :
  strings.ContainsRune database hyphen = false ->
  strings.ContainsRune name hyphen = false ->
  dbConnection_result db database = None ->
  ext_row db database name = Ok (schema, version) ->
  let id := database ++ String hyphen name in
  let out := run (resourcePostgreSQLExtensionRead c db) (importData id) in
  fst out = Ok tt
  /\ Id (rd (snd out)) = id
  /\ attrs (rd (snd out)) extNameAttr = name
  /\ attrs (rd (snd out)) extDatabaseAttr = database
  /\ attrs (rd (snd out)) extSchemaAttr = schema
  /\ attrs (rd (snd out)) extVersionAttr = version.
Proof.
  intros Hd Hn Hconn Hrow. cbv zeta.
  assert (Hout : run (resourcePostgreSQLExtensionRead c db)
                     (importData (database ++ String hyphen name))
                 = (Ok tt,
                    mkSt newTx
                         (mkData (database ++ String hyphen name) (fun _ => "")
                                 (setExt extVersionAttr version
                                    (setExt extSchemaAttr schema
                                       (setExt extDatabaseAttr database
                                          (setExt extNameAttr name (fun _ => "")))))))).
  { unfold run, resourcePostgreSQLExtensionRead, resourcePostgreSQLExtensionReadImpl.
    unfold bind at 1. unfold getd at 1. cbn [rd fst snd].
    rewrite (getExtNames_import _ _ Hd Hn), Hconn, Hrow. reflexivity. }
  rewrite Hout. repeat split.
Qed.

Lemma extension_import_read_witness :
  let out := run (resourcePostgreSQLExtensionRead pgClient (okServer [] (defaultRole "r")))
                 (importData "mydb-pg_trgm") in
  fst out = Ok tt
  /\ Id (rd (snd out)) = "mydb-pg_trgm"
  /\ attrs (rd (snd out)) extNameAttr = "pg_trgm"
  /\ attrs (rd (snd out)) extDatabaseAttr = "mydb"
  /\ attrs (rd (snd out)) extSchemaAttr = "public"
  /\ attrs (rd (snd out)) extVersionAttr = "1.1".
Proof.
  cbv zeta.
  apply (extension_import_read pgClient (okServer [] (defaultRole "r"))
           "mydb" "pg_trgm" "public" "1.1");
    reflexivity.
Defined.

Lemma startTransaction_ok (c : Client) (db : Server) (database : string) (s : St ExtAttrs) :
  newClient_result db database = None ->
  begin_result db = None ->
  startTransaction c db database s = (Ok tt, mkSt newTx (rd s)).
Proof.
  intros Hn Hb. unfold startTransaction, bind. rewrite Hn, Hb.
  destruct (negb (database =? "") && negb (database =? databaseName c))%bool; reflexivity.
Qed.

Lemma extensionUpdate_run (c : Client) (db : Server) (d : ExtData) :
  run (resourcePostgreSQLExtensionUpdate c db) d
  = match startTransaction c db (attrs d extDatabaseAttr) (mkSt newTx d) with
    | (Ok _, s') =>
        deferRollback
          (setExtSchema db ;; setExtVersion db ;; resourcePostgreSQLExtensionReadImpl c db) s'
    | (Err e, s') => (Err e, s')
    end.
Proof. reflexivity. Qed.

(** X14. An extension update on a server that accepts everything sends
    the SET SCHEMA statement if the schema changed, then the UPDATE statement
    if the version changed, in this order and nothing else; an empty version
    gives UPDATE without TO. *)
Theorem extensionUpdate_statements (c : Client) (db : Server) (d : ExtData) :
  newClient_result db (attrs d extDatabaseAttr) = None ->
  begin_result db = None ->
  (forall before sql, exec_result db before sql = None) ->
  attrs d extSchemaAttr <> "" ->
  let name := pq.QuoteIdentifier (attrs d extNameAttr) in
  sent (tx (snd (run (resourcePostgreSQLExtensionUpdate c db) d)))
  = app (if HasChangeExt d extSchemaAttr
         then [ "ALTER EXTENSION " ++ name ++ " SET SCHEMA "
                ++ pq.QuoteIdentifier (attrs d extSchemaAttr) ]
         else [])
        (if HasChangeExt d extVersionAttr
         then [ if String.eqb (attrs d extVersionAttr) ""
                then "ALTER EXTENSION " ++ name ++ " UPDATE"
                else ("ALTER EXTENSION " ++ name ++ " UPDATE") ++ " TO "
                     ++ pq.QuoteIdentifier (attrs d extVersionAttr) ]
         else []).
Proof.
  intros Hnew Hbegin Hok Hschema. cbv zeta.
  rewrite extensionUpdate_run, (startTransaction_ok c db _ _ Hnew Hbegin). cbn [rd].
  match goal with |- context [deferRollback ?b ?s] =>
    destruct (deferRollback_state b s) as (_ & _ & Hs & _); rewrite Hs; clear Hs end.
  apply String.eqb_neq in Hschema.
  assert (H1 : setExtSchema db (mkSt newTx d)
               = (Ok tt,
                  mkSt (mkTx (if HasChangeExt d extSchemaAttr
                              then [ "ALTER EXTENSION " ++ pq.QuoteIdentifier (attrs d extNameAttr)
                                     ++ " SET SCHEMA " ++ pq.QuoteIdentifier (attrs d extSchemaAttr) ]
                              else []) 0 0 false) d)).
  { unfold setExtSchema, bind, getd. cbn [fst snd rd].
    destruct (HasChangeExt d extSchemaAttr); cbn [negb]; [|reflexivity].
    rewrite Hschema. rewrite Exec_ok by (auto; reflexivity). reflexivity. }
  rewrite (bind_ok _ _ _ _ _ H1).
  assert (H2 : forall l,
             setExtVersion db (mkSt (mkTx l 0 0 false) d)
             = (Ok tt,
                mkSt (mkTx (app l (if HasChangeExt d extVersionAttr
                                   then [ if String.eqb (attrs d extVersionAttr) ""
                                          then "ALTER EXTENSION " ++ pq.QuoteIdentifier (attrs d extNameAttr)
                                               ++ " UPDATE"
                                          else ("ALTER EXTENSION "
                                                ++ pq.QuoteIdentifier (attrs d extNameAttr)
                                                ++ " UPDATE") ++ " TO "
                                               ++ pq.QuoteIdentifier (attrs d extVersionAttr) ]
                                   else [])) 0 0 false) d)).
  { intro l. unfold setExtVersion, bind, getd. cbn [fst snd rd].
    destruct (HasChangeExt d extVersionAttr); cbn [negb].
    - rewrite Exec_ok by (auto; reflexivity).
      destruct (String.eqb (attrs d extVersionAttr) ""); reflexivity.
    - unfold ret. now rewrite app_nil_r. }
  rewrite (bind_ok _ _ _ _ _ (H2 _)).
  rewrite ExtensionReadImpl_tx. reflexivity.
Qed.

Lemma extensionUpdate_statements_witness :
  sent (tx (snd (run (resourcePostgreSQLExtensionUpdate pgClient (okServer [] (defaultRole "r")))
                     (mkData "mydb-pg_trgm"
                             (extAttrsOf "mydb" "pg_trgm" "public" "1.0")
                             (extAttrsOf "mydb" "pg_trgm" "ext" "")))))
  = [ "ALTER EXTENSION " ++ pq.QuoteIdentifier "pg_trgm" ++ " SET SCHEMA "
      ++ pq.QuoteIdentifier "ext";
      "ALTER EXTENSION " ++ pq.QuoteIdentifier "pg_trgm" ++ " UPDATE" ].
Proof.
  apply (extensionUpdate_statements pgClient (okServer [] (defaultRole "r"))
           (mkData "mydb-pg_trgm"
                   (extAttrsOf "mydb" "pg_trgm" "public" "1.0")
                   (extAttrsOf "mydb" "pg_trgm" "ext" "")));
    [reflexivity | reflexivity | reflexivity | discriminate].
Defined.

(** X15. An extension update that sets the schema to the empty string
    fails with the error of [setExtSchema] before anything is sent, and the
    transaction it opened is rolled back. *)
Theorem extensionUpdate_empty_schema (c : Client) (db : Server) (d : ExtData) :
  newClient_result db (attrs d extDatabaseAttr) = None ->
  begin_result db = None ->
  prior d extSchemaAttr <> "" ->
  attrs d extSchemaAttr = "" ->
  run (resourcePostgreSQLExtensionUpdate c db) d
  = (Err (Errorf "schema name cannot be set to an empty string"),
     mkSt (mkTx [] 0 1 true) d).
Proof.
  intros Hnew Hbegin Hold Hempty.
  rewrite extensionUpdate_run, (startTransaction_ok c db _ _ Hnew Hbegin). cbn [rd].
  unfold deferRollback, setExtSchema, HasChangeExt.
  unfold bind at 1. unfold bind at 1. unfold getd at 1. cbn [fst snd rd].
  rewrite Hempty. apply String.eqb_neq in Hold. rewrite Hold. reflexivity.
Qed.

Lemma extensionUpdate_empty_schema_witness :
  let d := mkData "mydb-pg_trgm" (extAttrsOf "mydb" "pg_trgm" "public" "1.0")
                  (extAttrsOf "mydb" "pg_trgm" "" "1.0") in
  run (resourcePostgreSQLExtensionUpdate pgClient (okServer [] (defaultRole "r"))) d
  = (Err (Errorf "schema name cannot be set to an empty string"),
     mkSt (mkTx [] 0 1 true) d).
Proof.
  cbv zeta.
  apply (extensionUpdate_empty_schema pgClient (okServer [] (defaultRole "r")));
    [reflexivity | reflexivity | discriminate | reflexivity].
Defined.

Lemma extensionCreate_run (c : Client) (db : Server) (exec : PoolExec) (d : ExtData) :
  run (resourcePostgreSQLExtensionCreate c db exec) d
  = match dbConnection_result db (attrs d extDatabaseAttr) with
    | Some err => (Err err, mkSt newTx d)
    | None =>
        match exec (attrs d extDatabaseAttr) (extensionCreateSQL d) with
        | Some err => (Err (Wrapf "Error creating extension: {{err}}" err), mkSt newTx d)
        | None =>
            resourcePostgreSQLExtensionReadImpl c db
              (mkSt newTx (mkData (generateExtID d) (prior d) (attrs d)))
        end
    end.
Proof.
  unfold run, resourcePostgreSQLExtensionCreate, bind, getd. cbn [rd fst snd].
  destruct (dbConnection_result db (attrs d extDatabaseAttr)); [reflexivity|].
  destruct (exec (attrs d extDatabaseAttr) (extensionCreateSQL d)); reflexivity.
Qed.

(** X17. Creating an extension: a connection error or a refused statement
    is returned (the latter wrapped) with the resource data, id included,
    left as it was; once the statement is accepted the id becomes
    [database-name] and, the extension being found, schema and version are
    those of the catalog. *)
Theorem extensionCreate_outcomes (c : Client) (db : Server) (exec : PoolExec) (d : ExtData) :
  let database := attrs d extDatabaseAttr in
  let name := attrs d extNameAttr in
  let out := run (resourcePostgreSQLExtensionCreate c db exec) d in
  (forall e, dbConnection_result db database = Some e -> out = (Err e, mkSt newTx d))
  /\ (forall e, dbConnection_result db database = None ->
                exec database (extensionCreateSQL d) = Some e ->
                out = (Err (Wrapf "Error creating extension: {{err}}" e), mkSt newTx d))
  /\ (forall schema version,
         dbConnection_result db database = None ->
         exec database (extensionCreateSQL d) = None ->
         name <> "" ->
         ext_row db database name = Ok (schema, version) ->
         fst out = Ok tt
         /\ Id (rd (snd out)) = database ++ "-" ++ name
         /\ attrs (rd (snd out)) extNameAttr = name
         /\ attrs (rd (snd out)) extDatabaseAttr = database
         /\ attrs (rd (snd out)) extSchemaAttr = schema
         /\ attrs (rd (snd out)) extVersionAttr = version).
Proof.
  cbv zeta. rewrite extensionCreate_run. split; [|split].
  - intros e ->. reflexivity.
  - intros e -> ->. reflexivity.
  - intros schema version Hconn Hexec Hname Hrow. rewrite Hconn, Hexec.
    apply String.eqb_neq in Hname.
    assert (Hout : resourcePostgreSQLExtensionReadImpl c db
                     (mkSt newTx (mkData (generateExtID d) (prior d) (attrs d)))
                   = (Ok tt,
                      mkSt newTx
                           (mkData (attrs d extDatabaseAttr ++ "-" ++ attrs d extNameAttr)
                                   (prior d)
                                   (setExt extVersionAttr version
                                      (setExt extSchemaAttr schema
                                         (setExt extDatabaseAttr (attrs d extDatabaseAttr)
                                            (setExt extNameAttr (attrs d extNameAttr)
                                               (attrs d)))))))).
    { unfold resourcePostgreSQLExtensionReadImpl.
      unfold bind at 1. unfold getd at 1. unfold getExtNames. cbn [rd attrs fst snd].
      rewrite Hname, Hconn, Hrow. reflexivity. }
    rewrite Hout. repeat split.
Qed.

Example extensionCreate_statement :
  extensionCreateSQL (mkData "" (fun _ => "") (extAttrsOf "mydb" "pg_trgm" "public" ""))
  = "CREATE EXTENSION " ++ dq "pg_trgm" ++ " SCHEMA " ++ dq "public".
Proof. reflexivity. Qed.

(** X18. Deleting an extension changes neither the resource data (the id
    stays) nor any transaction, on every path; it returns no error exactly
    when the names can be determined, the connection opens and the server
    accepts the DROP EXTENSION of the quoted name. *)
Theorem extensionDelete_outcome (c : Client) (db : Server) (exec : PoolExec) (d : ExtData) :
  let out := run (resourcePostgreSQLExtensionDelete c db exec) d in
  snd out = mkSt newTx d
  /\ (fst out = Ok tt <->
      exists database extName,
        getExtNames d = Ok (database, extName)
        /\ dbConnection_result db database = None
        /\ exec database ("DROP EXTENSION " ++ pq.QuoteIdentifier extName) = None).
Proof.
  cbv zeta. unfold run, resourcePostgreSQLExtensionDelete, bind, getd. cbn [rd fst snd].
  destruct (getExtNames d) as [[database extName]|e] eqn:Hn.
  - destruct (dbConnection_result db database) eqn:Hc.
    + split; [reflexivity|]. split; [discriminate|].
      intros (db' & n' & Heq & Hc' & _). injection Heq as <- <-. congruence.
    + destruct (exec database _) eqn:He.
      * split; [reflexivity|]. split; [discriminate|].
        intros (db' & n' & Heq & _ & He'). injection Heq as <- <-. congruence.
      * split; [reflexivity|]. split; [|reflexivity].
        intros _. exists database, extName. auto.
  - split; [reflexivity|]. split; [discriminate|].
    intros (db' & n' & Heq & _). discriminate.
Qed.

(* ===================================================================== *)
(** ** More on privilege validation *)
(* ===================================================================== *)

(** X16. [sliceContainsStr] answers true exactly for the elements of the
    slice. *)
Theorem sliceContainsStr_membership (haystack : list string) (needle : string) :
  (sliceContainsStr haystack needle = true <-> In needle haystack)
  /\ (sliceContainsStr haystack needle = false <-> ~ In needle haystack).
Proof.
  induction haystack as [|s rest [IHt IHf]]; simpl.
  - repeat split; try discriminate; tauto.
  - destruct (String.eqb s needle) eqn:E.
    + apply String.eqb_eq in E. repeat split; try discriminate; tauto.
    + apply String.eqb_neq in E. split.
      * rewrite IHt. split; [tauto | intros [H|H]; [contradiction | exact H]].
      * rewrite IHf. split; [intros H [H'|H']; contradiction | tauto].
Qed.

(** X19. [validatePrivileges] stops at the first privilege that is not in
    the allow-list of the object type and names it in the error, whatever
    comes after it. *)
Theorem validatePrivileges_first_offender
    (objectType : string) (allowed before after : list string) (priv : string) :
  map_lookup allowedPrivileges objectType = Some allowed ->
  Forall (fun p => In p allowed) before ->
  ~ In priv allowed ->
  validatePrivileges objectType (before ++ priv :: after)
  = Some (Errorf (priv ++ " is not an allowed privilege for object type " ++ objectType)).
Proof.
  intros Hl Hb Hp. unfold validatePrivileges. rewrite Hl.
  induction Hb as [|p rest Hin _ IH]; simpl.
  - destruct (sliceContainsStr allowed priv) eqn:E; [|reflexivity].
    apply sliceContainsStr_In in E. contradiction.
  - apply sliceContainsStr_In in Hin. rewrite Hin. exact IH.
Qed.

Lemma validatePrivileges_first_offender_witness :
  validatePrivileges "sequence" (["SELECT"; "USAGE"] ++ "TRUNCATE" :: ["DELETE"])
  = Some (Errorf "TRUNCATE is not an allowed privilege for object type sequence").
Proof.
  apply (validatePrivileges_first_offender "sequence" ["ALL"; "USAGE"; "SELECT"; "UPDATE"]
           ["SELECT"; "USAGE"] ["DELETE"] "TRUNCATE").
  - reflexivity.
  - repeat constructor; simpl; tauto.
  - simpl. intros [H|[H|[H|[H|H]]]]; try discriminate H. exact H.
Defined.

(* ===================================================================== *)
(** ** Alters, then revokes, then grants *)
(* ===================================================================== *)

Lemma altersOnly_revokes (l : list string) : altersOnly l -> altersThenRevokes l.
Proof.
  intro H. exists l, []. rewrite app_nil_r. repeat split; [exact H | constructor].
Qed.

Lemma altersThenRevokes_grants (l : list string) :
  altersThenRevokes l -> altersRevokesGrants l.
Proof.
  intros (A & R & -> & HA & HR). exists A, R, []. rewrite app_nil_r.
  repeat split; [exact HA | exact HR | constructor].
Qed.

Lemma altersOnly_snoc (l : list string) (sql : string) :
  isAlterRole sql -> altersOnly l -> altersOnly (l ++ [sql]).
Proof. intros H Hl. apply Forall_app. split; [exact Hl | repeat constructor; exact H]. Qed.

Lemma altersThenRevokes_snoc (l : list string) (sql : string) :
  isRevoke sql -> altersThenRevokes l -> altersThenRevokes (l ++ [sql]).
Proof.
  intros H (A & R & -> & HA & HR). exists A, (R ++ [sql])%list.
  rewrite app_assoc. repeat split; [exact HA|].
  apply Forall_app. split; [exact HR | repeat constructor; exact H].
Qed.

Lemma altersRevokesGrants_snoc (l : list string) (sql : string) :
  isGrant sql -> altersRevokesGrants l -> altersRevokesGrants (l ++ [sql]).
Proof.
  intros H (A & R & G & -> & HA & HR & HG). exists A, R, (G ++ [sql])%list.
  rewrite <- !app_assoc. repeat split; [exact HA | exact HR |].
  apply Forall_app. split; [exact HG | repeat constructor; exact H].
Qed.

(** [Exec] keeps a property of the statements sent that holds with or
    without its statement at the end. *)
Lemma Exec_sent_keeps {A : Type} (P : list string -> Prop) (db : Server) (sql : string)
      (wrap : error -> error) :
  (forall l, P l -> P (l ++ [sql])%list) ->
  triple (fun s : St A => P (sent (tx s))) (Exec db sql wrap) (fun s => P (sent (tx s))).
Proof.
  intros Hsnoc s H.
  destruct (Exec_state db sql wrap s) as (_ & _ & _ & _ & [Hs|Hs]); rewrite Hs; auto.
Qed.

Ltac setter_alters :=
  let s := fresh "s" in
  let HI := fresh "HI" in
  intros s HI; unfold bind, getd; cbn [fst snd];
  repeat match goal with
         | |- context [if ?b then _ else _] => destruct b
         end;
  try exact HI;
  (apply (Exec_sent_keeps altersOnly);
   [ intros l Hl; apply altersOnly_snoc; [eexists; reflexivity | exact Hl] | exact HI ]).

Lemma setRoleName_alters (db : Server) :
  triple (fun s => altersOnly (sent (tx s))) (setRoleName db)
         (fun s => altersOnly (sent (tx s))).
Proof.
  intros s HI. unfold setRoleName, bind, getd. cbn [fst snd].
  destruct (negb (HasChangeString (rd s) roleNameAttr)); [exact HI|].
  destruct (String.eqb (strs (attrs (rd s)) roleNameAttr) ""); [exact HI|].
  pose proof (@Exec_sent_keeps RoleAttrs altersOnly db
                (renameSQL (strs (prior (rd s)) roleNameAttr) (strs (attrs (rd s)) roleNameAttr))
                (Wrapf "Error updating role NAME: {{err}}")) as H.
  specialize (H (fun l Hl => altersOnly_snoc l _ (ex_intro _ _ eq_refl) Hl) s HI).
  destruct (Exec db _ _ s) as [[r|e] s']; exact H.
Qed.

Lemma setRoleBypassRLS_alters (c : Client) (db : Server) :
  triple (fun s => altersOnly (sent (tx s))) (setRoleBypassRLS c db)
         (fun s => altersOnly (sent (tx s))).
Proof. unfold setRoleBypassRLS. setter_alters. Qed.

Lemma setRoleConnLimit_alters (db : Server) :
  triple (fun s => altersOnly (sent (tx s))) (setRoleConnLimit db)
         (fun s => altersOnly (sent (tx s))).
Proof. unfold setRoleConnLimit. setter_alters. Qed.

Lemma setRoleCreateDB_alters (db : Server) :
  triple (fun s => altersOnly (sent (tx s))) (setRoleCreateDB db)
         (fun s => altersOnly (sent (tx s))).
Proof. unfold setRoleCreateDB. setter_alters. Qed.

Lemma setRoleCreateRole_alters (db : Server) :
  triple (fun s => altersOnly (sent (tx s))) (setRoleCreateRole db)
         (fun s => altersOnly (sent (tx s))).
Proof. unfold setRoleCreateRole. setter_alters. Qed.

Lemma setRoleInherit_alters (db : Server) :
  triple (fun s => altersOnly (sent (tx s))) (setRoleInherit db)
         (fun s => altersOnly (sent (tx s))).
Proof. unfold setRoleInherit. setter_alters. Qed.

Lemma setRoleLogin_alters (db : Server) :
  triple (fun s => altersOnly (sent (tx s))) (setRoleLogin db)
         (fun s => altersOnly (sent (tx s))).
Proof. unfold setRoleLogin. setter_alters. Qed.

Lemma setRoleReplication_alters (db : Server) :
  triple (fun s => altersOnly (sent (tx s))) (setRoleReplication db)
         (fun s => altersOnly (sent (tx s))).
Proof. unfold setRoleReplication. setter_alters. Qed.

Lemma setRoleSuperuser_alters (db : Server) :
  triple (fun s => altersOnly (sent (tx s))) (setRoleSuperuser db)
         (fun s => altersOnly (sent (tx s))).
Proof. unfold setRoleSuperuser. setter_alters. Qed.

Lemma setRoleValidUntil_alters (db : Server) :
  triple (fun s => altersOnly (sent (tx s))) (setRoleValidUntil db)
         (fun s => altersOnly (sent (tx s))).
Proof. unfold setRoleValidUntil. setter_alters. Qed.

Lemma revokeEach_revokes (db : Server) (role : string) (grantedRoles : list string) :
  triple (fun s => altersThenRevokes (sent (tx s))) (revokeEach db role grantedRoles)
         (fun s => altersThenRevokes (sent (tx s))).
Proof.
  induction grantedRoles as [|g rest IH]; cbn [revokeEach].
  - apply triple_ret.
  - apply keeps_bind; [|intros _; exact IH].
    apply (Exec_sent_keeps altersThenRevokes).
    intros l Hl. apply altersThenRevokes_snoc; [eexists; eexists; reflexivity | exact Hl].
Qed.

Lemma grantEach_grants (db : Server) (role : string) (granting : list string) :
  triple (fun s => altersRevokesGrants (sent (tx s))) (grantEach db role granting)
         (fun s => altersRevokesGrants (sent (tx s))).
Proof.
  induction granting as [|g rest IH]; cbn [grantEach].
  - apply triple_ret.
  - apply keeps_bind; [|intros _; exact IH].
    apply (Exec_sent_keeps altersRevokesGrants).
    intros l Hl. apply altersRevokesGrants_snoc; [eexists; eexists; reflexivity | exact Hl].
Qed.

Lemma revokeRoles_revokes (db : Server) :
  triple (fun s => altersThenRevokes (sent (tx s))) (revokeRoles db)
         (fun s => altersThenRevokes (sent (tx s))).
Proof.
  intros s HI. unfold revokeRoles, QueryRoles, bind, getd. cbn [fst snd].
  destruct (done (tx s)); [exact HI|].
  destruct (applicable_roles db (sent (tx s)) _) as [rows|e]; [|exact HI].
  destruct (scanRoles _ rows) as [grantedRoles|e]; [|exact HI].
  apply revokeEach_revokes. exact HI.
Qed.

Lemma grantRoles_grants (db : Server) :
  triple (fun s => altersRevokesGrants (sent (tx s))) (grantRoles db)
         (fun s => altersRevokesGrants (sent (tx s))).
Proof.
  intros s HI. unfold grantRoles, bind, getd. cbn [fst snd].
  apply grantEach_grants. exact HI.
Qed.

Lemma roleUpdateStatements_order (c : Client) (db : Server) :
  triple (fun s => altersOnly (sent (tx s))) (roleUpdateStatements c db)
         (fun s => altersRevokesGrants (sent (tx s))).
Proof.
  assert (Himp : forall s : St RoleAttrs,
             altersOnly (sent (tx s)) -> altersRevokesGrants (sent (tx s))).
  { intros s H. apply altersThenRevokes_grants, altersOnly_revokes, H. }
  unfold roleUpdateStatements.
  eapply triple_bind; [apply setRoleName_alters | intros _ | exact Himp].
  eapply triple_bind; [apply setRoleBypassRLS_alters | intros _ | exact Himp].
  eapply triple_bind; [apply setRoleConnLimit_alters | intros _ | exact Himp].
  eapply triple_bind; [apply setRoleCreateDB_alters | intros _ | exact Himp].
  eapply triple_bind; [apply setRoleCreateRole_alters | intros _ | exact Himp].
  eapply triple_bind; [apply setRoleInherit_alters | intros _ | exact Himp].
  eapply triple_bind; [apply setRoleLogin_alters | intros _ | exact Himp].
  eapply triple_bind; [apply setRoleReplication_alters | intros _ | exact Himp].
  eapply triple_bind; [apply setRoleSuperuser_alters | intros _ | exact Himp].
  eapply triple_bind; [apply setRoleValidUntil_alters | intros _ | exact Himp].
  eapply (triple_bind _ (fun s => altersThenRevokes (sent (tx s)))).
  - intros s H. apply revokeRoles_revokes. apply altersOnly_revokes, H.
  - intros _ s H. apply grantRoles_grants. apply altersThenRevokes_grants, H.
  - intros s H. apply altersThenRevokes_grants, H.
Qed.

(** X20. Whatever the server answers, the statements a role update sends
    are ALTER ROLE statements first, then REVOKE statements, then GRANT
    statements: no attribute is altered after a membership was touched and
    nothing is revoked after a grant. *)
Theorem roleUpdate_alters_revokes_grants (c : Client) (db : Server) (d : RoleData) :
  altersRevokesGrants (sent (tx (snd (run (resourcePostgreSQLRoleUpdate c db) d)))).
Proof.
  unfold resourcePostgreSQLRoleUpdate. rewrite run_Begin_defer.
  destruct (begin_result db).
  - exists [], [], []. repeat split; constructor.
  - match goal with |- context [deferRollback ?b ?s] =>
      destruct (deferRollback_state b s) as (_ & _ & Hs & _); rewrite Hs; clear Hs end.
    apply (triple_bind (fun s => altersOnly (sent (tx s)))
                       (fun s => altersRevokesGrants (sent (tx s)))
                       (fun s => altersRevokesGrants (sent (tx s))));
      [apply roleUpdateStatements_order | | auto | constructor].
    intros _.
    apply (triple_bind _ (fun s => altersRevokesGrants (sent (tx s)))); [| | auto].
    + intros s H. destruct (Commit_state db (Wrapf "could not commit transaction: {{err}}") s)
        as (_ & Hs). rewrite Hs. exact H.
    + intros _ s H. rewrite RoleReadImpl_tx. exact H.
Qed.

(* ===================================================================== *)
(** ** The id after a rename that is rolled back *)
(* ===================================================================== *)

Section ExecInvariant.

Variable db : Server.
Variable P : St RoleAttrs -> Prop.
Hypothesis P_Exec : forall sql wrap, triple P (Exec db sql wrap) P.

Ltac setter_keeps :=
  let s := fresh "s" in
  let HI := fresh "HI" in
  intros s HI; unfold bind, getd; cbn [fst snd];
  repeat match goal with
         | |- context [if ?b then _ else _] => destruct b
         end;
  first [ exact HI | apply P_Exec; exact HI ].

Lemma revokeEach_keeps (role : string) (grantedRoles : list string) :
  triple P (revokeEach db role grantedRoles) P.
Proof.
  induction grantedRoles as [|g rest IH]; cbn [revokeEach].
  - apply triple_ret.
  - apply keeps_bind; [apply P_Exec | intros _; exact IH].
Qed.

Lemma grantEach_keeps (role : string) (granting : list string) :
  triple P (grantEach db role granting) P.
Proof.
  induction granting as [|g rest IH]; cbn [grantEach].
  - apply triple_ret.
  - apply keeps_bind; [apply P_Exec | intros _; exact IH].
Qed.

Lemma revokeRoles_keeps : triple P (revokeRoles db) P.
Proof.
  intros s HI. unfold revokeRoles, QueryRoles, bind, getd. cbn [fst snd].
  destruct (done (tx s)); [exact HI|].
  destruct (applicable_roles db (sent (tx s)) _) as [rows|e]; [|exact HI].
  destruct (scanRoles _ rows) as [grantedRoles|e]; [|exact HI].
  apply revokeEach_keeps. exact HI.
Qed.

Lemma grantRoles_keeps : triple P (grantRoles db) P.
Proof.
  intros s HI. unfold grantRoles, bind, getd. cbn [fst snd].
  apply grantEach_keeps. exact HI.
Qed.

(** What follows the rename in an update keeps whatever [Exec] keeps. *)
Lemma afterRename_keeps (c : Client) :
  triple P
         (setRoleBypassRLS c db ;; setRoleConnLimit db ;; setRoleCreateDB db ;;
          setRoleCreateRole db ;; setRoleInherit db ;; setRoleLogin db ;;
          setRoleReplication db ;; setRoleSuperuser db ;; setRoleValidUntil db ;;
          revokeRoles db ;; grantRoles db)
         P.
Proof.
  apply keeps_bind; [unfold setRoleBypassRLS; setter_keeps | intros _].
  apply keeps_bind; [unfold setRoleConnLimit; setter_keeps | intros _].
  apply keeps_bind; [unfold setRoleCreateDB; setter_keeps | intros _].
  apply keeps_bind; [unfold setRoleCreateRole; setter_keeps | intros _].
  apply keeps_bind; [unfold setRoleInherit; setter_keeps | intros _].
  apply keeps_bind; [unfold setRoleLogin; setter_keeps | intros _].
  apply keeps_bind; [unfold setRoleReplication; setter_keeps | intros _].
  apply keeps_bind; [unfold setRoleSuperuser; setter_keeps | intros _].
  apply keeps_bind; [unfold setRoleValidUntil; setter_keeps | intros _].
  apply keeps_bind; [apply revokeRoles_keeps | intros _].
  apply grantRoles_keeps.
Qed.

End ExecInvariant.

Lemma Exec_renamedTo (db : Server) (n sql : string) (wrap : error -> error) :
  triple (renamedTo n) (Exec db sql wrap) (renamedTo n).
Proof.
  intros s (Hid & Hc & Hd).
  destruct (Exec_state db sql wrap s) as (Hrd & Hc' & _ & Hd' & _).
  unfold renamedTo. rewrite Hrd, Hc', Hd'. auto.
Qed.

Lemma outcome_of_triple {A R : Type} (P E : St A -> Prop) (m : M A R) :
  triple P m P -> (forall s, P s -> E s) -> outcome P m P E.
Proof.
  intros H HE s Hs. specialize (H s Hs).
  destruct (m s) as [[r|e] s']; cbn [snd] in H; auto.
Qed.

(** The renaming step on a fresh transaction, the server accepting it. *)
Lemma setRoleName_accepted (db : Server) (d : RoleData) :
  strs (prior d) roleNameAttr <> strs (attrs d) roleNameAttr ->
  strs (attrs d) roleNameAttr <> "" ->
  exec_result db [] (renameSQL (strs (prior d) roleNameAttr) (strs (attrs d) roleNameAttr))
  = None ->
  exists s',
    setRoleName db (mkSt newTx d) = (Ok tt, s')
    /\ renamedTo (strs (attrs d) roleNameAttr) s'.
Proof.
  intros Hchange Hne Hexec.
  unfold setRoleName, bind, getd, HasChangeString. cbn [fst snd rd].
  apply String.eqb_neq in Hchange, Hne. rewrite Hchange, Hne. cbn [negb].
  rewrite Exec_ok by (try reflexivity; exact Hexec).
  eexists. split; [reflexivity|]. repeat split.
Qed.

(** X21. A role update that renames the role, when the server accepts the
    rename but the update does not reach its commit: the update returns an
    error, and the id is already the new name although the rename went out
    on a transaction that was not committed. *)
Theorem roleUpdate_id_after_uncommitted_rename (c : Client) (db : Server) (d : RoleData) :
  let o := strs (prior d) roleNameAttr in
  let n := strs (attrs d) roleNameAttr in
  let out := run (resourcePostgreSQLRoleUpdate c db) d in
  o <> n ->
  n <> "" ->
  begin_result db = None ->
  exec_result db [] (renameSQL o n) = None ->
  commits (tx (snd out)) = 0 ->
  Id (rd (snd out)) = n /\ exists e, fst out = Err e.
Proof.
  intros o n out Hchange Hne Hbegin Hexec. subst out.
  unfold resourcePostgreSQLRoleUpdate. rewrite run_Begin_defer, Hbegin.
  destruct (setRoleName_accepted db d Hchange Hne Hexec) as (s1 & H1 & HK).
  fold n in HK.
  assert (Hbody : outcome (renamedTo n)
                    ((setRoleBypassRLS c db ;; setRoleConnLimit db ;; setRoleCreateDB db ;;
                      setRoleCreateRole db ;; setRoleInherit db ;; setRoleLogin db ;;
                      setRoleReplication db ;; setRoleSuperuser db ;; setRoleValidUntil db ;;
                      revokeRoles db ;; grantRoles db) ;;
                     Commit db (Wrapf "could not commit transaction: {{err}}") ;;
                     resourcePostgreSQLRoleReadImpl c db)
                    (fun s => commits (tx s) = 1)
                    (renamedOrCommitted n)).
  { apply (outcome_bind _ (renamedTo n)).
    - apply outcome_of_triple.
      + apply afterRename_keeps. intros sql wrap. apply Exec_renamedTo.
      + intros s (Hid & Hc & _). left. auto.
    - intros _. apply (outcome_bind _ (fun s => commits (tx s) = 1)).
      + intros s (_ & Hc & Hd). unfold Commit. rewrite Hd.
        destruct (commit_result db (sent (tx s))); cbn; [right|]; now rewrite Hc.
      + intros _ s Hc. pose proof (RoleReadImpl_tx c db s) as Ht.
        destruct (resourcePostgreSQLRoleReadImpl c db s) as [[r|e] s'];
          cbn [snd] in Ht; [|right]; now rewrite Ht. }
  specialize (Hbody s1 HK).
  assert (Heq : (roleUpdateStatements c db ;;
                 Commit db (Wrapf "could not commit transaction: {{err}}") ;;
                 resourcePostgreSQLRoleReadImpl c db) (mkSt newTx d)
                = ((setRoleBypassRLS c db ;; setRoleConnLimit db ;; setRoleCreateDB db ;;
                    setRoleCreateRole db ;; setRoleInherit db ;; setRoleLogin db ;;
                    setRoleReplication db ;; setRoleSuperuser db ;; setRoleValidUntil db ;;
                    revokeRoles db ;; grantRoles db) ;;
                   Commit db (Wrapf "could not commit transaction: {{err}}") ;;
                   resourcePostgreSQLRoleReadImpl c db) s1).
  { unfold roleUpdateStatements. unfold bind at 1 2. rewrite H1. reflexivity. }
  unfold deferRollback. rewrite Heq.
  destruct ((_ ;; _) s1) as [[r|e] s'] in Hbody |- *; cbn [fst snd tx rd].
  - rewrite Rollback_commits. intro H0. congruence.
  - rewrite Rollback_commits. intro H0.
    destruct Hbody as [(Hid & _)|Hc]; [|congruence].
    split; [exact Hid | eexists; reflexivity].
Qed.

(** A rename to [new] with a connection limit that the server refuses. *)
Lemma roleUpdate_id_after_uncommitted_rename_witness :
  let a := setInt roleConnLimitAttr 5 (defaultRole "new") in
  let db := refusing ("ALTER ROLE " ++ dq "new" ++ " CONNECTION LIMIT 5") [] a in
  let out := run (resourcePostgreSQLRoleUpdate pgClient db) (mkData "old" (defaultRole "old") a) in
  Id (rd (snd out)) = "new" /\ exists e, fst out = Err e.
Proof.
  cbv zeta.
  apply (roleUpdate_id_after_uncommitted_rename pgClient
           (refusing ("ALTER ROLE " ++ dq "new" ++ " CONNECTION LIMIT 5") []
                     (setInt roleConnLimitAttr 5 (defaultRole "new")))
           (mkData "old" (defaultRole "old") (setInt roleConnLimitAttr 5 (defaultRole "new"))));
    [discriminate | discriminate | reflexivity | reflexivity | reflexivity].
Defined.

Example roleUpdate_rename_rolled_back :
  let a := setInt roleConnLimitAttr 5 (defaultRole "new") in
  let out := run (resourcePostgreSQLRoleUpdate pgClient
                    (refusing ("ALTER ROLE " ++ dq "new" ++ " CONNECTION LIMIT 5") [] a))
                 (mkData "old" (defaultRole "old") a) in
  sent (tx (snd out))
  = [ "ALTER ROLE " ++ dq "old" ++ " RENAME TO " ++ dq "new";
      "ALTER ROLE " ++ dq "new" ++ " CONNECTION LIMIT 5" ]
  /\ commits (tx (snd out)) = 0
  /\ rollbacks (tx (snd out)) = 1
  /\ Id (rd (snd out)) = "new".
Proof. repeat split; vm_compute; reflexivity. Qed.

(* ===================================================================== *)
(** ** The statements of a role update that renames the role *)
(* ===================================================================== *)

Lemma prefix_firstn {T : Type} (p rest : list T) :
  p = firstn (length p) (p ++ rest).
Proof.
  induction p as [|x p IH]; cbn; [reflexivity|]. now rewrite <- IH.
Qed.

Section UpdateSent.

Variables (c : Client) (db : Server) (d : RoleData) (why : Prop).

Hypothesis why_refused :
  forall prev sql e, exec_result db prev sql = Some e -> why.

Hypothesis why_rls :
  HasChangeBool d roleBypassRLSAttr = true -> featureSupported c featureRLS = false -> why.

Lemma stoppedIn_app (l T : list string) (s : St RoleAttrs) :
  stoppedIn why l s -> stoppedIn why (l ++ T)%list s.
Proof.
  intros [(rest & ->) Hw]. split; [|exact Hw].
  exists (rest ++ T)%list. now rewrite app_assoc.
Qed.

Lemma reached_stopped (l T : list string) (s : St RoleAttrs) :
  reached d l s -> why -> stoppedIn why (l ++ T)%list s.
Proof.
  intros (_ & Hs & _) Hw. split; [|exact Hw]. exists T. now rewrite Hs.
Qed.

Lemma Exec_reached (l : list string) (sql : string) (wrap : error -> error) :
  outcome (reached d l) (Exec db sql wrap)
          (reached d (l ++ [sql])%list) (stoppedIn why (l ++ [sql])%list).
Proof.
  intros s (Hd & Hs & Hrd). unfold Exec. rewrite Hd.
  destruct (exec_result db (sent (tx s)) sql) as [e|] eqn:E; cbn [tx sent rd done].
  - split; [|exact (why_refused _ _ _ E)].
    exists []. cbn [tx sent]. now rewrite app_nil_r, Hs.
  - repeat split; [now rewrite Hs | exact Hrd].
Qed.

(** Two steps in a row. *)
Lemma reached_step {R : Type} (l S T : list string)
      (m : M RoleAttrs unit) (k : M RoleAttrs R) :
  outcome (reached d l) m (reached d (l ++ S)%list) (stoppedIn why (l ++ S)%list) ->
  outcome (reached d (l ++ S)%list) k
          (reached d ((l ++ S) ++ T)%list) (stoppedIn why ((l ++ S) ++ T)%list) ->
  outcome (reached d l) (m ;; k)
          (reached d (l ++ S ++ T)%list) (stoppedIn why (l ++ S ++ T)%list).
Proof.
  intros Hm Hk. rewrite app_assoc.
  apply (outcome_bind _ (reached d (l ++ S)%list)); [|intros _; exact Hk].
  eapply outcome_weaken; [exact Hm | auto | intros s H; now apply stoppedIn_app].
Qed.

Ltac setter_reached :=
  let s := fresh "s" in
  let HR := fresh "HR" in
  let Hrd := fresh "Hrd" in
  intros s HR; pose proof HR as (_ & _ & Hrd);
  unfold bind, getd, alterWith, alterConnLimit, alterValidUntil;
  cbn [fst snd]; rewrite Hrd;
  repeat match goal with
         | |- context [if negb ?b then _ else _] => destruct b; cbn [negb andb]
         | |- context [if String.eqb ?x ?y then ret tt else _] =>
             destruct (String.eqb x y); cbn [negb andb]
         end;
  first [ rewrite app_nil_r; exact HR
        | exact (Exec_reached _ _ _ s HR) ].

Lemma setRoleBypassRLS_reached (l : list string) :
  outcome (reached d l) (setRoleBypassRLS c db)
          (reached d (l ++ alterWith d roleBypassRLSAttr "BYPASSRLS" "NOBYPASSRLS")%list)
          (stoppedIn why (l ++ alterWith d roleBypassRLSAttr "BYPASSRLS" "NOBYPASSRLS")%list).
Proof.
  intros s HR. pose proof HR as (_ & _ & Hrd).
  unfold setRoleBypassRLS, bind, getd, alterWith. cbn [fst snd]. rewrite Hrd.
  destruct (HasChangeBool d roleBypassRLSAttr) eqn:Hch in |- *; cbn [negb].
  - destruct (featureSupported c featureRLS) eqn:Hf in |- *; cbn [negb].
    + exact (Exec_reached _ _ _ s HR).
    + apply reached_stopped; [exact HR | exact (why_rls Hch Hf)].
  - rewrite app_nil_r. exact HR.
Qed.

Lemma setRoleConnLimit_reached (l : list string) :
  outcome (reached d l) (setRoleConnLimit db)
          (reached d (l ++ alterConnLimit d)%list)
          (stoppedIn why (l ++ alterConnLimit d)%list).
Proof. unfold setRoleConnLimit. setter_reached. Qed.

Lemma setRoleCreateDB_reached (l : list string) :
  outcome (reached d l) (setRoleCreateDB db)
          (reached d (l ++ alterWith d roleCreateDBAttr "CREATEDB" "NOCREATEDB")%list)
          (stoppedIn why (l ++ alterWith d roleCreateDBAttr "CREATEDB" "NOCREATEDB")%list).
Proof. unfold setRoleCreateDB. setter_reached. Qed.

Lemma setRoleCreateRole_reached (l : list string) :
  outcome (reached d l) (setRoleCreateRole db)
          (reached d (l ++ alterWith d roleCreateRoleAttr "CREATEROLE" "NOCREATEROLE")%list)
          (stoppedIn why (l ++ alterWith d roleCreateRoleAttr "CREATEROLE" "NOCREATEROLE")%list).
Proof. unfold setRoleCreateRole. setter_reached. Qed.

Lemma setRoleInherit_reached (l : list string) :
  outcome (reached d l) (setRoleInherit db)
          (reached d (l ++ alterWith d roleInheritAttr "INHERIT" "NOINHERIT")%list)
          (stoppedIn why (l ++ alterWith d roleInheritAttr "INHERIT" "NOINHERIT")%list).
Proof. unfold setRoleInherit. setter_reached. Qed.

Lemma setRoleLogin_reached (l : list string) :
  outcome (reached d l) (setRoleLogin db)
          (reached d (l ++ alterWith d roleLoginAttr "LOGIN" "NOLOGIN")%list)
          (stoppedIn why (l ++ alterWith d roleLoginAttr "LOGIN" "NOLOGIN")%list).
Proof. unfold setRoleLogin. setter_reached. Qed.

Lemma setRoleReplication_reached (l : list string) :
  outcome (reached d l) (setRoleReplication db)
          (reached d (l ++ alterWith d roleReplicationAttr "REPLICATION" "NOREPLICATION")%list)
          (stoppedIn why (l ++ alterWith d roleReplicationAttr "REPLICATION" "NOREPLICATION")%list).
Proof. unfold setRoleReplication. setter_reached. Qed.

Lemma setRoleSuperuser_reached (l : list string) :
  outcome (reached d l) (setRoleSuperuser db)
          (reached d (l ++ alterWith d roleSuperuserAttr "SUPERUSER" "NOSUPERUSER")%list)
          (stoppedIn why (l ++ alterWith d roleSuperuserAttr "SUPERUSER" "NOSUPERUSER")%list).
Proof. unfold setRoleSuperuser. setter_reached. Qed.

Lemma setRoleValidUntil_reached (l : list string) :
  outcome (reached d l) (setRoleValidUntil db)
          (reached d (l ++ alterValidUntil d)%list)
          (stoppedIn why (l ++ alterValidUntil d)%list).
Proof. unfold setRoleValidUntil. setter_reached. Qed.

Lemma revokeEach_reached (role : string) (grantedRoles : list string) :
  forall l,
    outcome (reached d l) (revokeEach db role grantedRoles)
            (reached d (l ++ map (fun g => revokeSQL g role) grantedRoles)%list)
            (stoppedIn why (l ++ map (fun g => revokeSQL g role) grantedRoles)%list).
Proof.
  induction grantedRoles as [|g rest IH]; intro l; cbn [revokeEach map].
  - rewrite app_nil_r. intros s H. exact H.
  - apply (reached_step l [revokeSQL g role]); [apply Exec_reached | apply IH].
Qed.

Lemma grantEach_reached (role : string) (granting : list string) :
  forall l,
    outcome (reached d l) (grantEach db role granting)
            (reached d (l ++ map (fun g => grantSQL g role) granting)%list)
            (stoppedIn why (l ++ map (fun g => grantSQL g role) granting)%list).
Proof.
  induction granting as [|g rest IH]; intro l; cbn [grantEach map].
  - rewrite app_nil_r. intros s H. exact H.
  - apply (reached_step l [grantSQL g role]); [apply Exec_reached | apply IH].
Qed.

Lemma grantRoles_reached (l : list string) :
  let role := strs (attrs d) roleNameAttr in
  outcome (reached d l) (grantRoles db)
          (reached d (l ++ map (fun g => grantSQL g role) (roles (attrs d)))%list)
          (stoppedIn why (l ++ map (fun g => grantSQL g role) (roles (attrs d)))%list).
Proof.
  intros role s HR. pose proof HR as (_ & _ & Hrd).
  unfold grantRoles, bind, getd. cbn [fst snd]. rewrite Hrd.
  apply grantEach_reached. exact HR.
Qed.

Lemma revokeRoles_reached (l : list string) :
  let role := strs (attrs d) roleNameAttr in
  (~ (exists current, applicable_roles db l role = Ok (map Ok current)) -> why) ->
  outcome (reached d l) (revokeRoles db)
          (reached d (l ++ map (fun g => revokeSQL g role) (membersRead db l role))%list)
          (stoppedIn why (l ++ map (fun g => revokeSQL g role) (membersRead db l role))%list).
Proof.
  intros role Hq s HR. pose proof HR as (Hd & Hs & Hrd).
  unfold revokeRoles, QueryRoles, membersRead, bind, getd. cbn [fst snd].
  rewrite Hrd, Hd, Hs. fold role.
  destruct (applicable_roles db l role) as [rows|e] eqn:Ha.
  - destruct (scanRoles role rows) as [grantedRoles|e] eqn:Hsc.
    + apply revokeEach_reached. exact HR.
    + cbn [map]. apply reached_stopped; [exact HR|].
      apply Hq. intros (current & [= ->]). rewrite scanRoles_ok in Hsc. discriminate.
  - cbn [map]. apply reached_stopped; [exact HR|].
    apply Hq. intros (current & Hc). discriminate.
Qed.

(** The setters after the rename, and whatever follows them. *)
Lemma alters_reached {R : Type} (l T : list string) (k : M RoleAttrs R) :
  outcome (reached d (l ++ updateAlters d)%list) k
          (reached d ((l ++ updateAlters d) ++ T)%list)
          (stoppedIn why ((l ++ updateAlters d) ++ T)%list) ->
  outcome (reached d l)
          (setRoleBypassRLS c db ;;
           setRoleConnLimit db ;;
           setRoleCreateDB db ;;
           setRoleCreateRole db ;;
           setRoleInherit db ;;
           setRoleLogin db ;;
           setRoleReplication db ;;
           setRoleSuperuser db ;;
           setRoleValidUntil db ;;
           k)
          (reached d ((l ++ updateAlters d) ++ T)%list)
          (stoppedIn why ((l ++ updateAlters d) ++ T)%list).
Proof.
  unfold updateAlters. intros Hk. rewrite <- !app_assoc in *.
  eapply reached_step; [apply setRoleBypassRLS_reached|].
  eapply reached_step; [apply setRoleConnLimit_reached|].
  eapply reached_step; [apply setRoleCreateDB_reached|].
  eapply reached_step; [apply setRoleCreateRole_reached|].
  eapply reached_step; [apply setRoleInherit_reached|].
  eapply reached_step; [apply setRoleLogin_reached|].
  eapply reached_step; [apply setRoleReplication_reached|].
  eapply reached_step; [apply setRoleSuperuser_reached|].
  eapply reached_step; [apply setRoleValidUntil_reached|].
  rewrite <- !app_assoc. exact Hk.
Qed.

End UpdateSent.

(** The rename on a fresh transaction: accepted, the update goes on under
    the new id; refused, it stops there. *)
Lemma setRoleName_reached (db : Server) (d : RoleData) (why : Prop) :
  let o := strs (prior d) roleNameAttr in
  let n := strs (attrs d) roleNameAttr in
  (forall prev sql e, exec_result db prev sql = Some e -> why) ->
  o <> n ->
  n <> "" ->
  outcome (reached d []) (setRoleName db)
          (reached (mkData n (prior d) (attrs d)) [renameSQL o n])
          (stoppedIn why [renameSQL o n]).
Proof.
  intros o n Hw Hch Hne s (Hd & Hs & Hrd).
  unfold setRoleName, bind, getd, HasChangeString. cbn [fst snd]. rewrite Hrd.
  fold o n. apply String.eqb_neq in Hch, Hne. rewrite Hch, Hne. cbn [negb].
  unfold Exec, SetId. rewrite Hd, Hs.
  destruct (exec_result db [] (renameSQL o n)) eqn:E; cbn.
  - split; [exists []; reflexivity | eapply Hw; exact E].
  - repeat split. now rewrite Hrd.
Qed.

(** All the statements of an update that renames the role. *)
Lemma roleUpdateStatements_reached (c : Client) (db : Server) (d : RoleData) :
  let o := strs (prior d) roleNameAttr in
  let n := strs (attrs d) roleNameAttr in
  let pre := renameSQL o n :: updateAlters d in
  let full := (pre ++ map (fun g => revokeSQL g n) (membersRead db pre n)
                   ++ map (fun g => grantSQL g n) (roles (attrs d)))%list in
  o <> n ->
  n <> "" ->
  outcome (reached d []) (roleUpdateStatements c db)
          (reached (mkData n (prior d) (attrs d)) full)
          (stoppedIn (updateStopped c db d pre) full).
Proof.
  intros o n pre full Hch Hne.
  set (d' := mkData n (prior d) (attrs d)).
  set (why := updateStopped c db d pre).
  assert (Hw1 : forall prev sql e, exec_result db prev sql = Some e -> why).
  { intros prev sql e H. left. eauto. }
  assert (Hw2 : HasChangeBool d' roleBypassRLSAttr = true ->
                featureSupported c featureRLS = false -> why).
  { intros H1 H2. right. left. split; assumption. }
  assert (Hw3 : ~ (exists current,
                     applicable_roles db ([renameSQL o n] ++ updateAlters d')%list
                                      (strs (attrs d') roleNameAttr)
                     = Ok (map Ok current)) -> why).
  { intros H. right. right. exact H. }
  unfold roleUpdateStatements.
  apply (outcome_bind _ (reached d' [renameSQL o n])).
  - eapply outcome_weaken; [apply (setRoleName_reached db d why Hw1 Hch Hne) | auto |].
    intros s H.
    exact (stoppedIn_app why [renameSQL o n] _ s H).
  - intros _.
    set (role := strs (attrs d') roleNameAttr) in *.
    set (sofar := ([renameSQL o n] ++ updateAlters d')%list) in *.
    assert (HK : outcome (reached d' sofar) (revokeRoles db ;; grantRoles db)
                   (reached d' (sofar
                                ++ map (fun g => revokeSQL g role) (membersRead db sofar role)
                                ++ map (fun g => grantSQL g role) (roles (attrs d')))%list)
                   (stoppedIn why (sofar
                                   ++ map (fun g => revokeSQL g role) (membersRead db sofar role)
                                   ++ map (fun g => grantSQL g role) (roles (attrs d')))%list)).
    { eapply reached_step;
        [ apply revokeRoles_reached; [exact Hw1 | exact Hw3]
        | apply grantRoles_reached; exact Hw1 ]. }
    exact (alters_reached c db d' why Hw1 Hw2 [renameSQL o n] _ _ HK).
Qed.

(** Neither the commit nor the read that follows sends anything. *)
Lemma sent_after_statements (c : Client) (db : Server) (wrap : error -> error)
      (m : M RoleAttrs unit) (s : St RoleAttrs) :
  sent (tx (snd ((m ;; Commit db wrap ;; resourcePostgreSQLRoleReadImpl c db) s)))
  = sent (tx (snd (m s))).
Proof.
  unfold bind. destruct (m s) as [[r|e] s1]; cbn [snd]; [|reflexivity].
  destruct (Commit_state db wrap s1) as (_ & Hc).
  destruct (Commit db wrap s1) as [[r'|e'] s2]; cbn [snd] in *;
    [rewrite RoleReadImpl_tx|]; exact Hc.
Qed.

Lemma roleUpdate_sent (c : Client) (db : Server) (d : RoleData) :
  let o := strs (prior d) roleNameAttr in
  let n := strs (attrs d) roleNameAttr in
  let pre := renameSQL o n :: updateAlters d in
  let statements current :=
    (pre ++ map (fun g => revokeSQL g n) current
         ++ map (fun g => grantSQL g n) (roles (attrs d)))%list in
  let final := tx (snd (run (resourcePostgreSQLRoleUpdate c db) d)) in
  o <> n ->
  (exists current k, sent final = firstn k (statements current))
  /\ (sent final = [] <-> begin_result db <> None \/ n = "")
  /\ (forall current,
        begin_result db = None ->
        n <> "" ->
        (HasChangeBool d roleBypassRLSAttr = true -> featureSupported c featureRLS = true) ->
        (forall prev sql, exec_result db prev sql = None) ->
        applicable_roles db pre n = Ok (map Ok current) ->
        sent final = statements current).
Proof.
  intros o n pre statements final Hch.
  destruct (begin_result db) as [e|] eqn:Hb.
  - assert (Hf : sent final = []).
    { unfold final, resourcePostgreSQLRoleUpdate. rewrite run_Begin_defer, Hb. reflexivity. }
    rewrite Hf. split; [exists [], 0; reflexivity|].
    split; [split; [left; discriminate | reflexivity] | discriminate].
  - destruct (String.eqb n "") eqn:Hn.
    + apply String.eqb_eq in Hn.
      assert (Hf : sent final = []).
      { unfold final, resourcePostgreSQLRoleUpdate. rewrite run_Begin_defer, Hb.
        unfold deferRollback, roleUpdateStatements, setRoleName, HasChangeString.
        unfold bind at 1. unfold bind at 1. unfold bind at 1. unfold getd at 1.
        cbn [fst snd rd]. fold o n. apply String.eqb_neq in Hch. rewrite Hch, Hn.
        reflexivity. }
      rewrite Hf. split; [exists [], 0; reflexivity|].
      split; [split; [right; exact Hn | reflexivity] | contradiction].
    + apply String.eqb_neq in Hn.
      destruct (roleUpdate_starts_with_rename c db d Hch Hn Hb) as (rest & Hfirst & _).
      fold final in Hfirst.
      assert (Hf : sent final
                   = sent (tx (snd (roleUpdateStatements c db (mkSt newTx d))))).
      { unfold final, resourcePostgreSQLRoleUpdate. rewrite run_Begin_defer, Hb.
        match goal with |- context [deferRollback ?b ?s] =>
          destruct (deferRollback_state b s) as (_ & _ & Hs & _); rewrite Hs end.
        apply sent_after_statements. }
      pose proof (roleUpdateStatements_reached c db d Hch Hn (mkSt newTx d)) as H.
      cbv zeta in H. fold o n pre in H.
      specialize (H (conj eq_refl (conj eq_refl eq_refl))).
      destruct (roleUpdateStatements c db (mkSt newTx d)) as [[r|e] s1];
        cbn [snd] in Hf.
      * destruct H as (_ & Hs & _).
        split; [|split].
        -- exists (membersRead db pre n), (length (sent final)).
           rewrite Hf, Hs. unfold statements. symmetry. apply firstn_all.
        -- rewrite Hfirst. split; [discriminate|].
           intros [H|H]; [now contradiction H | contradiction].
        -- intros current _ _ _ _ Hq. rewrite Hf, Hs. unfold statements, membersRead.
           now rewrite Hq, scanRoles_ok.
      * destruct H as ((more & Hs) & Hwhy).
        split; [|split].
        -- exists (membersRead db pre n), (length (sent final)).
           unfold statements. rewrite Hs, Hf. apply prefix_firstn.
        -- rewrite Hfirst. split; [discriminate|].
           intros [H|H]; [now contradiction H | contradiction].
        -- intros current _ _ Hrls Hok Hq. exfalso.
           destruct Hwhy as [(prev & sql & e' & Href) | [(H1 & H2) | H3]].
           ++ rewrite Hok in Href. discriminate.
           ++ rewrite (Hrls H1) in H2. discriminate.
           ++ apply H3. exists current. exact Hq.
Qed.

(** C5. A role update that changes the name. The statements it sends are
    the first statements of this list: the rename of the old name to the new
    one, then one ALTER ROLE of the new name for each other attribute that
    changed (in the order of the setters), then one REVOKE from the new name
    for each role read from the catalog, then one GRANT to the new name for
    each configured role. Nothing at all is sent exactly when the
    transaction cannot be opened or the new name is empty; otherwise the
    rename is sent, and first. When nothing stops the update (the server
    accepts every statement, row-level security is supported if the bypass
    flag changed, and the memberships can be read) the whole list is sent. *)
Theorem roleUpdate_rename_first (c : Client) (db : Server) (d : RoleData) :
  let a := attrs d in
  let o := strs (prior d) roleNameAttr in
  let n := strs a roleNameAttr in
  let new := pq.QuoteIdentifier n in
  let rename := "ALTER ROLE " ++ pq.QuoteIdentifier o ++ " RENAME TO " ++ new in
  let flag k enable disable :=
    if HasChangeBool d k
    then [ "ALTER ROLE " ++ new ++ " WITH " ++ (if bools a k then enable else disable) ]
    else [] in
  let connLimit :=
    "ALTER ROLE " ++ new ++ " CONNECTION LIMIT " ++ itoa (ints a roleConnLimitAttr) in
  let validUntil :=
    "ALTER ROLE " ++ new ++ " VALID UNTIL '"
    ++ pqQuoteLiteral (if String.eqb (strings.ToLower (strs a roleValidUntilAttr)) "infinity"
                       then "infinity" else strs a roleValidUntilAttr)
    ++ "'" in
  let revoke g := "REVOKE " ++ pq.QuoteIdentifier g ++ " FROM " ++ new in
  let grant g := "GRANT " ++ pq.QuoteIdentifier g ++ " TO " ++ new in
  let alters :=
    (flag roleBypassRLSAttr "BYPASSRLS" "NOBYPASSRLS"
     ++ (if HasChangeInt d roleConnLimitAttr then [ connLimit ] else [])
     ++ flag roleCreateDBAttr "CREATEDB" "NOCREATEDB"
     ++ flag roleCreateRoleAttr "CREATEROLE" "NOCREATEROLE"
     ++ flag roleInheritAttr "INHERIT" "NOINHERIT"
     ++ flag roleLoginAttr "LOGIN" "NOLOGIN"
     ++ flag roleReplicationAttr "REPLICATION" "NOREPLICATION"
     ++ flag roleSuperuserAttr "SUPERUSER" "NOSUPERUSER"
     ++ (if andb (HasChangeString d roleValidUntilAttr)
                 (negb (String.eqb (strs a roleValidUntilAttr) ""))
         then [ validUntil ] else []))%list in
  let statements current :=
    (rename :: alters ++ map revoke current ++ map grant (roles a))%list in
  let final := tx (snd (run (resourcePostgreSQLRoleUpdate c db) d)) in
  o <> n ->
  (exists current k, sent final = firstn k (statements current))
  /\ (sent final = [] <-> begin_result db <> None \/ n = "")
  /\ (forall current,
        begin_result db = None ->
        n <> "" ->
        (HasChangeBool d roleBypassRLSAttr = true -> featureSupported c featureRLS = true) ->
        (forall prev sql, exec_result db prev sql = None) ->
        applicable_roles db (rename :: alters) n = Ok (map Ok current) ->
        sent final = statements current).
Proof.
  exact (roleUpdate_sent c db d).
Qed.

(** The update of [old] to [new] with five connections, a member of [b]
    that is to be a member of [a], on a server that accepts everything. *)
Lemma roleUpdate_rename_first_witness :
  let d := mkData "old" (defaultRole "old")
                  (setRoles ["a"] (setInt roleConnLimitAttr 5 (defaultRole "new"))) in
  "old" <> "new"
  /\ sent (tx (snd (run (resourcePostgreSQLRoleUpdate pgClient (okServer ["b"] (attrs d))) d)))
     = [ "ALTER ROLE " ++ dq "old" ++ " RENAME TO " ++ dq "new";
         "ALTER ROLE " ++ dq "new" ++ " CONNECTION LIMIT 5";
         "REVOKE " ++ dq "b" ++ " FROM " ++ dq "new";
         "GRANT " ++ dq "a" ++ " TO " ++ dq "new" ].
Proof.
  cbv zeta. split; [discriminate|].
  apply (proj2 (proj2
           (roleUpdate_rename_first pgClient
              (okServer ["b"] (setRoles ["a"] (setInt roleConnLimitAttr 5 (defaultRole "new"))))
              (mkData "old" (defaultRole "old")
                      (setRoles ["a"] (setInt roleConnLimitAttr 5 (defaultRole "new"))))
              ltac:(discriminate)))
           ["b"]);
    try reflexivity; try discriminate.
Defined.

(** A rename to the empty name with five connections asked for: nothing is
    sent, not even the rename. *)
Example roleUpdate_rename_to_empty :
  let out := run (resourcePostgreSQLRoleUpdate pgClient (okServer [] (defaultRole "old")))
                 (mkData "old" (defaultRole "old")
                         (setInt roleConnLimitAttr 5 (defaultRole ""))) in
  fst out = Err (Errorf "Error setting role name to an empty string")
  /\ sent (tx (snd out)) = [].
Proof. split; vm_compute; reflexivity. Qed.

(** A renamed role whose connection limit the server refuses: the rename
    went out first, the refused statement is the last one. *)
Example roleUpdate_rename_then_refused :
  let a := setRoles ["a"] (setInt roleConnLimitAttr 5 (defaultRole "new")) in
  sent (tx (snd (run (resourcePostgreSQLRoleUpdate pgClient
                        (refusing ("ALTER ROLE " ++ dq "new" ++ " CONNECTION LIMIT 5") ["b"] a))
                     (mkData "old" (defaultRole "old") a))))
  = [ "ALTER ROLE " ++ dq "old" ++ " RENAME TO " ++ dq "new";
      "ALTER ROLE " ++ dq "new" ++ " CONNECTION LIMIT 5" ].
Proof. vm_compute. reflexivity. Qed.
